(** * CERT-In SBOM Mapper: the result cache and the fetch orchestration

    A shallow embedding of [services/cacheService.js],
    [services/propertyMapperService.js], [services/errorService.js] and of
    the data paths of [components/App.js]: the upload step, the
    document-level merge, the property editor and the CSV export.

    The JavaScript fragment modelled here:
    - values are JSON trees plus [undefined]; they carry no sharing, so two
      object operands of [===] taken from different positions are different
      references;
    - the numbers held in values are the integer-valued doubles of the safe
      range, kept as [Z]; a conversion to a number yields a [number]: an
      integer, a fraction, an infinity or [NaN], as [StringToNumber] has it;
    - [Promise.all] rejects with the rejection that settles first; the order
      in which the calls of a component settle is a parameter of the
      collaborators, and every result holds for every such order;
    - strings are sequences of code units below 256, kept as [string];
    - an object is the list of its own properties in own-key order, and a
      property read finds the first entry of that name. *)

From Stdlib Require Import ZArith NArith QArith List String Ascii Bool Lia.
Import ListNotations.

Local Open Scope list_scope.
Local Open Scope string_scope.
Local Open Scope Z_scope.

(** ** JavaScript values and the operations the services use *)

Module JS.

#[warnings="-register-all"]
Inductive value : Type :=
| VUndef
| VNull
| VBool (b : bool)
| VNum (n : Z)
| VStr (s : string)
| VArr (elems : list value)
| VObj (props : list (string * value)).

Section ValueInduction.
Variable P : value -> Prop.
Hypothesis HUndef : P VUndef.
Hypothesis HNull : P VNull.
Hypothesis HBool : forall b, P (VBool b).
Hypothesis HNum : forall n, P (VNum n).
Hypothesis HStr : forall s, P (VStr s).
Hypothesis HArr : forall l, Forall P l -> P (VArr l).
Hypothesis HObj : forall o, Forall (fun kv => P (snd kv)) o -> P (VObj o).

Fixpoint value_rect' (v : value) : P v :=
  match v with
  | VUndef => HUndef
  | VNull => HNull
  | VBool b => HBool b
  | VNum n => HNum n
  | VStr s => HStr s
  | VArr l =>
      HArr l ((fix go (l : list value) : Forall P l :=
                 match l with
                 | [] => Forall_nil P
                 | x :: r => Forall_cons x (value_rect' x) (go r)
                 end) l)
  | VObj o =>
      HObj o ((fix go (o : list (string * value))
               : Forall (fun kv => P (snd kv)) o :=
                 match o with
                 | [] => Forall_nil _
                 | kv :: r =>
                     Forall_cons (P := fun kv => P (snd kv)) kv
                       (value_rect' (snd kv)) (go r)
                 end) o)
  end.
End ValueInduction.

(** *** Exceptions *)

Inductive exn : Type :=
| TypeError
| SyntaxError
| Rejection (reason : value).

Inductive result (A : Type) : Type :=
| Ok (a : A)
| Throw (e : exn).
Arguments Ok {A} a.
Arguments Throw {A} e.

Definition bind {A B} (m : result A) (k : A -> result B) : result B :=
  match m with
  | Ok a => k a
  | Throw e => Throw e
  end.

Notation "x <- m ;; k" := (bind m (fun x => k))
  (at level 61, m at next level, right associativity).

(** [try { m } catch (e) { h e }] *)
Definition try_catch {A} (m : result A) (h : exn -> result A) : result A :=
  match m with
  | Ok a => Ok a
  | Throw e => h e
  end.

(** *** Strings *)

Definition chars (s : string) : list ascii := list_ascii_of_string s.
Definition of_chars (l : list ascii) : string := string_of_list_ascii l.

Fixpoint join (sep : string) (l : list string) : string :=
  match l with
  | [] => ""
  | [s] => s
  | s :: r => s ++ sep ++ join sep r
  end.

Definition digit_char (d : N) : ascii :=
  if (d <? 10)%N then ascii_of_N (48 + d) else ascii_of_N (87 + d).

Fixpoint to_radix_aux (fuel : nat) (radix n : N) (acc : string) : string :=
  match fuel with
  | O => acc
  | S fuel' =>
      let acc' := String (digit_char (n mod radix)) acc in
      if (n / radix =? 0)%N then acc'
      else to_radix_aux fuel' radix (n / radix) acc'
  end.

(** [n.toString(radix)] for a non-negative integer. *)
Definition to_radix (radix n : N) : string :=
  to_radix_aux (S (N.to_nat (N.log2 n))) radix n "".

(** [String(n)] for an integer-valued number. *)
Definition number_to_string (n : Z) : string :=
  if n <? 0 then "-" ++ to_radix 10 (Z.to_N (- n))
  else to_radix 10 (Z.to_N n).

Definition is_digit (c : ascii) : bool :=
  let n := N_of_ascii c in ((48 <=? n) && (n <=? 57))%N.

Definition digit_val (c : ascii) : Z := Z.of_N (N_of_ascii c) - 48.

(** White space of [StringToNumber] and [trim] among the code units below
    256: TAB, LF, VT, FF, CR, SP and NBSP. *)
Definition is_space (c : ascii) : bool :=
  let n := N_of_ascii c in
  ((n =? 9) || (n =? 10) || (n =? 11) || (n =? 12) || (n =? 13)
   || (n =? 32) || (n =? 160))%N.

Fixpoint drop_spaces (l : list ascii) : list ascii :=
  match l with
  | c :: r => if is_space c then drop_spaces r else l
  | [] => []
  end.

Definition trim_chars (l : list ascii) : list ascii :=
  rev (drop_spaces (rev (drop_spaces l))).

Fixpoint digits_value (l : list ascii) (acc : Z) : option Z :=
  match l with
  | [] => Some acc
  | c :: r => if is_digit c then digits_value r (10 * acc + digit_val c)
              else None
  end.

(** *** Numbers

    A number is an integer, a fraction that is no integer, an infinity
    or [NaN].  Integers are kept apart so that the arithmetic of clock
    readings and lengths is that of [Z]. *)

Inductive number : Type :=
  | Int (z : Z)
  | Frac (q : Q)
  | Inf (negative : bool)
  | NaN.

Definition to_Q (n : number) : Q :=
  match n with
  | Int z => inject_Z z
  | Frac q => q
  | _ => inject_Z 0
  end.

Definition of_Q (q : Q) : number :=
  let r := Qred q in
  if (Qden r =? 1)%positive then Int (Qnum r) else Frac r.

(** The integer nearest to [a / b] for [b > 0], the even one of two. *)
Definition round_half_even (a b : Z) : Z :=
  let f := a / b in
  let r := a mod b in
  if 2 * r <? b then f
  else if b <? 2 * r then f + 1
  else if Z.even f then f else f + 1.

(** The double nearest to [n / d] for [n > 0] and [d > 0]: 53 significant
    bits, from the exponent -1074 on, ties to even, and [Infinity] from
    [2 ^ 1024] on. *)
Definition nearest_double (n d : Z) : number :=
  let e0 := Z.log2 n - Z.log2 d in
  let reaches :=
    if 0 <=? e0 then d * 2 ^ e0 <=? n else d <=? n * 2 ^ (- e0) in
  let e := if reaches then e0 else e0 - 1 in
  let k := Z.max (e - 52) (-1074) in
  if 0 <=? k then
    let m := round_half_even n (d * 2 ^ k) in
    if 2 ^ 1024 <=? m * 2 ^ k then Inf false else Int (m * 2 ^ k)
  else
    let m := round_half_even (n * 2 ^ (- k)) d in
    of_Q (Qmake m (Z.to_pos (2 ^ (- k)))).

Definition negate (n : number) : number :=
  match n with
  | Int z => Int (- z)
  | Frac q => Frac (Qopp q)
  | Inf negative => Inf (negb negative)
  | NaN => NaN
  end.

(** The number value of a rational. *)
Definition round_number (q : Q) : number :=
  match Qnum q with
  | Z0 => Int 0
  | Zpos n => nearest_double (Zpos n) (Zpos (Qden q))
  | Zneg n => negate (nearest_double (Zpos n) (Zpos (Qden q)))
  end.

Definition digit_of (c : ascii) : option Z :=
  let n := Z.of_N (N_of_ascii c) in
  if (48 <=? n) && (n <=? 57) then Some (n - 48)
  else if (97 <=? n) && (n <=? 102) then Some (n - 87)
  else if (65 <=? n) && (n <=? 70) then Some (n - 55)
  else None.

(** The longest run of digits of the radix at the head of [l]: its value
    after [acc], the number of digits after [count], and the rest. *)
Fixpoint take_digits (radix : Z) (l : list ascii) (acc : Z) (count : nat)
  : Z * nat * list ascii :=
  match l with
  | [] => (acc, count, [])
  | c :: r =>
      match digit_of c with
      | Some d =>
          if d <? radix
          then take_digits radix r (radix * acc + d) (S count)
          else (acc, count, l)
      | None => (acc, count, l)
      end
  end.

(** The digits of [0x], [0o] and [0b] literals, to the end of the text. *)
Definition non_decimal (radix : Z) (l : list ascii) : number :=
  match take_digits radix l 0 O with
  | (v, S _, []) => round_number (inject_Z v)
  | _ => NaN
  end.

(** An optional exponent part, to the end of the text. *)
Definition exponent_part (l : list ascii) : option Z :=
  match l with
  | [] => Some 0
  | c :: r =>
      if Ascii.eqb c "e" || Ascii.eqb c "E" then
        let signed :=
          match r with
          | s :: r' =>
              if Ascii.eqb s "-" then (true, r')
              else if Ascii.eqb s "+" then (false, r')
              else (false, r)
          | [] => (false, r)
          end in
        match take_digits 10 (snd signed) 0 O with
        | (v, S _, []) => Some (if fst signed then - v else v)
        | _ => None
        end
      else None
  end.

(** [Infinity], or digits with an optional fraction and exponent. *)
Definition unsigned_decimal (l : list ascii) : number :=
  if String.eqb (of_chars l) "Infinity" then Inf false
  else
    let '(whole, n1, r1) := take_digits 10 l 0 O in
    let '(digits, n2, r2) :=
      match r1 with
      | c :: r => if Ascii.eqb c "." then take_digits 10 r whole O
                  else (whole, O, r1)
      | [] => (whole, O, r1)
      end in
    match (n1 + n2)%nat, exponent_part r2 with
    | S _, Some x =>
        let e := x - Z.of_nat n2 in
        round_number
          (if 0 <=? e then inject_Z (digits * 10 ^ e)
           else Qmake digits (Z.to_pos (10 ^ (- e))))
    | _, _ => NaN
    end.

(** [StringToNumber]: white space is trimmed; the empty text is 0; a
    decimal literal may have a sign, a fraction and an exponent; [0x],
    [0o] and [0b] literals have no sign; the value is rounded to the
    nearest double; anything else is [NaN]. *)
Definition string_to_number (s : string) : number :=
  match trim_chars (chars s) with
  | [] => Int 0
  | c :: r =>
      if Ascii.eqb c "-" then negate (unsigned_decimal r)
      else if Ascii.eqb c "+" then unsigned_decimal r
      else
        match r with
        | x :: r' =>
            if Ascii.eqb c "0" && (Ascii.eqb x "x" || Ascii.eqb x "X")
            then non_decimal 16 r'
            else if Ascii.eqb c "0" && (Ascii.eqb x "o" || Ascii.eqb x "O")
            then non_decimal 8 r'
            else if Ascii.eqb c "0" && (Ascii.eqb x "b" || Ascii.eqb x "B")
            then non_decimal 2 r'
            else unsigned_decimal (c :: r)
        | [] => unsigned_decimal (c :: r)
        end
  end.

(** A canonical array index: ["0"], or digits without a leading zero. *)
Definition index_of_key (k : string) : option nat :=
  match chars k with
  | [] => None
  | c :: r =>
      if Ascii.eqb c "0" then
        match r with [] => Some O | _ => None end
      else option_map Z.to_nat (digits_value (c :: r) 0)
  end.

Definition lower_char (c : ascii) : ascii :=
  let n := N_of_ascii c in
  if ((65 <=? n) && (n <=? 90))%N then ascii_of_N (n + 32)
  else if ((192 <=? n) && (n <=? 222) && negb (n =? 215))%N
       then ascii_of_N (n + 32)
  else c.

Definition upper_char (c : ascii) : ascii :=
  let n := N_of_ascii c in
  if ((97 <=? n) && (n <=? 122))%N then ascii_of_N (n - 32)
  else if ((224 <=? n) && (n <=? 254) && negb (n =? 247))%N
       then ascii_of_N (n - 32)
  else c.

Definition toLowerCase (s : string) : string :=
  of_chars (map lower_char (chars s)).

(** [s.toUpperCase()]; sharp s becomes [SS].  (The upper-case forms of the
    code units 181 and 255 lie above 255, outside the fragment; they are
    kept.) *)
Definition toUpperCase (s : string) : string :=
  of_chars (flat_map (fun c => if (N_of_ascii c =? 223)%N
                               then ["S"; "S"]%char
                               else [upper_char c]) (chars s)).

Fixpoint is_prefix (p l : list ascii) : bool :=
  match p, l with
  | [], _ => true
  | a :: p', b :: l' => Ascii.eqb a b && is_prefix p' l'
  | _ :: _, [] => false
  end.

Fixpoint contains_chars (p l : list ascii) : bool :=
  is_prefix p l ||
  match l with
  | [] => false
  | _ :: r => contains_chars p r
  end.

(** [s.includes(p)] *)
Definition includes (s p : string) : bool := contains_chars (chars p) (chars s).

(** [s.split(sep)] for a one-character separator. *)
Fixpoint split_chars (sep : ascii) (l : list ascii) (cur : list ascii)
  : list string :=
  match l with
  | [] => [of_chars (rev cur)]
  | c :: r =>
      if Ascii.eqb c sep then of_chars (rev cur) :: split_chars sep r []
      else split_chars sep r (c :: cur)
  end.

Definition split (s : string) (sep : ascii) : list string :=
  split_chars sep (chars s) [].

(** [s.replace(p, "")] for a non-empty string pattern [p]: the first
    occurrence is removed. *)
Fixpoint remove_first (p l : list ascii) : list ascii :=
  if is_prefix p l then skipn (List.length p) l
  else match l with
       | [] => []
       | c :: r => c :: remove_first p r
       end.

(** [l.slice(-n)] *)
Definition slice_last {A} (n : nat) (l : list A) : list A :=
  skipn (List.length l - n) l.

(** *** Conversions and operators *)

Definition truthy (v : value) : bool :=
  match v with
  | VUndef | VNull => false
  | VBool b => b
  | VNum n => negb (n =? 0)
  | VStr s => negb (String.eqb s "")
  | VArr _ | VObj _ => true
  end.

Definition nullish (v : value) : bool :=
  match v with
  | VUndef | VNull => true
  | _ => false
  end.

(** [a || b] and [a && b] on already evaluated operands. *)
Definition js_or (a b : value) : value := if truthy a then a else b.
Definition js_and (a b : value) : value := if truthy a then b else a.

(** [String(v)], also the conversion of a template literal and of
    [Array.prototype.join]. *)
Fixpoint to_string (v : value) : string :=
  match v with
  | VUndef => "undefined"
  | VNull => "null"
  | VBool b => if b then "true" else "false"
  | VNum n => number_to_string n
  | VStr s => s
  | VArr l =>
      join "," (map (fun e => match e with
                              | VUndef | VNull => ""
                              | _ => to_string e
                              end) l)
  | VObj _ => "[object Object]"
  end.

(** [arr.join(sep)] *)
Definition array_join (sep : string) (l : list value) : string :=
  join sep (map (fun e => if nullish e then "" else to_string e) l).

(** [ToNumber] *)
Definition to_number (v : value) : number :=
  match v with
  | VUndef => NaN
  | VNull => Int 0
  | VBool b => Int (if b then 1 else 0)
  | VNum n => Int n
  | VStr s => string_to_number s
  | VArr _ | VObj _ => string_to_number (to_string v)
  end.

(** The numeric relational operators and the subtraction.  Every
    comparison in the services has a number on at least one side, so the
    comparison is numeric, and false as soon as an operand is [NaN].  The
    difference of two integers is that of [Z], which is the one of the
    doubles within the safe range; any other finite difference is rounded
    to the nearest double. *)
Definition num_gt (a b : number) : bool :=
  match a, b with
  | Int x, Int y => x >? y
  | NaN, _ | _, NaN => false
  | Inf n, Inf m => negb n && m
  | Inf n, _ => negb n
  | _, Inf m => m
  | _, _ => negb (Qle_bool (to_Q a) (to_Q b))
  end.
Definition num_ge (a b : number) : bool :=
  match a, b with
  | Int x, Int y => x >=? y
  | NaN, _ | _, NaN => false
  | Inf n, Inf m => negb n || m
  | Inf n, _ => negb n
  | _, Inf m => m
  | _, _ => Qle_bool (to_Q b) (to_Q a)
  end.
Definition num_lt (a b : number) : bool :=
  match a, b with
  | Int x, Int y => x <? y
  | NaN, _ | _, NaN => false
  | Inf n, Inf m => n && negb m
  | Inf n, _ => n
  | _, Inf m => negb m
  | _, _ => negb (Qle_bool (to_Q b) (to_Q a))
  end.
Definition num_sub (a b : number) : number :=
  match a, b with
  | Int x, Int y => Int (x - y)
  | NaN, _ | _, NaN => NaN
  | Inf n, Inf m => if Bool.eqb n m then NaN else Inf n
  | Inf n, _ => Inf n
  | _, Inf m => Inf (negb m)
  | _, _ => round_number (Qminus (to_Q a) (to_Q b))
  end.

(** [a === b] *)
Definition strict_eq (a b : value) : bool :=
  match a, b with
  | VUndef, VUndef => true
  | VNull, VNull => true
  | VBool x, VBool y => Bool.eqb x y
  | VNum x, VNum y => x =? y
  | VStr x, VStr y => String.eqb x y
  | _, _ => false
  end.

Fixpoint lookup (k : string) (o : list (string * value)) : option value :=
  match o with
  | [] => None
  | (k', x) :: r => if String.eqb k' k then Some x else lookup k r
  end.

(** The value of [v[k]] for a [v] that is neither [undefined] nor [null]
    (own data properties, the [length] and the elements of arrays and
    strings), and the value of [v?.[k]] for every [v]. *)
Definition member (v : value) (k : string) : value :=
  match v with
  | VObj o => match lookup k o with Some x => x | None => VUndef end
  | VArr l =>
      if String.eqb k "length" then VNum (Z.of_nat (List.length l))
      else match index_of_key k with
           | Some i => nth i l VUndef
           | None => VUndef
           end
  | VStr s =>
      if String.eqb k "length" then VNum (Z.of_nat (String.length s))
      else match index_of_key k with
           | Some i => match String.get i s with
                       | Some c => VStr (String c "")
                       | None => VUndef
                       end
           | None => VUndef
           end
  | _ => VUndef
  end.

(** [v.k]: a [TypeError] on [undefined] and [null]. *)
Definition get (v : value) (k : string) : result value :=
  if nullish v then Throw TypeError else Ok (member v k).

(** [o[k] = x] on the property list of an object. *)
Fixpoint set_prop (k : string) (x : value) (o : list (string * value))
  : list (string * value) :=
  match o with
  | [] => [(k, x)]
  | (k', y) :: r =>
      if String.eqb k' k then (k', x) :: r else (k', y) :: set_prop k x r
  end.

(** Method calls on a receiver that has to be an array, respectively a
    string: any other receiver has no such method, a [TypeError]. *)
Definition as_array (v : value) : result (list value) :=
  match v with
  | VArr l => Ok l
  | _ => Throw TypeError
  end.

Definition as_string (v : value) : result string :=
  match v with
  | VStr s => Ok s
  | _ => Throw TypeError
  end.

Definition isArray (v : value) : bool :=
  match v with
  | VArr _ => true
  | _ => false
  end.

Section ArrayCallbacks.
Variable f : value -> result value.

(** [l.some(f)] *)
Fixpoint array_some (l : list value) : result bool :=
  match l with
  | [] => Ok false
  | x :: r => b <- f x ;; if truthy b then Ok true else array_some r
  end.

(** [l.filter(f)] *)
Fixpoint array_filter (l : list value) : result (list value) :=
  match l with
  | [] => Ok []
  | x :: r =>
      b <- f x ;;
      r' <- array_filter r ;;
      Ok (if truthy b then x :: r' else r')
  end.

(** [l.find(f)] *)
Fixpoint array_find (l : list value) : result value :=
  match l with
  | [] => Ok VUndef
  | x :: r => b <- f x ;; if truthy b then Ok x else array_find r
  end.

(** [l.findIndex(f)]; [None] is -1. *)
Fixpoint array_findIndex (l : list value) : result (option nat) :=
  match l with
  | [] => Ok None
  | x :: r =>
      b <- f x ;;
      if truthy b then Ok (Some O)
      else i <- array_findIndex r ;; Ok (option_map S i)
  end.

(** [l.map(f)] *)
Fixpoint array_map (l : list value) : result (list value) :=
  match l with
  | [] => Ok []
  | x :: r => y <- f x ;; r' <- array_map r ;; Ok (y :: r')
  end.
End ArrayCallbacks.

(** *** JSON.stringify *)

Definition hex4 (n : N) : string :=
  String (digit_char (n / 4096 mod 16))
    (String (digit_char (n / 256 mod 16))
       (String (digit_char (n / 16 mod 16))
          (String (digit_char (n mod 16)) ""))).

Definition dquote : ascii := ascii_of_N 34.

Definition quote_char (c : ascii) : string :=
  let n := N_of_ascii c in
  if (n =? 34)%N then String "\" (String dquote "")
  else if (n =? 92)%N then "\\"
  else if (n =? 8)%N then "\b"
  else if (n =? 12)%N then "\f"
  else if (n =? 10)%N then "\n"
  else if (n =? 13)%N then "\r"
  else if (n =? 9)%N then "\t"
  else if (n <? 32)%N then "\u" ++ hex4 n
  else String c "".

Definition quote (s : string) : string :=
  String dquote (join "" (map quote_char (chars s)) ++ String dquote "").

Section Serialize.
(** The property list of a replacer array, [None] without a replacer. *)
Variable K : option (list string).

Section Members.
Variable ser : value -> option string.

(** [SerializeJSONProperty] of [Get(o, P)]; an absent property reads
    as [undefined], which is left out. *)
Fixpoint ser_get (P : string) (o : list (string * value))
  : option string :=
  match o with
  | [] => None
  | (k, x) :: r => if String.eqb k P then ser x else ser_get P r
  end.

Definition ser_member (o : list (string * value)) (P : string)
  : list string :=
  match ser_get P o with
  | Some str => [quote P ++ ":" ++ str]
  | None => []
  end.
End Members.

Fixpoint serialize (v : value) : option string :=
  match v with
  | VUndef => None
  | VNull => Some "null"
  | VBool b => Some (if b then "true" else "false")
  | VNum n => Some (number_to_string n)
  | VStr s => Some (quote s)
  | VArr l =>
      Some ("[" ++ join "," (map (fun e => match serialize e with
                                           | Some str => str
                                           | None => "null"
                                           end) l) ++ "]")
  | VObj o =>
      let keys := match K with
                  | Some keys => keys
                  | None => map fst o
                  end in
      Some ("{" ++ join "," (flat_map (ser_member serialize o) keys) ++ "}")
  end.
End Serialize.

(** [JSON.stringify(v)] and [JSON.stringify(v, keys)]; [None] is the
    result [undefined]. *)
Definition JSON_stringify (v : value) : option string := serialize None v.
Fixpoint property_list (seen keys : list string) : list string :=
  match keys with
  | [] => []
  | k :: r =>
      if existsb (String.eqb k) seen then property_list seen r
      else k :: property_list (k :: seen) r
  end.

Definition JSON_stringify_keys (v : value) (keys : list string)
  : option string := serialize (Some (property_list [] keys)) v.

(** *** Sorting *)

Section Sort.
Context {A : Type}.
Variable le : A -> A -> bool.

Fixpoint insert_sorted (x : A) (l : list A) : list A :=
  match l with
  | [] => [x]
  | y :: r => if le x y then x :: l else y :: insert_sorted x r
  end.

(** A stable sort: equal elements keep their order. *)
Definition stable_sort (l : list A) : list A :=
  fold_right insert_sorted [] l.
End Sort.

(** [keys.sort()]: by code units. *)
Definition sort_strings (l : list string) : list string :=
  stable_sort String.leb l.

(** [Object.keys(o)] of an object literal. *)
Definition Object_keys (o : list (string * value)) : list string := map fst o.

(** *** The 32-bit string hash of the cache service *)

(** [ToInt32] *)
Definition to_int32 (x : Z) : Z := (x + 2 ^ 31) mod 2 ^ 32 - 2 ^ 31.

(** [x << n] *)
Definition shl32 (x : Z) (n : Z) : Z := to_int32 (to_int32 x * 2 ^ n).

(** [s.charCodeAt(i)] *)
Definition char_code (c : ascii) : Z := Z.of_N (N_of_ascii c).

End JS.

(** ** services/cacheService.js *)

Module CacheService.
Import JS.

(** *** The [Map] of the cache

    Keys are compared by SameValueZero, which on the fragment is [===]:
    a key that is an array or an object (it can only come from a parsed
    snapshot) is a reference of its own and matches no other key. *)

Definition Map := list (value * value).

Definition same_key (k k' : value) : bool := strict_eq k k'.

Fixpoint map_get (k : value) (m : Map) : value :=
  match m with
  | [] => VUndef
  | (k', v) :: r => if same_key k' k then v else map_get k r
  end.

Fixpoint map_has (k : value) (m : Map) : bool :=
  match m with
  | [] => false
  | (k', _) :: r => same_key k' k || map_has k r
  end.

(** [m.set(k, v)]: an existing key keeps its position. *)
Fixpoint map_set (k v : value) (m : Map) : Map :=
  match m with
  | [] => [(k, v)]
  | (k', v') :: r =>
      if same_key k' k then (k', v) :: r else (k', v') :: map_set k v r
  end.

Fixpoint map_delete (k : value) (m : Map) : Map :=
  match m with
  | [] => []
  | (k', v') :: r =>
      if same_key k' k then r else (k', v') :: map_delete k r
  end.

(** [new Map(iterable)] for the value of [data.cache || []]: the iterable
    has to be an array (a non-empty string iterates to strings, which are
    no entry objects), and every entry an object, read at [0] and [1]. *)
Fixpoint map_of_entries (entries : list value) (m : Map) : result Map :=
  match entries with
  | [] => Ok m
  | e :: r =>
      match e with
      | VArr _ | VObj _ =>
          map_of_entries r (map_set (member e "0") (member e "1") m)
      | _ => Throw TypeError
      end
  end.

Definition new_Map (iterable : value) : result Map :=
  l <- as_array iterable ;; map_of_entries l [].

(** [Array.from(m.entries())] and [Array.from(m.keys())] *)
Definition map_entries (m : Map) : list value :=
  map (fun kv => VArr [fst kv; snd kv]) m.
Definition map_keys (m : Map) : list value := map fst m.

(** *** The persistence target

    [localStorage] holds at most the one item of key [storageKey];
    [setItem] fails (a quota error) on a string longer than [capacity]. *)

Record localStorage : Type := {
  item : option string;
  capacity : nat
}.

Definition setItem (s : string) (ls : localStorage) : result localStorage :=
  if (String.length s <=? capacity ls)%nat
  then Ok {| item := Some s; capacity := capacity ls |}
  else Throw (Rejection (VStr "QuotaExceededError")).

Definition removeItem (ls : localStorage) : localStorage :=
  {| item := None; capacity := capacity ls |}.

(** *** The service

    [Date.now()] is the clock reading [now] handed to an operation. *)

Record state : Type := {
  cache : Map;
  sessionStartTime : value;
  storage : localStorage
}.

Definition storageKey : string := "cert-in-sbom-cache".
Definition maxCacheAge : Z := 24 * 60 * 60 * 1000.

Definition with_cache (m : Map) (st : state) : state :=
  {| cache := m; sessionStartTime := sessionStartTime st;
     storage := storage st |}.

Definition clearStorage (st : state) : state :=
  {| cache := cache st; sessionStartTime := sessionStartTime st;
     storage := removeItem (storage st) |}.

Definition saveToStorage (now : Z) (st : state) : state :=
  let data := VObj [("cache", VArr (map_entries (cache st)));
                    ("timestamp", VNum now);
                    ("sessionStartTime", sessionStartTime st)] in
  match JSON_stringify data with
  | Some str =>
      match setItem str (storage st) with
      | Ok ls => {| cache := cache st;
                    sessionStartTime := sessionStartTime st;
                    storage := ls |}
      | Throw _ => st
      end
  | None => st
  end.

Section Host.
(** [JSON.parse] of the host; [None] is its [SyntaxError]. *)
Variable JSON_parse : string -> option value.

Definition parse (s : string) : result value :=
  match JSON_parse s with
  | Some v => Ok v
  | None => Throw SyntaxError
  end.

Definition loadFromStorage (now : Z) (st : state) : state :=
  match
    (match item (storage st) with
     | Some stored =>
         if truthy (VStr stored) then
           data <- parse stored ;;
           timestamp <- JS.get data "timestamp" ;;
           if truthy timestamp
              && num_lt (num_sub (Int now) (to_number timestamp))
                        (Int maxCacheAge)
           then
             m <- new_Map (js_or (member data "cache") (VArr [])) ;;
             Ok {| cache := m;
                   sessionStartTime :=
                     js_or (member data "sessionStartTime") (VNum now);
                   storage := storage st |}
           else Ok (clearStorage st)
         else Ok st
     | None => Ok st
     end)
  with
  | Ok st' => st'
  | Throw _ => clearStorage st
  end.

(** [new CacheService()] over the given [localStorage]. *)
Definition constructor (now : Z) (ls : localStorage) : state :=
  loadFromStorage now
    {| cache := []; sessionStartTime := VNum now; storage := ls |}.
End Host.

(** [generateKey(type, ...params)] *)
Definition generateKey (type : value) (params : list value) : string :=
  to_string type ++ ":" ++ array_join ":" params.

Definition get (key : value) (st : state) : value := map_get key (cache st).

Definition set (now : Z) (key v : value) (st : state) : state :=
  saveToStorage now (with_cache (map_set key v (cache st)) st).

Definition has (key : value) (st : state) : bool := map_has key (cache st).

Definition clear (now : Z) (st : state) : state :=
  clearStorage {| cache := []; sessionStartTime := VNum now;
                  storage := storage st |}.

Record stats : Type := {
  size : nat;
  sessionDuration : number;
  keys : list value
}.

Definition getStats (now : Z) (st : state) : stats :=
  {| size := List.length (cache st);
     sessionDuration := num_sub (Int now) (to_number (sessionStartTime st));
     keys := map_keys (cache st) |}.

(** The loop of the two checksum functions and its rendering,
    [Math.abs(hash).toString(36)]. *)
Definition hash_step (hash : Z) (c : ascii) : Z :=
  let char := char_code c in
  let hash := (shl32 hash 5 - hash) + char in
  to_int32 hash.

Definition string_hash (dataString : string) : Z :=
  fold_left hash_step (chars dataString) 0.

Definition render_hash (hash : Z) : string := to_radix 36 (Z.to_N (Z.abs hash)).

(** [sbomVulnerabilities = []] *)
Definition default_param (v d : value) : value :=
  match v with
  | VUndef => d
  | _ => v
  end.

Definition componentData (component sbomVulnerabilities : value)
  : result (list (string * value)) :=
  let sbomVulnerabilities := default_param sbomVulnerabilities (VArr []) in
  name <- JS.get component "name" ;;
  version <- JS.get component "version" ;;
  purl <- JS.get component "purl" ;;
  group <- JS.get component "group" ;;
  externalReferences <- JS.get component "externalReferences" ;;
  l <- as_array sbomVulnerabilities ;;
  vulnerabilities <-
    array_filter
      (fun v =>
         affects <- JS.get v "affects" ;;
         if truthy affects then
           arr <- as_array affects ;;
           b <- array_some
                  (fun a =>
                     ref <- JS.get a "ref" ;;
                     Ok (VBool (strict_eq ref
                                  (js_or (member component "bom-ref")
                                         (member component "bomRef")))))
                  arr ;;
           Ok (VBool b)
         else Ok affects)
      l ;;
  Ok [("name", name); ("version", version); ("purl", purl);
      ("group", group); ("externalReferences", externalReferences);
      ("vulnerabilities", VArr vulnerabilities)].

Definition checksum_of (prefix : string) (data : list (string * value))
  : result string :=
  match JSON_stringify_keys (VObj data) (sort_strings (Object_keys data)) with
  | Some dataString => Ok (prefix ++ render_hash (string_hash dataString))
  | None => Throw TypeError
  end.

Definition generateComponentChecksum (component sbomVulnerabilities : value)
  : result string :=
  data <- componentData component sbomVulnerabilities ;;
  checksum_of "component:" data.

Definition fileData (sbomData : value) : result (list (string * value)) :=
  components <- JS.get sbomData "components" ;;
  mapped <-
    (if nullish components then Ok VUndef
     else
       l <- as_array components ;;
       l' <- array_map
               (fun c =>
                  name <- JS.get c "name" ;;
                  Ok (VObj [("name", name);
                            ("version", member c "version");
                            ("purl", member c "purl");
                            ("group", member c "group");
                            ("externalReferences",
                              member c "externalReferences");
                            ("bomRef", js_or (member c "bom-ref")
                                             (member c "bomRef"))]))
               l ;;
       Ok (VArr l')) ;;
  Ok [("components", js_or mapped (VArr []));
      ("vulnerabilities", js_or (member sbomData "vulnerabilities") (VArr []));
      ("metadata",
        VObj [("timestamp", member (member sbomData "metadata") "timestamp");
              ("version", member (member sbomData "metadata") "version")])].

Definition generateFileChecksum (sbomData : value) : result string :=
  data <- fileData sbomData ;;
  checksum_of "file:" data.

Definition setComponentResult (now : Z)
  (component sbomVulnerabilities r : value) (st : state)
  : result (string * state) :=
  checksum <- generateComponentChecksum component sbomVulnerabilities ;;
  Ok (checksum, set now (VStr checksum) r st).

Definition getComponentResult (component sbomVulnerabilities : value)
  (st : state) : result value :=
  checksum <- generateComponentChecksum component sbomVulnerabilities ;;
  Ok (get (VStr checksum) st).

Definition hasComponentResult (component sbomVulnerabilities : value)
  (st : state) : result bool :=
  checksum <- generateComponentChecksum component sbomVulnerabilities ;;
  Ok (has (VStr checksum) st).

Definition setFileResult (now : Z) (sbomData processedComponents : value)
  (st : state) : result (string * state) :=
  checksum <- generateFileChecksum sbomData ;;
  Ok (checksum, set now (VStr checksum) processedComponents st).

Definition getFileResult (sbomData : value) (st : state) : result value :=
  checksum <- generateFileChecksum sbomData ;;
  Ok (get (VStr checksum) st).

Definition hasFileResult (sbomData : value) (st : state) : result bool :=
  checksum <- generateFileChecksum sbomData ;;
  Ok (has (VStr checksum) st).

(** [setWithTTL(key, value, ttlMs = 0)] *)
Definition setWithTTL (now : Z) (key v ttlMs : value) (st : state) : state :=
  let ttlMs := default_param ttlMs (VNum 0) in
  let entry := VObj [("value", v); ("timestamp", VNum now); ("ttl", ttlMs)] in
  saveToStorage now (with_cache (map_set key entry (cache st)) st).

Definition getWithTTL (now : Z) (key : value) (st : state) : value * state :=
  let entry := map_get key (cache st) in
  if negb (truthy entry) then (VNull, st)
  else if num_gt (to_number (member entry "ttl")) (Int 0)
          && num_gt (num_sub (Int now)
                       (to_number (member entry "timestamp")))
                    (to_number (member entry "ttl"))
  then (VNull, saveToStorage now (with_cache (map_delete key (cache st)) st))
  else (member entry "value", st).

(** [forceClear()]: [clear()] and a line on the console. *)
Definition forceClear (now : Z) (st : state) : state :=
  clearStorage {| cache := []; sessionStartTime := VNum now;
                  storage := storage st |}.

(** [key.startsWith(prefix)]: only a string has the method. *)
Definition startsWith (prefix : string) (key : value) : result value :=
  s <- as_string key ;; Ok (VBool (is_prefix (chars prefix) (chars s))).

Record checksum_stats : Type := {
  totalComponentResults : nat;
  totalFileResults : nat;
  componentKeys : list value;
  totalCacheSize : nat
}.

Definition getChecksumCacheStats (st : state) : result checksum_stats :=
  let allKeys := map_keys (cache st) in
  componentKeys <- array_filter (startsWith "component:") allKeys ;;
  fileKeys <- array_filter (startsWith "file:") allKeys ;;
  Ok {| totalComponentResults := List.length componentKeys;
        totalFileResults := List.length fileKeys;
        componentKeys := firstn 10 componentKeys;
        totalCacheSize := List.length (cache st) |}.

End CacheService.

(** ** services/propertyMapperService.js *)

Module PropertyMapperService.
Import JS.

(** The collaborators of the mapper, which the services call but do not
    define: the package registry, vulnerability, repository and lifecycle
    clients.  A call that throws, or whose promise rejects, is a [Throw];
    a promise that fulfils is an [Ok] of its value.  What the clients
    themselves write into the cache is theirs and is not part of the
    state threaded here. *)
Record collaborators : Type := {
  extractPackageInfo : value -> result value;
  fetchNpmData : value -> result value;
  fetchPyPiData : value -> result value;
  fetchMavenData : value -> value -> result value;
  fetchVulnerabilityData : value -> result value;
  determineCriticality : value -> result value;
  fetchGitHubData : value -> result value;
  fetchEol : value -> value -> result value;
  (** the order in which the calls of the full fetch for a component
      settle, as positions in the array handed to [Promise.all]; the
      calls that are not listed settle last, in the order of the array,
      and a call that throws while the array is built settles first *)
  settles : value -> list nat
}.

(** The first rejection among the promises, taken in the given order. *)
Fixpoint first_rejection (order : list nat) (promises : list (result value))
  : option exn :=
  match order with
  | [] => None
  | i :: r =>
      match nth i promises (Ok VUndef) with
      | Throw e => Some e
      | Ok _ => first_rejection r promises
      end
  end.

(** The values of the promises that fulfil. *)
Definition fulfilled (promises : list (result value)) : list value :=
  flat_map (fun p => match p with Ok v => [v] | Throw _ => [] end) promises.

(** [await Promise.all(promises)]: the array of the values when every
    promise fulfils, and otherwise the rejection that comes first in
    time, the promises settling in the order [settles]. *)
Definition Promise_all (settles : list nat) (promises : list (result value))
  : result (list value) :=
  match
    first_rejection (List.app settles (seq 0 (List.length promises)))
      promises
  with
  | Some e => Throw e
  | None => Ok (fulfilled promises)
  end.

Definition str_eq (v : value) (s : string) : bool := strict_eq v (VStr s).

Definition determineUsageRestrictions (license : value) : string :=
  if negb (truthy license) then "NA"
  else
    let l := toLowerCase (to_string license) in
    if includes l "agpl" then "AGPL License - Strong copyleft restrictions"
    else if includes l "gpl" then "GPL License - Copyleft restrictions apply"
    else if includes l "mit" || includes l "apache"
         then "Permissive license - Minimal restrictions"
    else "NA".

(** [(githubData?.stars || 0) > n] *)
Definition stars_above (githubData : value) (n : Z) : bool :=
  num_gt (to_number (js_or (member githubData "stars") (VNum 0))) (Int n).

Definition determineOrigin (packageData githubData : value) : string :=
  if stars_above githubData 0 then "Open-source"
  else if truthy (member packageData "license")
          && includes (toLowerCase (to_string (member packageData "license")))
                      "proprietary"
       then "Proprietary"
  else "Open-source".

Definition determineSupplier (packageData githubData : value) : string :=
  if stars_above githubData 0 then "Open-source"
  else if truthy (member packageData "author") then "Vendor"
  else "Third-party".

Definition generateUniqueIdentifier (component pkgInfo : value)
  (supplier : string) : result value :=
  purl <- JS.get component "purl" ;;
  fromPurl <-
    (if truthy purl then
       s <- as_string purl ;;
       let purlParts := split s "/" in
       if (2 <=? List.length purlParts)%nat then
         let type := of_chars (remove_first (chars "pkg:")
                                 (chars (nth 0 purlParts ""))) in
         let name := nth (List.length purlParts - 1) purlParts "" in
         Ok (Some ("pkg:supplier/" ++ supplier ++ "/" ++ type ++ "/" ++ name))
       else Ok None
     else Ok None) ;;
  match fromPurl with
  | Some id => Ok (VStr id)
  | None =>
      if truthy (member pkgInfo "ecosystem") && truthy (member pkgInfo "name")
      then
        e <- as_string (member pkgInfo "ecosystem") ;;
        let ecosystem := toLowerCase e in
        let name := to_string (member pkgInfo "name") in
        let version :=
          if truthy (member component "version")
          then "@" ++ to_string (member component "version") else "" in
        if String.eqb ecosystem "maven" && truthy (member pkgInfo "group")
        then Ok (VStr ("pkg:supplier/" ++ supplier ++ "/" ++ ecosystem ++ "/"
                       ++ to_string (member pkgInfo "group") ++ "/"
                       ++ name ++ version))
        else Ok (VStr ("pkg:supplier/" ++ supplier ++ "/" ++ ecosystem ++ "/"
                       ++ name ++ version))
      else Ok (js_or (member component "name") (VStr "NA"))
  end.

Definition buildComments (packageData vulnData githubData : value) : string :=
  let description :=
    if truthy (member packageData "description")
    then ["Description: " ++ to_string (member packageData "description")]
    else [] in
  let vulns :=
    if num_gt (to_number (member vulnData "totalVulns")) (Int 0)
    then [to_string (member vulnData "totalVulns") ++ " known vulnerabilities"]
    else [] in
  let popular :=
    if stars_above githubData 100
    then ["Popular project (" ++ to_string (member githubData "stars")
          ++ " stars)"]
    else [] in
  let notes := List.app description (List.app vulns popular) in
  match notes with
  | [] => "NA"
  | _ => join "; " notes
  end.

Definition order : list string := ["CRITICAL"; "HIGH"; "MEDIUM"; "LOW"].

(** [order.indexOf(s)] *)
Fixpoint indexOf (s : string) (l : list string) : Z :=
  match l with
  | [] => -1
  | x :: r => if String.eqb x s then 0
              else let i := indexOf s r in if i <? 0 then -1 else i + 1
  end.

(** [s.charAt(0) + s.slice(1).toLowerCase()] *)
Definition title_case (s : string) : string :=
  match s with
  | EmptyString => ""
  | String c r => String c (toLowerCase r)
  end.

(** One turn of the loop over [sbomVulns]; the result is the new [max]. *)
Definition criticality_step (ref : value) (max : option string) (v : value)
  : result (option string) :=
  affects <- JS.get v "affects" ;;
  if negb (isArray affects) then Ok max
  else
    let ratings := member v "ratings" in
    if negb (truthy ratings) || negb (isArray ratings)
       || strict_eq (member ratings "length") (VNum 0)
    then Ok max
    else
      al <- as_array affects ;;
      affectsThis <-
        array_some
          (fun a =>
             Ok (js_and (member a "ref")
                   (js_and ref (VBool (strict_eq (member a "ref") ref)))))
          al ;;
      if negb affectsThis then Ok max
      else
        rl <- as_array ratings ;;
        sev <- array_map
                 (fun r =>
                    severity <- JS.get r "severity" ;;
                    s <- as_string (js_or severity (VStr "")) ;;
                    Ok (VStr (toUpperCase s)))
                 rl ;;
        let sorted :=
          stable_sort (fun a b => indexOf (to_string a) order
                                  <=? indexOf (to_string b) order) sev in
        let highest := js_or (nth 0 sorted VUndef) VNull in
        if negb (truthy highest) then Ok max
        else
          let highest := to_string highest in
          match max with
          | None => Ok (Some highest)
          | Some m => if indexOf highest order <? indexOf m order
                      then Ok (Some highest) else Ok max
          end.

Fixpoint criticality_loop (ref : value) (max : option string)
  (vs : list value) : result (option string) :=
  match vs with
  | [] => Ok max
  | v :: r => max' <- criticality_step ref max v ;; criticality_loop ref max' r
  end.

Definition determineCriticalityFromSbom (sbomVulns component : value)
  : result value :=
  match sbomVulns with
  | VArr [] => Ok VNull
  | VArr vs =>
      bomRef <- JS.get component "bom-ref" ;;
      let ref := js_or (js_or bomRef (member component "bomRef")) VNull in
      max <- criticality_loop ref None vs ;;
      match max with
      | None => Ok VNull
      | Some m => if String.eqb m "" then Ok VNull
                  else Ok (VStr (title_case m))
      end
  | _ => Ok VNull
  end.

Definition hasFixedVersions (vulnData : value) : bool :=
  isArray (member vulnData "fixedVersions")
  && num_gt (to_number (member (member vulnData "fixedVersions") "length"))
            (Int 0).

Definition computePatchStatus (vulnData pkgInfo pkgData : value) : string :=
  if truthy (member vulnData "hasVulnerabilities") then
    if hasFixedVersions vulnData then
      "Update available (>= "
      ++ to_string (member (member vulnData "fixedVersions") "0") ++ ")"
    else "Update available (>= NA)"
  else if truthy (member pkgData "latestVersion")
          && truthy (member pkgInfo "version")
          && negb (strict_eq (member pkgData "latestVersion")
                             (member pkgInfo "version"))
  then "Update available (latest "
       ++ to_string (member pkgData "latestVersion") ++ ")"
  else "Up to date".

Definition determineCriticalityFromOsv (vulnData : value) : value :=
  let score := to_number (js_or (member vulnData "maxCvssScore") (VNum 0)) in
  if num_ge score (Int 9) then VStr "Critical"
  else if num_ge score (Int 7) then VStr "High"
  else if num_ge score (Int 4) then VStr "Medium"
  else if num_gt score (Int 0) then VStr "Low"
  else VNull.

Definition key (type : string) (params : list value) : value :=
  VStr (CacheService.generateKey (VStr type) params).

(** [repoUrl.split('/').slice(-2).join('/')] *)
Definition repo_slug (repoUrl : value) : result value :=
  s <- as_string repoUrl ;;
  Ok (VStr (join "/" (slice_last 2 (split s "/")))).

(** [!k || cacheService.has(k)] *)
Definition absent_or_cached (k : value) (st : CacheService.state) : bool :=
  negb (truthy k) || CacheService.has k st.

Definition isAllDataCached (component pkgInfo repoUrl : value)
  (st : CacheService.state) : result bool :=
  if negb (truthy pkgInfo) || str_eq (member pkgInfo "ecosystem") "unknown"
  then Ok true
  else
    let pkgKey :=
      if str_eq (member pkgInfo "ecosystem") "npm"
      then key "npm" [member pkgInfo "name"]
      else if str_eq (member pkgInfo "ecosystem") "pypi"
      then key "pypi" [member pkgInfo "name"]
      else if str_eq (member pkgInfo "ecosystem") "maven"
      then key "maven" [member pkgInfo "group"; member pkgInfo "name"]
      else VNull in
    let vulnKey :=
      key "vuln" [member pkgInfo "ecosystem"; member pkgInfo "name"] in
    ghKey <- (if truthy repoUrl
              then slug <- repo_slug repoUrl ;; Ok (key "github" [slug])
              else Ok VNull) ;;
    Ok (absent_or_cached pkgKey st && absent_or_cached vulnKey st
        && absent_or_cached ghKey st).

(** The error value handed to the [catch] clause. *)
Definition caught (e : exn) : value :=
  match e with
  | TypeError => VObj [("name", VStr "TypeError")]
  | SyntaxError => VObj [("name", VStr "SyntaxError")]
  | Rejection reason => reason
  end.

(** [errorService.logError(error, 'fetchComponentData', { componentName:
    component.name, componentVersion: component.version })]: it only
    writes to the console, after reading the component and the error. *)
Definition logError (error component : value) : result unit :=
  _ <- JS.get component "name" ;;
  _ <- JS.get error "name" ;;
  Ok tt.

Section Mapper.
Variable C : collaborators.

Definition buildPropertiesFromCachedData
  (component pkgInfo repoUrl sbomVulnerabilities : value)
  (st : CacheService.state) : result value :=
  let pkgData :=
    if str_eq (member pkgInfo "ecosystem") "npm"
    then CacheService.get (key "npm" [member pkgInfo "name"]) st
    else if str_eq (member pkgInfo "ecosystem") "pypi"
    then CacheService.get (key "pypi" [member pkgInfo "name"]) st
    else if str_eq (member pkgInfo "ecosystem") "maven"
    then CacheService.get
           (key "maven" [member pkgInfo "group"; member pkgInfo "name"]) st
    else VNull in
  ecosystem <- JS.get pkgInfo "ecosystem" ;;
  let vulnData :=
    CacheService.get (key "vuln" [ecosystem; member pkgInfo "name"]) st in
  ghData <- (if truthy repoUrl
             then slug <- repo_slug repoUrl ;;
                  Ok (CacheService.get (key "github" [slug]) st)
             else Ok VNull) ;;
  eolDate <- fetchEol C component pkgInfo ;;
  let props := [] in
  let props := set_prop "Patch Status"
    (VStr (computePatchStatus vulnData pkgInfo pkgData)) props in
  let props := set_prop "Release Date"
    (js_or (js_or (member pkgData "releaseDate")
                  (member ghData "releaseDate")) (VStr "NA")) props in
  let props := set_prop "End-of-Life Date"
    (js_or eolDate (VStr "NA")) props in
  criticalityFromSbom <-
    determineCriticalityFromSbom sbomVulnerabilities component ;;
  resolvedCriticality <-
    (if truthy criticalityFromSbom then Ok criticalityFromSbom
     else if truthy (determineCriticalityFromOsv vulnData)
     then Ok (determineCriticalityFromOsv vulnData)
     else determineCriticality C vulnData) ;;
  let props := set_prop "Criticality" resolvedCriticality props in
  let license :=
    js_or (js_or (member pkgData "license") (member ghData "license"))
          VNull in
  let props := set_prop "Usage Restrictions"
    (VStr (determineUsageRestrictions license)) props in
  let props := set_prop "Comments or Notes"
    (VStr (buildComments pkgData vulnData ghData)) props in
  let props := set_prop "Executable Property"
    (VStr (if str_eq (member pkgInfo "ecosystem") "npm"
           then "Yes" else "No")) props in
  let props := set_prop "Archive Property" (VStr "No") props in
  let props := set_prop "Structured Property" (VStr "Yes") props in
  let props := set_prop "Component Supplier"
    (VStr (determineSupplier pkgData ghData)) props in
  let props := set_prop "Component Origin"
    (VStr (determineOrigin pkgData ghData)) props in
  uid <- generateUniqueIdentifier component pkgInfo
           (to_string (member (VObj props) "Component Supplier")) ;;
  let props := set_prop "Unique Identifier" uid props in
  let hasFixed := hasFixedVersions vulnData in
  let recommendationText :=
    if hasFixed
    then VStr ("Recommended version: "
               ++ to_string (member (member vulnData "fixedVersions") "0"))
    else if str_eq (member (VObj props) "Patch Status") "Update available"
    then VStr "Recommended version: NA"
    else VNull in
  let props :=
    if truthy recommendationText then
      set_prop "Comments or Notes"
        (if str_eq (member (VObj props) "Comments or Notes") "NA"
         then recommendationText
         else VStr (to_string (member (VObj props) "Comments or Notes")
                    ++ "; " ++ to_string recommendationText))
        props
    else props in
  Ok (VObj props).

(** The four calls handed to [Promise.all]. *)
Definition fetch_group (component pkgInfo repoUrl : value)
  : list (result value) :=
  [ (if str_eq (member pkgInfo "ecosystem") "npm"
     then fetchNpmData C (member pkgInfo "name")
     else if str_eq (member pkgInfo "ecosystem") "pypi"
     then fetchPyPiData C (member pkgInfo "name")
     else if str_eq (member pkgInfo "ecosystem") "maven"
     then fetchMavenData C (member pkgInfo "group") (member pkgInfo "name")
     else Ok VNull);
    fetchVulnerabilityData C pkgInfo;
    fetchGitHubData C repoUrl;
    fetchEol C component pkgInfo ].

(** The full fetch of [fetchComponentData]: from [Promise.all] to the
    finished [props]. *)
Definition fullFetch (component pkgInfo repoUrl sbomVulnerabilities : value)
  : result value :=
  results <- Promise_all (settles C component)
               (fetch_group component pkgInfo repoUrl) ;;
  let pkgData := nth 0 results VUndef in
  let vulnData := nth 1 results VUndef in
  let ghData := nth 2 results VUndef in
  let eolDate := nth 3 results VUndef in
  let props := [] in
  let props := set_prop "Patch Status"
    (VStr (computePatchStatus vulnData pkgInfo pkgData)) props in
  let props := set_prop "Release Date"
    (js_or (js_or (member pkgData "releaseDate")
                  (member ghData "releaseDate")) (VStr "NA")) props in
  let props := set_prop "End-of-Life Date"
    (js_or eolDate (VStr "NA")) props in
  criticalityFromSbom <-
    determineCriticalityFromSbom sbomVulnerabilities component ;;
  resolvedCriticality <-
    (if truthy criticalityFromSbom then Ok criticalityFromSbom
     else if truthy (determineCriticalityFromOsv vulnData)
     then Ok (determineCriticalityFromOsv vulnData)
     else determineCriticality C vulnData) ;;
  let props := set_prop "Criticality" resolvedCriticality props in
  let license :=
    js_or (js_or (member pkgData "license") (member ghData "license"))
          VNull in
  let props := set_prop "Usage Restrictions"
    (VStr (determineUsageRestrictions license)) props in
  let props := set_prop "Comments or Notes"
    (VStr (buildComments pkgData vulnData ghData)) props in
  let props := set_prop "Executable Property"
    (VStr (if str_eq (member pkgInfo "ecosystem") "npm"
           then "Yes" else "No")) props in
  let props := set_prop "Archive Property" (VStr "No") props in
  let props := set_prop "Structured Property" (VStr "Yes") props in
  let props := set_prop "Component Supplier"
    (VStr (determineSupplier pkgData ghData)) props in
  let props := set_prop "Component Origin"
    (VStr (determineOrigin pkgData ghData)) props in
  uid <- generateUniqueIdentifier component pkgInfo
           (to_string (member (VObj props) "Component Supplier")) ;;
  let props := set_prop "Unique Identifier" uid props in
  let hasFixed := hasFixedVersions vulnData in
  let recommendationText :=
    if hasFixed
    then VStr ("Recommended version: "
               ++ to_string (member (member vulnData "fixedVersions") "0"))
    else if str_eq (member (VObj props) "Patch Status") "Update available"
    then VStr "Recommended version: NA"
    else VNull in
  let props :=
    if truthy recommendationText then
      set_prop "Comments or Notes"
        (if str_eq (member (VObj props) "Comments or Notes") "NA"
         then recommendationText
         else VStr (to_string (member (VObj props) "Comments or Notes")
                    ++ "; " ++ to_string recommendationText))
        props
    else props in
  Ok (VObj props).

(** The [props] of the [catch] clause. *)
Definition errorProps (component : value) : value :=
  VObj [("Patch Status", VStr "Error fetching data");
        ("Release Date", VStr "NA");
        ("End-of-Life Date", VStr "NA");
        ("Criticality", VStr "Unknown");
        ("Usage Restrictions", VStr "NA");
        ("Comments or Notes",
          VStr "Error occurred while fetching component data");
        ("Executable Property", VStr "Unknown");
        ("Archive Property", VStr "No");
        ("Structured Property", VStr "Yes");
        ("Unique Identifier",
          js_or (js_or (member component "purl") (member component "name"))
                (VStr "NA"));
        ("Component Supplier", VStr "Unknown");
        ("Component Origin", VStr "Unknown")].

(** [(component.externalReferences || []).find(...)?.url || null] *)
Definition repoUrlOf (component : value) : result value :=
  refs <- JS.get component "externalReferences" ;;
  l <- as_array (js_or refs (VArr [])) ;;
  found <- array_find
             (fun r =>
                type <- JS.get r "type" ;;
                Ok (VBool (str_eq type "vcs" || str_eq type "repository")))
             l ;;
  Ok (js_or (member found "url") VNull).

Definition fetchComponentData (now : Z)
  (component sbomVulnerabilities : value) (st : CacheService.state)
  : result (value * CacheService.state) :=
  let sbomVulnerabilities :=
    CacheService.default_param sbomVulnerabilities (VArr []) in
  try_catch
    (hit <- CacheService.hasComponentResult component sbomVulnerabilities
              st ;;
     if (hit : bool) then
       r <- CacheService.getComponentResult component sbomVulnerabilities
              st ;;
       Ok (r, st)
     else
       pkgInfo <- extractPackageInfo C component ;;
       repoUrl <- repoUrlOf component ;;
       allCached <- isAllDataCached component pkgInfo repoUrl st ;;
       if (allCached : bool) then
         r <- buildPropertiesFromCachedData component pkgInfo repoUrl
                sbomVulnerabilities st ;;
         w <- CacheService.setComponentResult now component
                sbomVulnerabilities r st ;;
         Ok (r, snd w)
       else
         props <- fullFetch component pkgInfo repoUrl sbomVulnerabilities ;;
         w <- CacheService.setComponentResult now component
                sbomVulnerabilities props st ;;
         Ok (props, snd w))
    (fun error =>
       _ <- logError (caught error) component ;;
       let errorProps := errorProps component in
       w <- CacheService.setComponentResult now component
              sbomVulnerabilities errorProps st ;;
       Ok (errorProps, snd w)).
End Mapper.

End PropertyMapperService.

(** ** services/errorService.js *)

Module ErrorService.
Import JS.

(** [v.includes(s)] for a string [s]: strings and arrays have the method,
    a call on anything else is a [TypeError]. *)
Definition includes_method (v : value) (s : string) : result bool :=
  match v with
  | VStr m => Ok (includes m s)
  | VArr l => Ok (existsb (fun x => strict_eq x (VStr s)) l)
  | _ => Throw TypeError
  end.

(** [error.name === 'TypeError' && error.message.includes('fetch')] *)
Definition failed_fetch (error : value) : result bool :=
  name <- JS.get error "name" ;;
  if strict_eq name (VStr "TypeError")
  then includes_method (member error "message") "fetch"
  else Ok false.

Definition categorizeError (error : value) : result string :=
  network <- failed_fetch error ;;
  if (network : bool) then Ok "network"
  else if strict_eq (member error "name") (VStr "SyntaxError")
  then Ok "parsing"
  else
    validation <-
      (if truthy (member error "message")
       then includes_method (member error "message") "validation"
       else Ok false) ;;
    if (validation : bool) then Ok "validation"
    else if truthy (member error "status")
            || truthy (member error "statusCode")
    then Ok "api"
    else Ok "unknown".

(** The object literal [{ title, message, action }]. *)
Definition advice (title : string) (message : value) (action : string)
  : value :=
  VObj [("title", VStr title); ("message", message);
        ("action", VStr action)].

Definition getUserFriendlyMessage (error context : value) : result value :=
  let context := CacheService.default_param context (VStr "") in
  category <- categorizeError error ;;
  if String.eqb category "network" then
    Ok (advice "Network Error"
          (VStr ("Unable to connect to the server. Please check your "
                 ++ "internet connection and try again."))
          "Retry")
  else if String.eqb category "parsing" then
    Ok (advice "Invalid File Format"
          (VStr ("The uploaded file is not a valid JSON or CycloneDX SBOM "
                 ++ "format. Please check the file and try again."))
          "Upload Different File")
  else if String.eqb category "validation" then
    Ok (advice "Validation Error"
          (js_or (member error "message")
             (VStr ("The provided data is invalid. Please check your "
                    ++ "input and try again.")))
          "Fix Input")
  else if String.eqb category "api" then
    let status := js_or (member error "status") (member error "statusCode") in
    if strict_eq status (VNum 404) then
      Ok (advice "Not Found"
            (VStr ("The requested resource was not found. This might be "
                   ++ "a temporary issue."))
            "Retry")
    else if strict_eq status (VNum 429) then
      Ok (advice "Rate Limited"
            (VStr "Too many requests. Please wait a moment and try again.")
            "Wait and Retry")
    else if num_ge (to_number status) (Int 500) then
      Ok (advice "Server Error"
            (VStr "The server encountered an error. Please try again later.")
            "Retry Later")
    else
      Ok (advice "API Error"
            (VStr ("Request failed with status " ++ to_string status
                   ++ ". Please try again."))
            "Retry")
  else
    Ok (advice "Unexpected Error"
          (js_or context
             (VStr ("An unexpected error occurred. Please try again or "
                    ++ "contact support if the problem persists.")))
          "Retry").

(** [logError(error, context)]: it reads the name, the message and the
    stack of the error, and writes to the console. *)
Definition logError (error : value) : result unit :=
  _ <- JS.get error "name" ;;
  Ok tt.

Definition quoted (s : string) : string :=
  String dquote "" ++ s ++ String dquote "".

Definition handleSBOMError (error fileName : value) : result value :=
  let fileName :=
    to_string (CacheService.default_param fileName (VStr "")) in
  message <- JS.get error "message" ;;
  components <- includes_method message "components" ;;
  if (components : bool) then
    Ok (advice "Invalid SBOM Structure"
          (VStr ("The file " ++ quoted fileName
                 ++ " is not a valid CycloneDX SBOM. It must contain a "
                 ++ "'components' array."))
          "Check File Format")
  else
    json <- includes_method message "JSON" ;;
    if (json : bool) then
      Ok (advice "Invalid JSON"
            (VStr ("The file " ++ quoted fileName
                   ++ " is not valid JSON. Please ensure it's a properly "
                   ++ "formatted JSON file."))
            "Validate JSON")
    else
      getUserFriendlyMessage error
        (VStr ("Error processing SBOM file: " ++ fileName)).

Definition handleAPIError (error endpoint : value) : result value :=
  let endpoint :=
    to_string (CacheService.default_param endpoint (VStr "")) in
  _ <- logError error ;;
  failed <- failed_fetch error ;;
  if (failed : bool) then
    Ok (advice "Connection Failed"
          (VStr ("Unable to connect to " ++ endpoint
                 ++ ". Please check your internet connection."))
          "Retry")
  else getUserFriendlyMessage error (VStr ("API error for " ++ endpoint)).

(** *** [withRetry]

    The operation is a procedure of the caller: [operation n] is the
    outcome of its call number [n] (from 0).  The log counts the calls
    made and lists the delays waited for, in milliseconds. *)

Record retry_log : Type := {
  calls : nat;
  sleeps : list Z
}.

Definition called (log : retry_log) : retry_log :=
  {| calls := S (calls log); sleeps := sleeps log |}.

Definition slept (ms : Z) (log : retry_log) : retry_log :=
  {| calls := calls log; sleeps := List.app (sleeps log) [ms] |}.

(** [throw lastError], where no error has been caught yet or [error]
    was. *)
Definition thrown (lastError : option exn) : exn :=
  match lastError with
  | Some error => error
  | None => Rejection VUndef
  end.

Section Retry.
Variable operation : nat -> result value.
Variables maxRetries delay : Z.

(** The turns of [for (let attempt = 1; attempt <= maxRetries; attempt++)]
    from [attempt] on, [turns] of them. *)
Fixpoint retry_from (turns : nat) (attempt : Z) (lastError : option exn)
  (log : retry_log) : result value * retry_log :=
  match turns with
  | O => (Throw (thrown lastError), log)
  | S turns' =>
      match operation (calls log) with
      | Ok v => (Ok v, called log)
      | Throw error =>
          match logError (PropertyMapperService.caught error) with
          | Throw e => (Throw e, called log)
          | Ok _ =>
              let log' :=
                if attempt <? maxRetries
                then slept (delay * attempt) (called log)
                else called log in
              retry_from turns' (attempt + 1) (Some error) log'
          end
      end
  end.
End Retry.

(** [withRetry(operation, maxRetries = 3, delay = 1000)] *)
Definition withRetry (operation : nat -> result value)
  (maxRetries delay : option Z) : result value * retry_log :=
  let maxRetries := match maxRetries with Some n => n | None => 3 end in
  let delay := match delay with Some d => d | None => 1000 end in
  retry_from operation maxRetries delay (Z.to_nat maxRetries) 1 None
    {| calls := O; sleeps := [] |}.

End ErrorService.

(** ** components/App.js *)

Module App.
Import JS.

Definition CERT_IN_PROPERTIES : list string :=
  ["Patch Status"; "Release Date"; "End-of-Life Date"; "Criticality";
   "Usage Restrictions"; "Comments or Notes"; "Executable Property";
   "Archive Property"; "Structured Property"; "Unique Identifier";
   "Component Supplier"; "Component Origin"].

(** [p => p.name === key] *)
Definition named (key : string) (p : value) : result value :=
  name <- JS.get p "name" ;; Ok (VBool (strict_eq name (VStr key))).

Fixpoint replace_at (i : nat) (x : value) (l : list value) : list value :=
  match l, i with
  | [], _ => []
  | _ :: r, O => x :: r
  | y :: r, S i' => y :: replace_at i' x r
  end.

(** One turn of [CERT_IN_PROPERTIES.forEach] on [newProps]. *)
Definition merge_key (fetched : value) (newProps : list value) (key : string)
  : result (list value) :=
  let val := member fetched key in
  if truthy val && negb (strict_eq val (VStr "NA")) then
    existingIdx <- array_findIndex (named key) newProps ;;
    let entry := VObj [("name", VStr key); ("value", VStr (to_string val))] in
    match existingIdx with
    | Some i => Ok (replace_at i entry newProps)
    | None => Ok (List.app newProps [entry])
    end
  else Ok newProps.

Fixpoint forEach_key (fetched : value) (newProps : list value)
  (keys : list string) : result (list value) :=
  match keys with
  | [] => Ok newProps
  | key :: r =>
      newProps' <- merge_key fetched newProps key ;;
      forEach_key fetched newProps' r
  end.

(** The own enumerable properties that [{...c}] copies. *)
Definition own_props (c : value) : list (string * value) :=
  match c with
  | VObj o => o
  | VArr l =>
      map (fun iv => (number_to_string (Z.of_nat (fst iv)), snd iv))
          (combine (seq 0 (List.length l)) l)
  | VStr s =>
      map (fun ic => (number_to_string (Z.of_nat (fst ic)),
                      VStr (String (snd ic) "")))
          (combine (seq 0 (String.length s)) (chars s))
  | _ => []
  end.

(** The body of [updatedComponents.map((c, idx) => ...)], with
    [result = results[idx]]. *)
Definition merge_component (c result : value) : JS.result value :=
  let fetched := js_or result (VObj []) in
  properties <- JS.get c "properties" ;;
  let existingProps :=
    match properties with
    | VArr l => l
    | _ => []
    end in
  newProps <- forEach_key fetched existingProps CERT_IN_PROPERTIES ;;
  Ok (VObj (set_prop "properties" (VArr newProps) (own_props c))).

Fixpoint merge_all (components results : list value)
  : JS.result (list value) :=
  match components with
  | [] => Ok []
  | c :: r =>
      m <- merge_component c (nth 0 results VUndef) ;;
      ms <- merge_all r (tl results) ;;
      Ok (m :: ms)
  end.

(** [[...v]]: arrays and strings are iterable. *)
Definition spread (v : value) : result (list value) :=
  match v with
  | VArr l => Ok l
  | VStr s => Ok (map (fun c => VStr (String c "")) (chars s))
  | _ => Throw TypeError
  end.

(** [properties ? [...properties] : []] *)
Definition copy_properties (properties : value) : result (list value) :=
  if truthy properties then spread properties else Ok [].

(** [p => p.name === name] *)
Definition has_name (name : value) (p : value) : result value :=
  n <- JS.get p "name" ;; Ok (VBool (strict_eq n name)).

(** [val.trim()] *)
Definition trim (val : value) : result string :=
  s <- as_string val ;; Ok (of_chars (trim_chars (chars s))).

(** [props.splice(i, 1)] *)
Fixpoint remove_at (i : nat) (l : list value) : list value :=
  match l, i with
  | [], _ => []
  | _ :: r, O => r
  | y :: r, S i' => y :: remove_at i' r
  end.

Definition updateProperty (properties name val : value)
  : result (list value) :=
  props <- copy_properties properties ;;
  idx <- array_findIndex (has_name name) props ;;
  let entry := VObj [("name", name); ("value", val)] in
  match idx with
  | Some i =>
      t <- trim val ;;
      if String.eqb t "" then Ok (remove_at i props)
      else Ok (replace_at i entry props)
  | None =>
      t <- trim val ;;
      if negb (String.eqb t "") then Ok (List.app props [entry])
      else Ok props
  end.

(** The upload handler: one turn of [CERT_IN_PROPERTIES.forEach] on
    [props]. *)
Definition fill_key (props : list value) (key : string)
  : result (list value) :=
  found <- array_find (named key) props ;;
  if negb (truthy found)
  then Ok (List.app props [VObj [("name", VStr key); ("value", VStr "NA")]])
  else Ok props.

Fixpoint fill_keys (props : list value) (keys : list string)
  : result (list value) :=
  match keys with
  | [] => Ok props
  | key :: r => props' <- fill_key props key ;; fill_keys props' r
  end.

(** The body of [json.components.map((component) => ...)] of the upload
    handler. *)
Definition fill_component (component : value) : result value :=
  properties <- JS.get component "properties" ;;
  props <- copy_properties properties ;;
  props <- fill_keys props CERT_IN_PROPERTIES ;;
  Ok (VObj (set_prop "properties" (VArr props) (own_props component))).

(** [updatedComponents] of the upload handler, for a document with
    components. *)
Definition updatedComponents (json : value) : result (list value) :=
  components <- JS.get json "components" ;;
  l <- as_array components ;;
  array_map fill_component l.

(** *** The CSV export *)

Definition newline : ascii := ascii_of_N 10.
Definition comma : ascii := ascii_of_N 44.

(** The test of [val.search]: a double quote, a comma or a line feed
    occurs. *)
Definition special (s : string) : bool :=
  existsb (fun c => Ascii.eqb c dquote || Ascii.eqb c comma
                    || Ascii.eqb c newline) (chars s).

(** The [val.replace] of [escapeCsv]: every double quote is doubled. *)
Definition double_quotes (l : list ascii) : list ascii :=
  flat_map (fun c => if Ascii.eqb c dquote then [dquote; dquote] else [c]) l.

Definition escapeCsv (val : value) : string :=
  if nullish val then ""
  else
    let val := to_string val in
    if special val
    then of_chars (dquote :: List.app (double_quotes (chars val)) [dquote])
    else val.

(** [fields.map(escapeCsv).join] with a comma *)
Definition csv_row (fields : list value) : string :=
  join "," (map escapeCsv fields).

(** The header line and the rows, joined by line feeds. *)
Definition csvContent (headers : list string) (rows : list string)
  : string :=
  join (String newline "") (join "," headers :: rows).

(** *** [mapVulnerabilities]

    The map from a reference to the array of the identifiers pushed for
    it. *)

(** [if (!map.has(ref)) map.set(ref, []); map.get(ref).push(vulnId)] *)
Definition push_id (ref vulnId : value) (m : CacheService.Map)
  : CacheService.Map :=
  let ids :=
    if CacheService.map_has ref m
    then match CacheService.map_get ref m with
         | VArr l => l
         | _ => []
         end
    else [] in
  CacheService.map_set ref (VArr (List.app ids [vulnId])) m.

Fixpoint forEach_affect (vulnId : value) (affects : list value)
  (m : CacheService.Map) : result CacheService.Map :=
  match affects with
  | [] => Ok m
  | affect :: r =>
      ref <- JS.get affect "ref" ;;
      forEach_affect vulnId r
        (if negb (truthy ref) then m else push_id ref vulnId m)
  end.

Fixpoint forEach_vuln (vulnerabilities : list value) (m : CacheService.Map)
  : result CacheService.Map :=
  match vulnerabilities with
  | [] => Ok m
  | vuln :: r =>
      id <- JS.get vuln "id" ;;
      let vulnId := js_or id (VStr "") in
      let affects := member vuln "affects" in
      m' <- (if negb (truthy affects) then Ok m
             else l <- as_array affects ;; forEach_affect vulnId l m) ;;
      forEach_vuln r m'
  end.

Definition mapVulnerabilities (vulnerabilities : list value)
  : result CacheService.Map :=
  forEach_vuln vulnerabilities [].

(** The last column of a row of the exports:
    [vulnIds = compVulnMap.get(comp["bom-ref"]) || []], joined or
    [None]. *)
Definition vulnerabilitiesStr (compVulnMap : CacheService.Map)
  (comp : value) : result string :=
  ref <- JS.get comp "bom-ref" ;;
  let vulnIds := js_or (CacheService.map_get ref compVulnMap) (VArr []) in
  if num_gt (to_number (member vulnIds "length")) (Int 0)
  then l <- as_array vulnIds ;; Ok (array_join ", " l)
  else Ok "None".

End App.

(** ** A reader for JSON texts

    [CacheService.loadFromStorage] is parametric in the host's
    [JSON.parse].  This reader is [JSON.parse] on the texts of the
    fragment (integer numbers, code units below 256); it serves to run the
    service on concrete snapshots. *)

Module Json.
Import JS.

Definition is_ws (c : ascii) : bool :=
  let n := N_of_ascii c in ((n =? 32) || (n =? 9) || (n =? 10) || (n =? 13))%N.

Fixpoint skip_ws (l : list ascii) : list ascii :=
  match l with
  | c :: r => if is_ws c then skip_ws r else l
  | [] => []
  end.

Definition hex_val (c : ascii) : option N :=
  let n := N_of_ascii c in
  if ((48 <=? n) && (n <=? 57))%N then Some (n - 48)%N
  else if ((97 <=? n) && (n <=? 102))%N then Some (n - 87)%N
  else if ((65 <=? n) && (n <=? 70))%N then Some (n - 55)%N
  else None.

Definition escape (c : ascii) : option ascii :=
  let n := N_of_ascii c in
  if (n =? 34)%N then Some c
  else if (n =? 92)%N then Some c
  else if (n =? 47)%N then Some c
  else if Ascii.eqb c "b" then Some (ascii_of_N 8)
  else if Ascii.eqb c "f" then Some (ascii_of_N 12)
  else if Ascii.eqb c "n" then Some (ascii_of_N 10)
  else if Ascii.eqb c "r" then Some (ascii_of_N 13)
  else if Ascii.eqb c "t" then Some (ascii_of_N 9)
  else None.

(** The characters of a string literal after its opening quote. *)
Fixpoint read_string (l : list ascii) (acc : list ascii)
  : option (string * list ascii) :=
  match l with
  | [] => None
  | c :: r =>
      if (N_of_ascii c =? 34)%N then Some (of_chars (rev acc), r)
      else if (N_of_ascii c =? 92)%N then
        match r with
        | e :: r' =>
            match escape e with
            | Some x => read_string r' (x :: acc)
            | None =>
                if Ascii.eqb e "u" then
                  match r' with
                  | h1 :: h2 :: h3 :: h4 :: r'' =>
                      match hex_val h1, hex_val h2, hex_val h3, hex_val h4 with
                      | Some 0%N, Some 0%N, Some a, Some b =>
                          read_string r'' (ascii_of_N (16 * a + b) :: acc)
                      | _, _, _, _ => None
                      end
                  | _ => None
                  end
                else None
            end
        | [] => None
        end
      else if (N_of_ascii c <? 32)%N then None
      else read_string r (c :: acc)
  end.

Fixpoint read_digits (l : list ascii) (acc : Z) : Z * list ascii :=
  match l with
  | c :: r => if is_digit c then read_digits r (10 * acc + digit_val c)
              else (acc, l)
  | [] => (acc, [])
  end.

(** An integer literal: a zero, or digits that start with a non-zero
    digit; a fraction or an exponent is outside the fragment. *)
Definition read_int (l : list ascii) : option (Z * list ascii) :=
  match l with
  | c :: r =>
      if negb (is_digit c) then None
      else
        let '(n, rest) :=
          if Ascii.eqb c "0" then (0, r) else read_digits l 0 in
        match rest with
        | d :: _ =>
            if is_digit d || Ascii.eqb d "." || Ascii.eqb d "e"
               || Ascii.eqb d "E"
            then None else Some (n, rest)
        | [] => Some (n, rest)
        end
  | [] => None
  end.

Definition read_number (l : list ascii) : option (Z * list ascii) :=
  match l with
  | c :: r =>
      if Ascii.eqb c "-"
      then match read_int r with
           | Some (n, rest) => Some (- n, rest)
           | None => None
           end
      else read_int l
  | [] => None
  end.

Section Composite.
Variable read : list ascii -> option (value * list ascii).

Fixpoint read_elements (n : nat) (l : list ascii) (acc : list value)
  : option (list value * list ascii) :=
  match n with
  | O => None
  | S n' =>
      match read l with
      | Some (v, r) =>
          match skip_ws r with
          | c :: r' =>
              if Ascii.eqb c "," then read_elements n' r' (v :: acc)
              else if Ascii.eqb c "]" then Some (rev (v :: acc), r')
              else None
          | [] => None
          end
      | None => None
      end
  end.

Fixpoint read_members (n : nat) (l : list ascii)
  (acc : list (string * value))
  : option (list (string * value) * list ascii) :=
  match n with
  | O => None
  | S n' =>
      match skip_ws l with
      | q :: r =>
          if negb (N_of_ascii q =? 34)%N then None
          else
            match read_string r [] with
            | Some (k, r1) =>
                match skip_ws r1 with
                | colon :: r2 =>
                    if negb (Ascii.eqb colon ":") then None
                    else
                      match read r2 with
                      | Some (v, r3) =>
                          let acc' := set_prop k v acc in
                          match skip_ws r3 with
                          | c :: r4 =>
                              if Ascii.eqb c ","
                              then read_members n' r4 acc'
                              else if Ascii.eqb c "}"
                              then Some (acc', r4)
                              else None
                          | [] => None
                          end
                      | None => None
                      end
                | [] => None
                end
            | None => None
            end
      | [] => None
      end
  end.
End Composite.

Definition literal (word : string) (v : value) (l : list ascii)
  : option (value * list ascii) :=
  if is_prefix (chars word) l
  then Some (v, skipn (String.length word) l) else None.

(** Own-key order: the array indices ascending, then the other keys as
    written. *)
Definition own_key_order (o : list (string * value))
  : list (string * value) :=
  let is_index kv := match index_of_key (fst kv) with
                     | Some _ => true
                     | None => false
                     end in
  let index kv := match index_of_key (fst kv) with
                  | Some i => i
                  | None => O
                  end in
  List.app
    (stable_sort (fun a b => (index a <=? index b)%nat) (filter is_index o))
    (filter (fun kv => negb (is_index kv)) o).

Fixpoint read_value (fuel : nat) (l : list ascii)
  : option (value * list ascii) :=
  match fuel with
  | O => None
  | S fuel' =>
      match skip_ws l with
      | [] => None
      | c :: r =>
          if Ascii.eqb c "n" then literal "null" VNull (c :: r)
          else if Ascii.eqb c "t" then literal "true" (VBool true) (c :: r)
          else if Ascii.eqb c "f" then literal "false" (VBool false) (c :: r)
          else if (N_of_ascii c =? 34)%N then
            match read_string r [] with
            | Some (s, rest) => Some (VStr s, rest)
            | None => None
            end
          else if Ascii.eqb c "[" then
            match skip_ws r with
            | d :: r' =>
                if Ascii.eqb d "]" then Some (VArr [], r')
                else
                  match read_elements (read_value fuel') (List.length r) r []
                  with
                  | Some (vs, rest) => Some (VArr vs, rest)
                  | None => None
                  end
            | [] => None
            end
          else if Ascii.eqb c "{" then
            match skip_ws r with
            | d :: r' =>
                if Ascii.eqb d "}" then Some (VObj [], r')
                else
                  match read_members (read_value fuel') (List.length r) r []
                  with
                  | Some (o, rest) => Some (VObj (own_key_order o), rest)
                  | None => None
                  end
            | [] => None
            end
          else
            match read_number (c :: r) with
            | Some (n, rest) => Some (VNum n, rest)
            | None => None
            end
      end
  end.

Definition parse (s : string) : option value :=
  match read_value (S (String.length s)) (chars s) with
  | Some (v, rest) =>
      match skip_ws rest with
      | [] => Some v
      | _ :: _ => None
      end
  | None => None
  end.

End Json.

(** ** Notions used to state the properties *)

Module Notions.
Import JS.

(** Equality of values up to the order in which the properties of an
    object were inserted, and up to the properties whose name is not in
    [P]: objects are compared by reading each property of [P]. *)
#[warnings="-register-all"]
Inductive same_upto (P : string -> Prop) : value -> value -> Prop :=
| same_refl : forall v, same_upto P v v
| same_arr : forall l1 l2,
    Forall2 (same_upto P) l1 l2 -> same_upto P (VArr l1) (VArr l2)
| same_obj : forall o1 o2,
    (forall k, P k -> same_upto P (member (VObj o1) k) (member (VObj o2) k)) ->
    same_upto P (VObj o1) (VObj o2).

(** Field-equal values: equal as values, whatever the insertion order. *)
Definition field_equal : value -> value -> Prop := same_upto (fun _ => True).

(** The fields of a component that its fingerprint is meant to cover. *)
Definition relevant_fields : list string :=
  ["name"; "version"; "purl"; "group"; "externalReferences";
   "bom-ref"; "bomRef"].

(** No two entries of the [Map] have the same key. *)
Fixpoint map_wf (m : CacheService.Map) : bool :=
  match m with
  | [] => true
  | (k, _) :: r => negb (CacheService.map_has k r) && map_wf r
  end.

(** The entries of a properties list that carry the name [key]. *)
Definition entries_named (key : string) (l : list value) : list value :=
  filter (fun p => strict_eq (member p "name") (VStr key)) l.

(** The dependencies of a component are cache-resident, with the values
    that the sources deliver: the package-metadata key when the ecosystem
    has a registry, the vulnerability key, and the repository key when the
    component has a repository URL (the repository client answers [null]
    to a missing URL).  The vulnerability key is derived from the package
    info and applies when there is one. *)
Definition resident (st : CacheService.state) (k : value)
  (source : result value) : Prop :=
  CacheService.has k st = true /\ source = Ok (CacheService.get k st).

Definition dependencies_resident (C : PropertyMapperService.collaborators)
  (st : CacheService.state) (pkgInfo repoUrl : value) : Prop :=
  let ecosystem := member pkgInfo "ecosystem" in
  let name := member pkgInfo "name" in
  let eco e := PropertyMapperService.str_eq ecosystem e in
  (eco "npm" = true ->
   resident st (PropertyMapperService.key "npm" [name])
     (PropertyMapperService.fetchNpmData C name))
  /\ (eco "npm" = false -> eco "pypi" = true ->
      resident st (PropertyMapperService.key "pypi" [name])
        (PropertyMapperService.fetchPyPiData C name))
  /\ (eco "npm" = false -> eco "pypi" = false -> eco "maven" = true ->
      resident st
        (PropertyMapperService.key "maven" [member pkgInfo "group"; name])
        (PropertyMapperService.fetchMavenData C (member pkgInfo "group")
           name))
  /\ (nullish pkgInfo = false ->
      resident st (PropertyMapperService.key "vuln" [ecosystem; name])
        (PropertyMapperService.fetchVulnerabilityData C pkgInfo))
  /\ (truthy repoUrl = true ->
      exists slug,
        PropertyMapperService.repo_slug repoUrl = Ok slug
        /\ resident st (PropertyMapperService.key "github" [slug])
             (PropertyMapperService.fetchGitHubData C repoUrl))
  /\ (truthy repoUrl = false ->
      PropertyMapperService.fetchGitHubData C repoUrl = Ok VNull).

(** The derived value of a property that the merge writes: present
    (truthy) and not the sentinel [NA]. *)
Definition writes (fetched : value) (key : string) : bool :=
  truthy (member fetched key)
  && negb (strict_eq (member fetched key) (VStr "NA")).

(** The entry that the merge writes for [key]. *)
Definition written (fetched : value) (key : string) : value :=
  VObj [("name", VStr key);
        ("value", VStr (to_string (member fetched key)))].

(** The properties list of a component, as the merge reads it. *)
Definition properties_of (c : value) : list value :=
  match member c "properties" with
  | VArr l => l
  | _ => []
  end.

(** The polynomial of base 31 over the code units of a string, without
    any reduction. *)
Definition poly31 (s : string) : Z :=
  fold_left (fun acc c => 31 * acc + char_code c) (chars s) 0.

(** The object that [saveToStorage] serializes. *)
Definition snapshot_of (now : Z) (st : CacheService.state) : value :=
  VObj [("cache", VArr (CacheService.map_entries (CacheService.cache st)));
        ("timestamp", VNum now);
        ("sessionStartTime", CacheService.sessionStartTime st)].

(** An exception that [errorService.logError] can log: the value caught
    is neither [undefined] nor [null], so that reading its [name] does not
    throw. *)
Definition loggable (e : exn) : Prop :=
  nullish (PropertyMapperService.caught e) = false.

(** A computation that only throws loggable exceptions. *)
Definition throws_loggably {A} (r : result A) : Prop :=
  forall e, r = Throw e -> loggable e.

(** Clients that never throw, nor reject with, [undefined] or [null]. *)
Definition loggable_clients (C : PropertyMapperService.collaborators)
  : Prop :=
  (forall c, throws_loggably (PropertyMapperService.extractPackageInfo C c))
  /\ (forall n, throws_loggably (PropertyMapperService.fetchNpmData C n))
  /\ (forall n, throws_loggably (PropertyMapperService.fetchPyPiData C n))
  /\ (forall g n,
        throws_loggably (PropertyMapperService.fetchMavenData C g n))
  /\ (forall p,
        throws_loggably (PropertyMapperService.fetchVulnerabilityData C p))
  /\ (forall v,
        throws_loggably (PropertyMapperService.determineCriticality C v))
  /\ (forall u, throws_loggably (PropertyMapperService.fetchGitHubData C u))
  /\ (forall c p, throws_loggably (PropertyMapperService.fetchEol C c p)).

(** Two results agree: the same exception, or values related by [R]. *)
Definition agree {A} (R : A -> A -> Prop) (r1 r2 : result A) : Prop :=
  match r1, r2 with
  | Ok a, Ok b => R a b
  | Throw e1, Throw e2 => e1 = e2
  | _, _ => False
  end.

(** Two values are both truthy or both falsy. *)
Definition same_truth (a b : value) : Prop := truthy a = truthy b.

(** The entries of two object literals carry the same names, and values
    that are the same up to [P]. *)
Definition same_entries (P : string -> Prop)
  (d1 d2 : list (string * value)) : Prop :=
  Forall2 (fun kv1 kv2 => fst kv1 = fst kv2
                          /\ same_upto P (snd kv1) (snd kv2))
    d1 d2.

(** An entry of a properties list that is neither [undefined] nor
    [null]. *)
Definition present (p : value) : Prop := nullish p = false.

(** Closes a goal [same_upto P a b] on concrete values, reading the
    objects key by key. *)
Ltac same_values :=
  simpl;
  first
    [ apply same_refl
    | apply same_arr;
      repeat (apply Forall2_cons; [same_values|]); apply Forall2_nil
    | apply same_obj;
      let k := fresh "k" in intros k _; same_keys k ]
with same_keys k :=
  cbn [member lookup];
  lazymatch goal with
  | |- context [String.eqb ?s k] =>
      destruct (String.eqb_spec s k) as [<-|?];
      [same_values | same_keys k]
  | _ => apply same_refl
  end.

(** A string without the separator [sep]: a path segment when [sep] is
    the slash. *)
Definition free_of (sep : ascii) (s : string) : bool :=
  forallb (fun c => negb (Ascii.eqb c sep)) (chars s).

(** The reference under which the vulnerabilities of the document name a
    component: [component["bom-ref"] || component.bomRef || null]. *)
Definition component_ref (component : value) : value :=
  js_or (js_or (member component "bom-ref") (member component "bomRef"))
        VNull.

(** A severity that is none of [CRITICAL], [HIGH], [MEDIUM] and [LOW]. *)
Definition unlisted (severity : string) : bool :=
  PropertyMapperService.indexOf severity PropertyMapperService.order <? 0.

(** [max] is a severity that is not empty. *)
Definition proper (max : option string) : Prop :=
  match max with
  | Some m => m <> ""
  | None => True
  end.

(** [max] is a severity that is not listed. *)
Definition outranking (max : option string) : Prop :=
  exists m, max = Some m /\ m <> "" /\ unlisted m = true.

(** A vulnerability that affects the component and is rated, among
    others, with a severity that is not listed. *)
Definition rated_unlisted (ref v : value) : Prop :=
  exists al a rl rt,
    member v "affects" = VArr al
    /\ In a al /\ strict_eq (member a "ref") ref = true
    /\ member v "ratings" = VArr rl
    /\ (forall x, In x rl -> truthy (member x "severity") = true)
    /\ In rt rl
    /\ unlisted (toUpperCase (to_string (member rt "severity"))) = true.

(** The delays [delay], [2 * delay], ..., [k * delay]. *)
Definition backoff (delay : Z) (k : nat) : list Z :=
  map (fun i => delay * Z.of_nat (S i)) (seq 0 k).

(** The entry that the upload step adds for a missing property. *)
Definition placeholder (key : string) : value :=
  VObj [("name", VStr key); ("value", VStr "NA")].

(** No entry of the properties list carries the name [key]. *)
Definition missing (props : list value) (key : string) : bool :=
  match entries_named key props with
  | [] => true
  | _ :: _ => false
  end.

(** The names of the entries of a properties list, in order. *)
Definition names (props : list value) : list value :=
  map (fun p => member p "name") props.

(** A string of white space only. *)
Definition blank (s : string) : bool := forallb is_space (chars s).

(** The text of a CSV field: [val.toString()], and nothing for
    [undefined] and [null]. *)
Definition field_text (val : value) : string :=
  if nullish val then "" else to_string val.

(** A reader of comma-separated values: records end at a line feed,
    fields at a comma; a field that starts with a double quote extends to
    the closing double quote, and a doubled double quote inside it stands
    for one. *)
Inductive csv_state : Type := AtStart | InPlain | InQuoted | AfterQuote.

Fixpoint read_csv_from (st : csv_state) (field : list ascii)
  (record : list string) (l : list ascii) : list (list string) :=
  let fields := rev (of_chars (rev field) :: record) in
  match l with
  | [] => [fields]
  | c :: r =>
      match st with
      | InQuoted =>
          if Ascii.eqb c dquote then read_csv_from AfterQuote field record r
          else read_csv_from InQuoted (c :: field) record r
      | _ =>
          if Ascii.eqb c App.comma
          then read_csv_from AtStart [] (of_chars (rev field) :: record) r
          else if Ascii.eqb c App.newline
          then fields :: read_csv_from AtStart [] [] r
          else if Ascii.eqb c dquote then
            match st with
            | AtStart => read_csv_from InQuoted [] record r
            | AfterQuote => read_csv_from InQuoted (c :: field) record r
            | _ => read_csv_from InPlain (c :: field) record r
            end
          else read_csv_from InPlain (c :: field) record r
      end
  end.

Definition read_csv (s : string) : list (list string) :=
  read_csv_from AtStart [] [] (chars s).

(** What the reader does at the end of a field. *)
Definition after_field (f : string) (record : list string)
  (rest : list ascii) : list (list string) :=
  match rest with
  | [] => [rev (f :: record)]
  | c :: r =>
      if Ascii.eqb c App.comma then read_csv_from AtStart [] (f :: record) r
      else rev (f :: record) :: read_csv_from AtStart [] [] r
  end.

(** The input ends, or goes on with a comma or a line feed. *)
Definition terminated (rest : list ascii) : Prop :=
  match rest with
  | [] => True
  | c :: _ => Ascii.eqb c App.comma || Ascii.eqb c App.newline = true
  end.

(** A character that [escapeCsv] does not look for. *)
Definition plain (c : ascii) : bool :=
  negb (Ascii.eqb c dquote || Ascii.eqb c App.comma
        || Ascii.eqb c App.newline).

(** The identifiers of the vulnerabilities of the document whose
    [affects] name the reference [ref], in the order of the document,
    once for every [affects] entry that names it. *)
Definition ids_for (ref : string) (vulnerabilities : list value)
  : list value :=
  flat_map
    (fun vuln =>
       match member vuln "affects" with
       | VArr affects =>
           map (fun _ => js_or (member vuln "id") (VStr ""))
               (filter (fun affect =>
                          strict_eq (member affect "ref") (VStr ref))
                       affects)
       | _ => []
       end)
    vulnerabilities.

(** The identifiers that a map of [mapVulnerabilities] lists under a
    key. *)
Definition listed (m : CacheService.Map) (k : value) : list value :=
  match CacheService.map_get k m with
  | VArr l => l
  | _ => []
  end.

(** Every value of the map is an array. *)
Definition array_valued (m : CacheService.Map) : Prop :=
  Forall (fun kv => isArray (snd kv) = true) m.

End Notions.

(** ** Sample data *)

Module Samples.
Import JS.
Definition lodash : value :=
  VObj [("bom-ref", VStr "pkg:npm/lodash@4.17.20");
        ("type", VStr "library");
        ("name", VStr "lodash");
        ("version", VStr "4.17.20");
        ("purl", VStr "pkg:npm/lodash@4.17.20");
        ("externalReferences",
          VArr [VObj [("type", VStr "vcs");
                      ("url", VStr "https://github.com/lodash/lodash")]])].

(** [lodash] with the keys of the component, and of its external
    reference, written in another order, and another [type]. *)
Definition lodash_reordered : value :=
  VObj [("externalReferences",
          VArr [VObj [("url", VStr "https://github.com/lodash/lodash");
                      ("type", VStr "vcs")]]);
        ("purl", VStr "pkg:npm/lodash@4.17.20");
        ("version", VStr "4.17.20");
        ("name", VStr "lodash");
        ("type", VStr "framework");
        ("bom-ref", VStr "pkg:npm/lodash@4.17.20")].

(** [lodash] with another repository reference. *)
Definition lodash_moved : value :=
  VObj [("bom-ref", VStr "pkg:npm/lodash@4.17.20");
        ("type", VStr "library");
        ("name", VStr "lodash");
        ("version", VStr "4.17.20");
        ("purl", VStr "pkg:npm/lodash@4.17.20");
        ("externalReferences",
          VArr [VObj [("type", VStr "website");
                      ("url", VStr "https://lodash.com")]])].

Definition express : value :=
  VObj [("bom-ref", VStr "pkg:npm/express@4.18.2");
        ("type", VStr "library");
        ("name", VStr "express");
        ("version", VStr "4.18.2");
        ("purl", VStr "pkg:npm/express@4.18.2")].

(** A document vulnerability that affects [lodash], with the given
    severity rating. *)
Definition lodash_vulnerability (severity : string) : value :=
  VObj [("id", VStr "CVE-2021-23337");
        ("ratings", VArr [VObj [("severity", VStr severity)]]);
        ("affects", VArr [VObj [("ref", VStr "pkg:npm/lodash@4.17.20")]])].

Definition lodash_vulnerability_reordered (severity : string) : value :=
  VObj [("affects", VArr [VObj [("ref", VStr "pkg:npm/lodash@4.17.20")]]);
        ("ratings", VArr [VObj [("severity", VStr severity)]]);
        ("id", VStr "CVE-2021-23337")].

(** A document of one component and one vulnerability. *)
Definition document (component : value) (severity timestamp : string)
  : value :=
  VObj [("bomFormat", VStr "CycloneDX");
        ("metadata", VObj [("timestamp", VStr timestamp)]);
        ("components", VArr [component]);
        ("vulnerabilities", VArr [lodash_vulnerability severity])].


(** An empty cache over an empty [localStorage]. *)
Definition empty_state : CacheService.state :=
  {| CacheService.cache := [];
     CacheService.sessionStartTime := VNum 1700000000000;
     CacheService.storage :=
       {| CacheService.item := None; CacheService.capacity := 4096 |} |}.

(** A snapshot written at time 1000: two entries. *)
Definition snapshot : string :=
  Eval vm_compute in
    match JSON_stringify
            (VObj [("cache",
                     VArr [VArr [VStr "npm:lodash";
                                 VObj [("license", VStr "MIT");
                                       ("latestVersion", VStr "4.17.21")]];
                           VArr [VStr "vuln:npm:lodash"; VNull]]);
                   ("timestamp", VNum 1000);
                   ("sessionStartTime", VNum 900)])
    with
    | Some s => s
    | None => ""
    end.

Definition storage_with (s : string) : CacheService.localStorage :=
  {| CacheService.item := Some s; CacheService.capacity := 4096 |}.


(** Package info as a registry client extracts it from an npm component. *)
Definition packageInfo (component : value) : value :=
  VObj [("ecosystem", VStr "npm");
        ("name", member component "name");
        ("version", member component "version")].

Definition npm_metadata : value :=
  VObj [("latestVersion", VStr "4.17.21");
        ("license", VStr "MIT");
        ("description", VStr "Lodash modular utilities.")].

Definition repository_metadata : value :=
  VObj [("stars", VNum 58000); ("license", VStr "MIT")].

(** Vulnerability aggregates: with a fixed version, and without one. *)
Definition vulnerable_fixed : value :=
  VObj [("hasVulnerabilities", VBool true);
        ("totalVulns", VNum 3);
        ("fixedVersions", VArr [VStr "4.17.21"]);
        ("maxCvssScore", VNum 7)].

Definition vulnerable_unfixed : value :=
  VObj [("hasVulnerabilities", VBool true);
        ("totalVulns", VNum 3);
        ("fixedVersions", VArr []);
        ("maxCvssScore", VNum 7)].

Definition network_error : exn :=
  Rejection (VObj [("name", VStr "TypeError");
                   ("message", VStr "Failed to fetch")]).

(** Clients whose package registry and vulnerability calls end as
    given. *)
Definition clients (npm vulnerability : result value)
  : PropertyMapperService.collaborators :=
  {| PropertyMapperService.extractPackageInfo := fun c => Ok (packageInfo c);
     PropertyMapperService.fetchNpmData := fun _ => npm;
     PropertyMapperService.fetchPyPiData := fun _ => Ok VNull;
     PropertyMapperService.fetchMavenData := fun _ _ => Ok VNull;
     PropertyMapperService.fetchVulnerabilityData := fun _ => vulnerability;
     PropertyMapperService.determineCriticality := fun _ => Ok VNull;
     PropertyMapperService.fetchGitHubData :=
       fun _ => Ok repository_metadata;
     PropertyMapperService.fetchEol := fun _ _ => Ok VNull;
     PropertyMapperService.settles := fun _ => [] |}.

(** Clients for a component of unknown ecosystem, whose repository call
    ends as given. *)
Definition unknown_clients (repository : result value)
  : PropertyMapperService.collaborators :=
  {| PropertyMapperService.extractPackageInfo :=
       fun c => Ok (VObj [("ecosystem", VStr "unknown");
                          ("name", member c "name");
                          ("version", member c "version")]);
     PropertyMapperService.fetchNpmData := fun _ => Ok VNull;
     PropertyMapperService.fetchPyPiData := fun _ => Ok VNull;
     PropertyMapperService.fetchMavenData := fun _ _ => Ok VNull;
     PropertyMapperService.fetchVulnerabilityData := fun _ => Ok VNull;
     PropertyMapperService.determineCriticality := fun _ => Ok VNull;
     PropertyMapperService.fetchGitHubData := fun _ => repository;
     PropertyMapperService.fetchEol := fun _ _ => Ok VNull;
     PropertyMapperService.settles := fun _ => [] |}.

(** Clients whose package info extraction yields [null]. *)
Definition clients_without_package_info
  : PropertyMapperService.collaborators :=
  {| PropertyMapperService.extractPackageInfo := fun _ => Ok VNull;
     PropertyMapperService.fetchNpmData := fun _ => Ok npm_metadata;
     PropertyMapperService.fetchPyPiData := fun _ => Ok VNull;
     PropertyMapperService.fetchMavenData := fun _ _ => Ok VNull;
     PropertyMapperService.fetchVulnerabilityData :=
       fun _ => Ok vulnerable_fixed;
     PropertyMapperService.determineCriticality := fun _ => Ok VNull;
     PropertyMapperService.fetchGitHubData :=
       fun _ => Ok repository_metadata;
     PropertyMapperService.fetchEol := fun _ _ => Ok VNull;
     PropertyMapperService.settles := fun _ => [] |}.

(** A cache that holds the three dependencies of [lodash], with the given
    vulnerability aggregate. *)
Definition warm_state_with (vulnerability : value) : CacheService.state :=
  CacheService.set 1700000000003 (VStr "github:lodash/lodash")
    repository_metadata
    (CacheService.set 1700000000002 (VStr "vuln:npm:lodash") vulnerability
       (CacheService.set 1700000000001 (VStr "npm:lodash") npm_metadata
          empty_state)).

Definition warm_state : CacheService.state := warm_state_with vulnerable_fixed.

(** What [fetchComponentData] returned, [undefined] if it threw. *)
Definition returned (r : result (value * CacheService.state)) : value :=
  match r with
  | Ok (props, _) => props
  | Throw _ => VUndef
  end.

Definition lodash_vulnerabilities : value :=
  VArr [lodash_vulnerability "HIGH"].


(** [lodash] as the upload step leaves it: every CERT-In property is
    there, [NA] unless the document had a value. *)
Definition lodash_uploaded : value :=
  VObj [("bom-ref", VStr "pkg:npm/lodash@4.17.20");
        ("name", VStr "lodash");
        ("version", VStr "4.17.20");
        ("properties",
          VArr [VObj [("name", VStr "Release Date");
                      ("value", VStr "2020-08-13")];
                VObj [("name", VStr "Patch Status"); ("value", VStr "NA")];
                VObj [("name", VStr "Criticality"); ("value", VStr "NA")]])].

(** A derived property set without a release date and a criticality. *)
Definition derived : value :=
  VObj [("Patch Status", VStr "Update available (>= 4.17.21)");
        ("Release Date", VStr "NA");
        ("Criticality", VNull)].

(** A scoped package that the document lists without a [bom-ref]. *)
Definition angular_core : value :=
  VObj [("type", VStr "library");
        ("name", VStr "@angular/core");
        ("version", VStr "16.0.0");
        ("purl", VStr "pkg:npm/%40angular/core@16.0.0")].

(** A document vulnerability whose [affects] entry has no [ref]. *)
Definition unreferenced_vulnerability : value :=
  VObj [("id", VStr "CVE-2023-26116");
        ("ratings", VArr [VObj [("severity", VStr "CRITICAL")]]);
        ("affects", VArr [VObj []])].

(** A document vulnerability that affects [lodash] and is rated twice. *)
Definition lodash_rated_twice (first second : string) : value :=
  VObj [("id", VStr "CVE-2020-8203");
        ("ratings", VArr [VObj [("severity", VStr first)];
                          VObj [("severity", VStr second)]]);
        ("affects", VArr [VObj [("ref", VStr "pkg:npm/lodash@4.17.20")]])].

(** An operation that fails with a network error until the call number
    [k]. *)
Definition flaky (k : nat) (n : nat) : result value :=
  if (n <? k)%nat then Throw network_error else Ok (VStr "done").

(** The error of an HTTP client for a response of the given status. *)
Definition http_error (status : Z) : value :=
  VObj [("name", VStr "Error");
        ("message", VStr "Request failed");
        ("status", VNum status)].

(** The properties of a component that was edited by hand: the release
    date is listed twice. *)
Definition edited_properties : list value :=
  [VObj [("name", VStr "Release Date"); ("value", VStr "2020-08-13")];
   VObj [("name", VStr "internal:owner"); ("value", VStr "platform")];
   VObj [("name", VStr "Release Date"); ("value", VStr "2021-02-20")]].

(** A second vulnerability of [lodash], which its [affects] list names
    twice, and which also affects [express]. *)
Definition shared_vulnerability : value :=
  VObj [("id", VStr "CVE-2020-8203");
        ("affects", VArr [VObj [("ref", VStr "pkg:npm/lodash@4.17.20")];
                          VObj [("ref", VStr "pkg:npm/express@4.18.2")];
                          VObj [("ref", VStr "pkg:npm/lodash@4.17.20")]])].

(** A cache that holds the repository entry of [lodash] only. *)
Definition repository_resident : CacheService.state :=
  CacheService.set 1700000000003 (VStr "github:lodash/lodash")
    repository_metadata empty_state.

End Samples.

(** * Properties *)

(** ** Facts about values and [JSON.stringify] *)

Module ValueFacts.
Import JS Notions.

Lemma Forall2_same_refl (P : string -> Prop) (l : list value) :
  Forall2 (same_upto P) l l.
Proof. induction l; constructor; auto using same_refl. Qed.

Lemma same_upto_inv (P : string -> Prop) (v1 v2 : value) :
  same_upto P v1 v2 ->
  match v1 with
  | VArr l1 => exists l2, v2 = VArr l2 /\ Forall2 (same_upto P) l1 l2
  | VObj o1 =>
      exists o2, v2 = VObj o2 /\
        forall k, P k -> same_upto P (member v1 k) (member v2 k)
  | _ => v2 = v1
  end.
Proof.
  intros [v | l1 l2 H | o1 o2 H].
  - destruct v; auto.
    + eexists; split; [reflexivity | apply Forall2_same_refl].
    + eexists; split; [reflexivity | intros; apply same_refl].
  - eauto.
  - eauto.
Qed.

Lemma same_truthy P a b : same_upto P a b -> truthy a = truthy b.
Proof.
  intros H; apply same_upto_inv in H.
  destruct a; simpl in H; try (subst; reflexivity);
    destruct H as (x & -> & _); reflexivity.
Qed.

Lemma same_nullish P a b : same_upto P a b -> nullish a = nullish b.
Proof.
  intros H; apply same_upto_inv in H.
  destruct a; simpl in H; try (subst; reflexivity);
    destruct H as (x & -> & _); reflexivity.
Qed.

Lemma same_strict_eq P a1 a2 b1 b2 :
  same_upto P a1 a2 -> same_upto P b1 b2 -> strict_eq a1 b1 = strict_eq a2 b2.
Proof.
  intros Ha Hb; apply same_upto_inv in Ha; apply same_upto_inv in Hb.
  destruct a1; simpl in Ha; try subst a2;
    try (destruct Ha as (x & -> & _));
    destruct b1; simpl in Hb; try subst b2;
    try (destruct Hb as (y & -> & _)); reflexivity.
Qed.

Lemma Forall2_same_nth P l1 l2 i :
  Forall2 (same_upto P) l1 l2 ->
  same_upto P (nth i l1 VUndef) (nth i l2 VUndef).
Proof.
  intros H; revert i; induction H; intros [|i]; simpl;
    auto using same_refl.
Qed.

Lemma same_member P a b k :
  same_upto P a b -> P k -> same_upto P (member a k) (member b k).
Proof.
  intros H Hk; pose proof (same_upto_inv _ _ _ H) as Hi.
  destruct a; simpl in Hi; try (subst; apply same_refl).
  - destruct Hi as (l2 & -> & HF); simpl.
    rewrite (Forall2_length HF).
    destruct (String.eqb k "length"); [apply same_refl|].
    destruct (index_of_key k); [|apply same_refl].
    now apply Forall2_same_nth.
  - destruct Hi as (o2 & -> & Ho); exact (Ho k Hk).
Qed.

Lemma same_js_or P a1 a2 b1 b2 :
  same_upto P a1 a2 -> same_upto P b1 b2 ->
  same_upto P (js_or a1 b1) (js_or a2 b2).
Proof.
  intros Ha Hb; unfold js_or; rewrite (same_truthy _ _ _ Ha).
  destruct (truthy a2); assumption.
Qed.

Lemma ser_get_member K k o :
  ser_get (serialize K) k o = serialize K (member (VObj o) k).
Proof.
  simpl; induction o as [|[k' x] r IH]; simpl; [reflexivity|].
  destruct (String.eqb k' k); auto.
Qed.

Lemma lookup_In k o x : lookup k o = Some x -> In (k, x) o.
Proof.
  induction o as [|[k' y] r IH]; simpl; [discriminate|].
  destruct (String.eqb_spec k' k); intros H.
  - injection H as ->; subst; auto.
  - auto.
Qed.

Lemma flat_map_agree {A B} (f g : A -> list B) (l : list A) :
  (forall a, In a l -> f a = g a) -> flat_map f l = flat_map g l.
Proof.
  induction l as [|a r IH]; simpl; intros H; [reflexivity|].
  rewrite (H a) by (left; reflexivity); f_equal.
  apply IH; intros; apply H; right; assumption.
Qed.

(** With a replacer array, the text of a value depends neither on the
    order of the properties nor on any property outside the array. *)
Lemma serialize_same (P : string -> Prop) (keys : list string) :
  (forall k, In k keys -> P k) ->
  forall v1 v2, same_upto P v1 v2 ->
  serialize (Some keys) v1 = serialize (Some keys) v2.
Proof.
  intros HK v1; induction v1 as [ | | | | |l HA|o HA] using value_rect';
    intros v2 H12;
    pose proof (same_upto_inv _ _ _ H12) as Hi; simpl in Hi;
    try (subst; reflexivity).
  - destruct Hi as (l2 & -> & HF); simpl.
    set (f := fun e => match serialize (Some keys) e with
                       | Some str => str
                       | None => "null"
                       end).
    assert (Hm : map f l = map f l2).
    { clear H12; revert HA; induction HF as [|x y l1 l2 Hxy HF IH];
        intros HA; simpl; [reflexivity|].
      unfold f at 1 3; rewrite (Forall_inv HA _ Hxy); f_equal.
      apply IH; exact (Forall_inv_tail HA). }
    now rewrite Hm.
  - destruct Hi as (o2 & -> & Ho); simpl.
    assert (Hk : forall k, In k keys ->
              ser_member (serialize (Some keys)) o k
              = ser_member (serialize (Some keys)) o2 k).
    { intros k Hin; unfold ser_member; rewrite !ser_get_member.
      specialize (Ho k (HK k Hin)).
      simpl in Ho; simpl.
      destruct (lookup k o) as [x|] eqn:El.
      - apply lookup_In in El.
        rewrite Forall_forall in HA.
        pose proof (HA _ El _ Ho) as E; simpl in E.
        now rewrite E.
      - apply same_upto_inv in Ho; simpl in Ho.
        now rewrite Ho. }
    assert (Hm : flat_map (ser_member (serialize (Some keys)) o) keys
                 = flat_map (ser_member (serialize (Some keys)) o2) keys).
    { apply flat_map_agree; assumption. }
    now rewrite Hm.
Qed.

End ValueFacts.

(** ** The fingerprints *)

Module FingerprintFacts.
Import JS Notions ValueFacts CacheService.

Lemma agree_bind {A B} (R : A -> A -> Prop) (S : B -> B -> Prop)
  (m1 m2 : result A) (k1 k2 : A -> result B) :
  agree R m1 m2 ->
  (forall a b, R a b -> agree S (k1 a) (k2 b)) ->
  agree S (bind m1 k1) (bind m2 k2).
Proof.
  destruct m1, m2; simpl; intros H Hk; try contradiction; auto.
Qed.

Lemma agree_eq {A} (r1 r2 : result A) : agree eq r1 r2 -> r1 = r2.
Proof. destruct r1, r2; simpl; intros H; try contradiction; congruence. Qed.

Section Upto.
Variable P : string -> Prop.
Hypothesis P_affects : P "affects".
Hypothesis P_ref : P "ref".

Lemma agree_get a b k :
  same_upto P a b -> P k ->
  agree (same_upto P) (JS.get a k) (JS.get b k).
Proof.
  intros H Hk; unfold JS.get; rewrite (same_nullish _ _ _ H).
  destruct (nullish b); simpl; [reflexivity|].
  now apply same_member.
Qed.

Lemma agree_as_array a b :
  same_upto P a b ->
  agree (Forall2 (same_upto P)) (as_array a) (as_array b).
Proof.
  intros H; apply same_upto_inv in H.
  destruct a; simpl in H; try (subst; simpl; reflexivity).
  - destruct H as (l2 & -> & HF); exact HF.
  - destruct H as (o2 & -> & _); reflexivity.
Qed.

Lemma agree_array_some f1 f2 l1 l2 :
  Forall2 (same_upto P) l1 l2 ->
  (forall x y, same_upto P x y -> agree same_truth (f1 x) (f2 y)) ->
  agree eq (array_some f1 l1) (array_some f2 l2).
Proof.
  intros HF Hf; induction HF as [|x y l1 l2 Hxy HF IH]; simpl;
    [reflexivity|].
  apply agree_bind with (R := same_truth); [auto|].
  intros a b Hab; rewrite Hab; destruct (truthy b); [reflexivity|exact IH].
Qed.

Lemma agree_array_filter f1 f2 l1 l2 :
  Forall2 (same_upto P) l1 l2 ->
  (forall x y, same_upto P x y -> agree same_truth (f1 x) (f2 y)) ->
  agree (Forall2 (same_upto P)) (array_filter f1 l1)
    (array_filter f2 l2).
Proof.
  intros HF Hf; induction HF as [|x y l1 l2 Hxy HF IH]; simpl;
    [constructor|].
  apply agree_bind with (R := same_truth); [auto|].
  intros a b Hab.
  apply agree_bind with (R := Forall2 (same_upto P)); [exact IH|].
  intros r1 r2 Hr; simpl; rewrite Hab.
  destruct (truthy b); [constructor|]; assumption.
Qed.

Lemma same_entries_keys d1 d2 :
  same_entries P d1 d2 -> Object_keys d1 = Object_keys d2.
Proof.
  induction 1 as [|[k1 x1] [k2 x2] d1 d2 [Hk _] _ IH]; simpl in *;
    congruence.
Qed.

Lemma same_entries_obj d1 d2 :
  same_entries P d1 d2 -> same_upto P (VObj d1) (VObj d2).
Proof.
  intros H; apply same_obj; intros k _; simpl.
  induction H as [|[k1 x1] [k2 x2] d1 d2 [Hk Hx] _ IH]; simpl in *;
    [apply same_refl|].
  subst k2; destruct (String.eqb k1 k); assumption.
Qed.

Lemma checksum_of_same prefix d1 d2 :
  same_entries P d1 d2 ->
  (forall k, In k (Object_keys d1) -> P k) ->
  checksum_of prefix d1 = checksum_of prefix d2.
Proof.
  intros H HK; unfold checksum_of, JSON_stringify_keys.
  rewrite <- (same_entries_keys _ _ H).
  assert (HKl : forall k,
             In k (property_list [] (sort_strings (Object_keys d1))) ->
             P k).
  { intros k Hin; apply HK.
    assert (Hsub : forall seen l x, In x (property_list seen l) -> In x l).
    { intros seen l; revert seen; induction l as [|a r IH]; simpl;
        intros seen x Hx; [assumption|].
      destruct (existsb (String.eqb a) seen); [right; eauto|].
      destruct Hx as [->|Hx]; [left; reflexivity|right; eauto]. }
    apply Hsub in Hin.
    assert (Hins : forall (a : string) l x,
               In x (insert_sorted String.leb a l) -> x = a \/ In x l).
    { intros a l; induction l as [|b r IH]; simpl; intros x Hx.
      - destruct Hx as [->|[]]; auto.
      - destruct (String.leb a b); simpl in Hx.
        + destruct Hx as [->|Hx]; auto.
        + destruct Hx as [->|Hx]; auto.
          destruct (IH _ Hx); auto. }
    unfold sort_strings, stable_sort in Hin.
    clear - Hin Hins; revert Hin.
    induction (Object_keys d1) as [|a r IH]; simpl; intros Hin;
      [assumption|].
    destruct (Hins _ _ _ Hin) as [->|Hr]; [left; reflexivity|right; auto]. }
  now rewrite (serialize_same P _ HKl _ _ (same_entries_obj _ _ H)).
Qed.

Lemma componentData_same o1 o2 vs1 vs2 :
  (forall f, In f relevant_fields ->
             same_upto P (member (VObj o1) f) (member (VObj o2) f)) ->
  same_upto P vs1 vs2 ->
  agree (same_entries P) (componentData (VObj o1) vs1)
    (componentData (VObj o2) vs2).
Proof.
  intros Hc Hv; unfold componentData.
  assert (Hd : same_upto P (default_param vs1 (VArr []))
                    (default_param vs2 (VArr []))).
  { pose proof (same_upto_inv _ _ _ Hv) as Hi.
    destruct vs1; simpl in Hi; try (subst; apply same_refl);
      destruct Hi as (x & -> & _); exact Hv. }
  assert (Hf : forall f, In f relevant_fields ->
            agree (same_upto P) (JS.get (VObj o1) f)
              (JS.get (VObj o2) f)).
  { intros f Hin; exact (Hc f Hin). }
  apply agree_bind with (R := same_upto P); [apply Hf; simpl; tauto|].
  intros name1 name2 Hname.
  apply agree_bind with (R := same_upto P); [apply Hf; simpl; tauto|].
  intros version1 version2 Hversion.
  apply agree_bind with (R := same_upto P); [apply Hf; simpl; tauto|].
  intros purl1 purl2 Hpurl.
  apply agree_bind with (R := same_upto P); [apply Hf; simpl; tauto|].
  intros group1 group2 Hgroup.
  apply agree_bind with (R := same_upto P); [apply Hf; simpl; tauto|].
  intros refs1 refs2 Hrefs.
  apply agree_bind with (R := Forall2 (same_upto P));
    [now apply agree_as_array|].
  intros l1 l2 Hl.
  apply agree_bind with (R := Forall2 (same_upto P)).
  - apply agree_array_filter; [assumption|].
    intros v1 v2 Hv12.
    apply agree_bind with (R := same_upto P); [now apply agree_get|].
    intros a1 a2 Ha; rewrite (same_truthy _ _ _ Ha).
    destruct (truthy a2) eqn:Et.
    + apply agree_bind with (R := Forall2 (same_upto P));
        [now apply agree_as_array|].
      intros arr1 arr2 Harr.
      apply agree_bind with (R := eq).
      * apply agree_array_some; [assumption|].
        intros x y Hxy.
        apply agree_bind with (R := same_upto P); [now apply agree_get|].
        intros r1 r2 Hr; simpl; unfold same_truth; simpl.
        apply (same_strict_eq P); [assumption|].
        apply same_js_or; apply Hc; simpl; tauto.
      * intros b1 b2 ->; reflexivity.
    + simpl; unfold same_truth; rewrite <- (same_truthy _ _ _ Ha) in Et.
      rewrite Et; now rewrite (same_truthy _ _ _ Ha) in Et.
  - intros f1 f2 Hfl; simpl.
    repeat (constructor; [split; [reflexivity|simpl; assumption]|]).
    constructor; [split; [reflexivity|simpl; now apply same_arr]|].
    constructor.
Qed.

(** The component fingerprint depends on the component and on the
    vulnerability list only up to [P], as soon as [P] holds of the
    names that the fingerprint reads. *)
Lemma generateComponentChecksum_same o1 o2 vs1 vs2 :
  (forall k, In k ["name"; "version"; "purl"; "group";
                   "externalReferences"; "vulnerabilities"] -> P k) ->
  (forall f, In f relevant_fields ->
             same_upto P (member (VObj o1) f) (member (VObj o2) f)) ->
  same_upto P vs1 vs2 ->
  generateComponentChecksum (VObj o1) vs1
  = generateComponentChecksum (VObj o2) vs2.
Proof.
  intros HK Hc Hv; apply agree_eq; unfold generateComponentChecksum.
  apply agree_bind with (R := fun d1 d2 =>
    same_entries P d1 d2 /\ Object_keys d1
      = ["name"; "version"; "purl"; "group"; "externalReferences";
         "vulnerabilities"]).
  - pose proof (componentData_same _ _ _ _ Hc Hv) as H.
    destruct (componentData (VObj o1) vs1) as [d1|e1] eqn:E1,
             (componentData (VObj o2) vs2) as [d2|e2] eqn:E2;
      simpl in H |- *; try assumption.
    split; [assumption|].
    unfold componentData in E1.
    repeat match type of E1 with
           | bind ?m _ = _ => destruct m; simpl in E1; [|discriminate]
           end.
    injection E1 as <-; reflexivity.
  - intros d1 d2 [Hd Hkeys].
    rewrite (checksum_of_same _ d1 d2); [|assumption|now rewrite Hkeys].
    destruct (checksum_of "component:" d2); reflexivity.
Qed.
End Upto.

(** C8: components whose relevant fields are equal as values, whatever the
    insertion order of the keys of their objects, taken with vulnerability
    lists that are equal in the same sense, get identical fingerprints from
    [generateComponentChecksum]; the fingerprint is a function of these
    inputs alone (it takes no state and returns none). *)
Theorem generateComponentChecksum_field_equal
  (o1 o2 : list (string * value)) (vs1 vs2 : value) :
  (forall f, In f relevant_fields ->
             field_equal (member (VObj o1) f) (member (VObj o2) f)) ->
  field_equal vs1 vs2 ->
  generateComponentChecksum (VObj o1) vs1
  = generateComponentChecksum (VObj o2) vs2.
Proof.
  intros Hc Hv.
  apply (generateComponentChecksum_same (fun _ => True)); auto.
Qed.

Lemma generateComponentChecksum_field_equal_witness :
  generateComponentChecksum Samples.lodash
    (VArr [Samples.lodash_vulnerability "HIGH"])
  = generateComponentChecksum Samples.lodash_reordered
      (VArr [Samples.lodash_vulnerability_reordered "HIGH"]).
Proof.
  unfold Samples.lodash, Samples.lodash_reordered.
  apply generateComponentChecksum_field_equal.
  - intros f Hf; simpl in Hf.
    repeat (destruct Hf as [<-|Hf]; [unfold field_equal; same_values|]).
    destruct Hf.
  - unfold field_equal, Samples.lodash_vulnerability,
      Samples.lodash_vulnerability_reordered.
    same_values.
Defined.

(** The rating of a vulnerability never reaches the component
    fingerprint: vulnerability lists that differ in nothing but their
    [ratings] give the same fingerprint. *)
Lemma generateComponentChecksum_ignores_ratings
  (o : list (string * value)) (vs1 vs2 : value) :
  same_upto (fun k => k <> "ratings") vs1 vs2 ->
  generateComponentChecksum (VObj o) vs1
  = generateComponentChecksum (VObj o) vs2.
Proof.
  intros Hv.
  apply (generateComponentChecksum_same (fun k => k <> "ratings"));
    try discriminate; [| |assumption].
  - intros k Hk; simpl in Hk.
    repeat (destruct Hk as [<-|Hk]; [discriminate|]); destruct Hk.
  - intros; apply same_refl.
Qed.

(** The document fingerprint sees of the components only their number,
    of the metadata nothing, and of the vulnerabilities nothing but what
    their properties named [components], [metadata] or [vulnerabilities]
    hold. *)
Lemma generateFileChecksum_counts_components
  (d1 d2 : list (string * value)) (cs1 cs2 : list value) :
  let P := fun k => In k ["components"; "vulnerabilities"; "metadata"] in
  member (VObj d1) "components" = VArr cs1 ->
  member (VObj d2) "components" = VArr cs2 ->
  Forall present cs1 -> Forall present cs2 ->
  List.length cs1 = List.length cs2 ->
  same_upto P (js_or (member (VObj d1) "vulnerabilities") (VArr []))
    (js_or (member (VObj d2) "vulnerabilities") (VArr [])) ->
  generateFileChecksum (VObj d1) = generateFileChecksum (VObj d2).
Proof.
  intros P H1 H2 Hp1 Hp2 Hlen Hv.
  set (mk := fun c =>
         VObj [("name", member c "name"); ("version", member c "version");
               ("purl", member c "purl"); ("group", member c "group");
               ("externalReferences", member c "externalReferences");
               ("bomRef", js_or (member c "bom-ref") (member c "bomRef"))]).
  assert (Hmap : forall cs f, Forall present cs ->
            (forall c, present c -> f c = Ok (mk c)) ->
            array_map f cs = Ok (map mk cs)).
  { intros cs f Hcs Hf; induction Hcs as [|c r Hc _ IH]; simpl;
      [reflexivity|].
    rewrite (Hf c Hc); simpl; now rewrite IH. }
  assert (Hcb : forall c, present c ->
            (name <- JS.get c "name" ;;
             Ok (VObj [("name", name); ("version", member c "version");
                       ("purl", member c "purl");
                       ("group", member c "group");
                       ("externalReferences", member c "externalReferences");
                       ("bomRef", js_or (member c "bom-ref")
                                        (member c "bomRef"))]))
            = Ok (mk c)).
  { intros c Hc; unfold JS.get; rewrite Hc; reflexivity. }
  assert (Hblind : forall o1 o2,
            (forall k, P k -> lookup k o1 = None /\ lookup k o2 = None) ->
            same_upto P (VObj o1) (VObj o2)).
  { intros o1 o2 H; apply same_obj; intros k Hk; simpl.
    destruct (H k Hk) as [-> ->]; apply same_refl. }
  assert (Hmk : forall c1 c2, same_upto P (mk c1) (mk c2)).
  { intros c1 c2; apply Hblind; intros k Hk; unfold P in Hk; simpl in Hk.
    repeat (destruct Hk as [<-|Hk]; [split; reflexivity|]); destruct Hk. }
  assert (Hcs : forall l1 l2, List.length l1 = List.length l2 ->
            Forall2 (same_upto P) (map mk l1) (map mk l2)).
  { induction l1 as [|a r IH]; intros [|b r']; simpl; intros Hl;
      try discriminate; constructor; auto. }
  unfold generateFileChecksum, fileData.
  unfold JS.get at 1 3; cbn [nullish bind]; rewrite H1, H2; cbn [nullish].
  cbn [as_array bind].
  rewrite (Hmap cs1 _ Hp1 Hcb), (Hmap cs2 _ Hp2 Hcb); cbn [bind js_or truthy].
  apply (checksum_of_same P).
  - constructor; [split; [reflexivity|apply same_arr, Hcs, Hlen]|].
    constructor; [split; [reflexivity|exact Hv]|].
    constructor; [split; [reflexivity|]|constructor].
    apply Hblind; intros k Hk; unfold P in Hk; simpl in Hk.
    repeat (destruct Hk as [<-|Hk]; [split; reflexivity|]); destruct Hk.
  - intros k Hk; exact Hk.
Qed.

(** C1, on the code: the fingerprints are blind to every field of a
    nested object.  Changing the severity rating of the vulnerability that
    affects the component, or replacing its external reference, leaves the
    component fingerprint as it is; and two documents that differ in their
    component, their vulnerability rating and their metadata timestamp
    have the same document fingerprint. *)
Theorem checksums_ignore_nested_fields :
  generateComponentChecksum Samples.lodash
    (VArr [Samples.lodash_vulnerability "LOW"]) = Ok "component:i9j6i7"
  /\ generateComponentChecksum Samples.lodash
       (VArr [Samples.lodash_vulnerability "CRITICAL"])
     = Ok "component:i9j6i7"
  /\ generateComponentChecksum Samples.lodash_moved
       (VArr [Samples.lodash_vulnerability "LOW"]) = Ok "component:i9j6i7"
  /\ generateFileChecksum
       (Samples.document Samples.lodash "LOW" "2024-01-01T00:00:00Z")
     = Ok "file:iv7zfv"
  /\ generateFileChecksum
       (Samples.document Samples.express "CRITICAL" "2025-06-30T12:00:00Z")
     = Ok "file:iv7zfv".
Proof. repeat split; vm_compute; reflexivity. Qed.

End FingerprintFacts.

(** ** The cache *)

Module CacheFacts.
Import JS Notions CacheService.

Lemma strict_eq_true (a b : value) : strict_eq a b = true -> a = b.
Proof.
  destruct a, b; simpl; try discriminate; intros H; try reflexivity.
  - apply Bool.eqb_prop in H; congruence.
  - apply Z.eqb_eq in H; congruence.
  - apply String.eqb_eq in H; congruence.
Qed.

Lemma strict_eq_sym (a b : value) : strict_eq a b = strict_eq b a.
Proof.
  destruct a, b; simpl; try reflexivity.
  - destruct b, b0; reflexivity.
  - apply Z.eqb_sym.
  - apply String.eqb_sym.
Qed.

Lemma same_key_str (s : string) : same_key (VStr s) (VStr s) = true.
Proof. apply String.eqb_refl. Qed.

Lemma map_get_set (k v : value) (m : Map) :
  same_key k k = true -> map_get k (map_set k v m) = v.
Proof.
  intros Hk; induction m as [|[k' v'] r IH]; simpl.
  - now rewrite Hk.
  - destruct (same_key k' k) eqn:E; simpl; now rewrite E.
Qed.

Lemma map_has_set (k v : value) (m : Map) :
  same_key k k = true -> map_has k (map_set k v m) = true.
Proof.
  intros Hk; induction m as [|[k' v'] r IH]; simpl.
  - now rewrite Hk.
  - destruct (same_key k' k) eqn:E; simpl; rewrite E; auto.
Qed.

Lemma map_keys_set (k v : value) (m : Map) :
  same_key k k = true -> In k (map_keys (map_set k v m)).
Proof.
  intros Hk; induction m as [|[k' v'] r IH]; simpl; [auto|].
  destruct (same_key k' k) eqn:E; simpl; [|auto].
  left; now apply strict_eq_true.
Qed.

Lemma map_has_set_other (k k' v : value) (m : Map) :
  same_key k k' = false ->
  map_has k' (map_set k v m) = map_has k' m.
Proof.
  intros Hk; induction m as [|[k0 v0] r IH]; simpl.
  - now rewrite Hk.
  - destruct (same_key k0 k) eqn:E; simpl; [reflexivity|].
    now rewrite IH.
Qed.

Lemma map_wf_set (k v : value) (m : Map) :
  map_wf m = true -> map_wf (map_set k v m) = true.
Proof.
  induction m as [|[k' v'] r IH]; simpl; [reflexivity|].
  intros H; apply andb_prop in H as [Hn Hw].
  destruct (same_key k' k) eqn:E; simpl.
  - now rewrite Hn, Hw.
  - rewrite map_has_set_other, Hn, IH; auto.
    unfold same_key in *; now rewrite strict_eq_sym.
Qed.

Lemma map_get_absent (k : value) (m : Map) :
  map_has k m = false -> map_get k m = VUndef.
Proof.
  induction m as [|[k' v] r IH]; simpl; [reflexivity|].
  destruct (same_key k' k); simpl; [discriminate|exact IH].
Qed.

Lemma map_has_delete (k : value) (m : Map) :
  map_wf m = true -> map_has k (map_delete k m) = false.
Proof.
  induction m as [|[k' v'] r IH]; simpl; [reflexivity|].
  intros H; apply andb_prop in H as [Hn Hw].
  destruct (same_key k' k) eqn:E; simpl.
  - apply strict_eq_true in E; subst k'.
    now apply negb_true_iff in Hn.
  - rewrite E; auto.
Qed.

Lemma map_has_delete_other (k k' : value) (m : Map) :
  map_has k' m = false -> map_has k' (map_delete k m) = false.
Proof.
  induction m as [|[k0 v0] r IH]; simpl; [reflexivity|].
  intros H; apply orb_false_elim in H as [H1 H2].
  destruct (same_key k0 k); simpl; [assumption|].
  now rewrite H1, IH.
Qed.

Lemma map_wf_delete (k : value) (m : Map) :
  map_wf m = true -> map_wf (map_delete k m) = true.
Proof.
  induction m as [|[k' v'] r IH]; simpl; [reflexivity|].
  intros H; apply andb_prop in H as [Hn Hw].
  destruct (same_key k' k); simpl; [assumption|].
  rewrite IH by assumption.
  apply negb_true_iff in Hn.
  now rewrite map_has_delete_other.
Qed.

Lemma map_of_entries_wf (entries : list value) (m m' : Map) :
  map_wf m = true -> map_of_entries entries m = Ok m' -> map_wf m' = true.
Proof.
  revert m; induction entries as [|e r IH]; simpl; intros m Hw H.
  - now injection H as <-.
  - destruct e; try discriminate;
      (eapply IH; [apply map_wf_set; exact Hw | exact H]).
Qed.

Lemma saveToStorage_cache now st : cache (saveToStorage now st) = cache st.
Proof.
  unfold saveToStorage.
  destruct (JSON_stringify _); [|reflexivity].
  destruct (setItem _ _); reflexivity.
Qed.

(** Every operation of the service keeps the keys of the cache distinct,
    and the constructor starts with distinct keys. *)
Lemma constructor_wf parse now ls :
  map_wf (cache (constructor parse now ls)) = true.
Proof.
  unfold constructor, loadFromStorage; simpl.
  destruct (item ls) as [raw|]; [|reflexivity].
  destruct (negb (String.eqb raw "")); [|reflexivity].
  destruct (CacheService.parse parse raw) as [data|]; [|reflexivity]; simpl.
  destruct (JS.get data "timestamp") as [t|]; [|reflexivity]; simpl.
  destruct (truthy t && _); [|reflexivity].
  destruct (new_Map _) as [m|] eqn:E; [|reflexivity]; simpl.
  unfold new_Map in E.
  destruct (as_array _); [|discriminate]; simpl in E.
  eapply map_of_entries_wf; [|exact E]; reflexivity.
Qed.

Lemma set_wf now k v st :
  map_wf (cache st) = true -> map_wf (cache (set now k v st)) = true.
Proof.
  intros H; unfold set; rewrite saveToStorage_cache; simpl.
  now apply map_wf_set.
Qed.

Lemma setWithTTL_wf now k v ttl st :
  map_wf (cache st) = true ->
  map_wf (cache (setWithTTL now k v ttl st)) = true.
Proof.
  intros H; unfold setWithTTL; rewrite saveToStorage_cache; simpl.
  now apply map_wf_set.
Qed.

Lemma getWithTTL_wf now k st :
  map_wf (cache st) = true ->
  map_wf (cache (snd (getWithTTL now k st))) = true.
Proof.
  intros H; unfold getWithTTL.
  destruct (negb _); [assumption|].
  destruct (_ && _); [|assumption]; simpl.
  rewrite saveToStorage_cache; simpl.
  now apply map_wf_delete.
Qed.

(** C6: after [setWithTTL(k, v, ttl)] at time [t0], a [getWithTTL(k)] at
    time [t1] deletes the entry and returns [null] when [ttl > 0] and more
    than [ttl] milliseconds have passed, returns [v] and leaves the cache as
    it is when [ttl > 0] and at most [ttl] milliseconds have passed, and
    returns [v] at every time when [ttl = 0]. *)
Theorem setWithTTL_getWithTTL
  (st : state) (k : string) (v : value) (ttl t0 t1 : Z) :
  map_wf (cache st) = true ->
  let st' := setWithTTL t0 (VStr k) v (VNum ttl) st in
  let r := getWithTTL t1 (VStr k) st' in
  (0 < ttl -> t1 - t0 > ttl ->
     fst r = VNull /\ has (VStr k) (snd r) = false)
  /\ (0 < ttl -> t1 - t0 <= ttl -> fst r = v /\ snd r = st')
  /\ (ttl = 0 -> fst r = v /\ snd r = st').
Proof.
  intros Hwf st' r.
  assert (Hget : map_get (VStr k) (cache st')
                 = VObj [("value", v); ("timestamp", VNum t0);
                         ("ttl", VNum ttl)]).
  { unfold st', setWithTTL; rewrite saveToStorage_cache; simpl.
    apply map_get_set, same_key_str. }
  assert (Hwf' : map_wf (cache st') = true).
  { unfold st', setWithTTL; rewrite saveToStorage_cache; simpl.
    now apply map_wf_set. }
  unfold r, getWithTTL; rewrite Hget; simpl.
  repeat split.
  - destruct (ttl >? 0) eqn:E1; [|lia].
    destruct (t1 - t0 >? ttl) eqn:E2; [reflexivity|lia].
  - destruct (ttl >? 0) eqn:E1; [|lia].
    destruct (t1 - t0 >? ttl) eqn:E2; [|lia]; simpl.
    unfold has; rewrite saveToStorage_cache; simpl.
    now apply map_has_delete.
  - destruct (ttl >? 0) eqn:E1; [|lia].
    destruct (t1 - t0 >? ttl) eqn:E2; [lia|reflexivity].
  - destruct (ttl >? 0) eqn:E1; [|lia].
    destruct (t1 - t0 >? ttl) eqn:E2; [lia|reflexivity].
  - destruct (ttl >? 0) eqn:E1; [lia|reflexivity].
  - destruct (ttl >? 0) eqn:E1; [lia|reflexivity].
Qed.

Lemma setWithTTL_getWithTTL_witness :
  let st' := setWithTTL 100 (VStr "k") (VStr "v") (VNum 10)
               Samples.empty_state in
  (fst (getWithTTL 111 (VStr "k") st') = VNull
   /\ has (VStr "k") (snd (getWithTTL 111 (VStr "k") st')) = false)
  /\ fst (getWithTTL 110 (VStr "k") st') = VStr "v".
Proof.
  intros st'.
  pose proof (setWithTTL_getWithTTL Samples.empty_state "k" (VStr "v")
                10 100 111 eq_refl) as [H1 _].
  pose proof (setWithTTL_getWithTTL Samples.empty_state "k" (VStr "v")
                10 100 110 eq_refl) as [_ [H2 _]].
  split; [apply H1; lia | apply H2; lia].
Defined.

(** C10: the plain [get] and [has], and [getStats], do not look at the
    TTL, and only [getWithTTL] performs the lazy expiry.  Once the entry
    written by [setWithTTL] has expired, [has] still answers true, [get]
    returns the stored wrapper object, and [getStats] lists and counts the
    key; [getWithTTL] answers [null] and deletes the entry, so that [has]
    answers false afterwards. *)
Theorem get_has_ignore_ttl
  (st : state) (k : string) (v : value) (ttl t0 t1 : Z) :
  map_wf (cache st) = true ->
  0 < ttl ->
  t1 - t0 > ttl ->
  let st' := setWithTTL t0 (VStr k) v (VNum ttl) st in
  has (VStr k) st' = true
  /\ get (VStr k) st'
     = VObj [("value", v); ("timestamp", VNum t0); ("ttl", VNum ttl)]
  /\ In (VStr k) (keys (getStats t1 st'))
  /\ size (getStats t1 st') = List.length (keys (getStats t1 st'))
  /\ fst (getWithTTL t1 (VStr k) st') = VNull
  /\ cache (snd (getWithTTL t1 (VStr k) st'))
     = map_delete (VStr k) (cache st')
  /\ has (VStr k) (snd (getWithTTL t1 (VStr k) st')) = false
  /\ get (VStr k) (snd (getWithTTL t1 (VStr k) st')) = VUndef.
Proof.
  intros Hwf Httl Hexp st'.
  assert (Hc : cache st'
               = map_set (VStr k)
                   (VObj [("value", v); ("timestamp", VNum t0);
                          ("ttl", VNum ttl)]) (cache st)).
  { unfold st', setWithTTL; now rewrite saveToStorage_cache. }
  assert (Hwf' : map_wf (cache st') = true).
  { rewrite Hc; now apply map_wf_set. }
  assert (Hd : getWithTTL t1 (VStr k) st'
               = (VNull,
                  saveToStorage t1
                    (with_cache (map_delete (VStr k) (cache st')) st'))).
  { unfold getWithTTL; rewrite Hc, map_get_set by apply same_key_str.
    simpl.
    destruct (ttl >? 0) eqn:E1; [|lia].
    destruct (t1 - t0 >? ttl) eqn:E2; [reflexivity|lia]. }
  assert (Hh : map_has (VStr k) (map_delete (VStr k) (cache st')) = false)
    by now apply map_has_delete.
  repeat split.
  - unfold has; rewrite Hc; apply map_has_set, same_key_str.
  - unfold get; rewrite Hc; apply map_get_set, same_key_str.
  - simpl; rewrite Hc; apply map_keys_set, same_key_str.
  - simpl; unfold map_keys; now rewrite length_map.
  - now rewrite Hd.
  - rewrite Hd; simpl; now rewrite saveToStorage_cache.
  - rewrite Hd; unfold has; simpl; now rewrite saveToStorage_cache.
  - rewrite Hd; unfold get; simpl; rewrite saveToStorage_cache; simpl.
    now apply map_get_absent.
Qed.

Lemma get_has_ignore_ttl_witness :
  let st' := setWithTTL 100 (VStr "k") (VStr "v") (VNum 10)
               Samples.empty_state in
  has (VStr "k") st' = true
  /\ get (VStr "k") st'
     = VObj [("value", VStr "v"); ("timestamp", VNum 100); ("ttl", VNum 10)]
  /\ fst (getWithTTL 111 (VStr "k") st') = VNull
  /\ has (VStr "k") (snd (getWithTTL 111 (VStr "k") st')) = false.
Proof.
  intros st'.
  pose proof (get_has_ignore_ttl Samples.empty_state "k" (VStr "v")
                10 100 111 eq_refl ltac:(lia) ltac:(lia))
    as (H1 & H2 & _ & _ & H3 & _ & H4 & _).
  repeat split; assumption.
Defined.

Section Load.
Variable JSON_parse : string -> option value.

Lemma loadFromStorage_unparsable now st raw :
  item (storage st) = Some raw -> raw <> "" ->
  JSON_parse raw = None ->
  loadFromStorage JSON_parse now st = clearStorage st.
Proof.
  intros Hraw Hne Hp; unfold loadFromStorage, parse.
  rewrite Hraw, Hp; simpl.
  destruct (String.eqb_spec raw ""); [contradiction|reflexivity].
Qed.

Lemma loadFromStorage_stale now st raw data ts :
  item (storage st) = Some raw -> raw <> "" ->
  JSON_parse raw = Some data ->
  member data "timestamp" = VNum ts ->
  maxCacheAge <= now - ts ->
  loadFromStorage JSON_parse now st = clearStorage st.
Proof.
  intros Hraw Hne Hp Hts Hold; unfold loadFromStorage, parse.
  rewrite Hraw, Hp; simpl.
  destruct (String.eqb_spec raw ""); [contradiction|simpl].
  assert (Hn : nullish data = false)
    by (destruct data; simpl in Hts; try discriminate; reflexivity).
  unfold JS.get; rewrite Hn; simpl; rewrite Hts; simpl.
  destruct (now - ts <? maxCacheAge) eqn:E; [lia|].
  now rewrite andb_false_r.
Qed.

(** A snapshot of the wrong shape: its [cache] is no array of entry
    objects, so that [new Map] throws.  Nothing of it is kept. *)
Lemma loadFromStorage_malformed now st raw data e :
  item (storage st) = Some raw -> raw <> "" ->
  JSON_parse raw = Some data ->
  new_Map (js_or (member data "cache") (VArr [])) = Throw e ->
  cache (loadFromStorage JSON_parse now st) = cache st
  /\ item (storage (loadFromStorage JSON_parse now st)) = None.
Proof.
  intros Hraw Hne Hp HM; unfold loadFromStorage, parse.
  rewrite Hraw, Hp; simpl.
  destruct (String.eqb_spec raw ""); [contradiction|simpl].
  destruct (JS.get data "timestamp") as [t|]; simpl; [|auto].
  destruct (truthy t && _); [|auto].
  rewrite HM; simpl; auto.
Qed.

(** C7, as the code has it: on initialization, a stored snapshot that
    is not the empty string is discarded in full, and its item removed
    from the storage, when it does not parse or when its timestamp is 24
    hours old or older: the cache starts empty. *)
Theorem constructor_discards_snapshot
  (now : Z) (ls : localStorage) (raw : string) :
  item ls = Some raw ->
  raw <> "" ->
  (JSON_parse raw = None
   \/ exists data ts, JSON_parse raw = Some data
                      /\ member data "timestamp" = VNum ts
                      /\ maxCacheAge <= now - ts) ->
  cache (constructor JSON_parse now ls) = []
  /\ item (storage (constructor JSON_parse now ls)) = None
  /\ sessionStartTime (constructor JSON_parse now ls) = VNum now.
Proof.
  intros Hraw Hne H; unfold constructor.
  destruct H as [Hp | (data & ts & Hp & Hts & Hold)].
  - rewrite (loadFromStorage_unparsable _ _ raw); auto.
  - rewrite (loadFromStorage_stale _ _ raw data ts); auto.
Qed.
End Load.

Lemma constructor_discards_snapshot_witness :
  let st := constructor Json.parse (1000 + maxCacheAge)
              (Samples.storage_with Samples.snapshot) in
  cache st = [] /\ item (storage st) = None.
Proof.
  intros st.
  destruct (constructor_discards_snapshot Json.parse (1000 + maxCacheAge)
              (Samples.storage_with Samples.snapshot) Samples.snapshot
              eq_refl ltac:(discriminate)) as (H1 & H2 & _).
  - right.
    exists (VObj [("cache",
                    VArr [VArr [VStr "npm:lodash";
                                VObj [("license", VStr "MIT");
                                      ("latestVersion", VStr "4.17.21")]];
                          VArr [VStr "vuln:npm:lodash"; VNull]]);
                  ("timestamp", VNum 1000);
                  ("sessionStartTime", VNum 900)]), 1000.
    repeat split; try (vm_compute; reflexivity).
    vm_compute; discriminate.
  - split; assumption.
Defined.

(** The same snapshot is loaded whole one millisecond earlier. *)
Example constructor_loads_fresh_snapshot :
  cache (constructor Json.parse (999 + maxCacheAge)
           (Samples.storage_with Samples.snapshot))
  = [(VStr "npm:lodash",
       VObj [("license", VStr "MIT"); ("latestVersion", VStr "4.17.21")]);
     (VStr "vuln:npm:lodash", VNull)].
Proof. vm_compute; reflexivity. Qed.

(** C7, as stated, fails on a stored empty string: it does not parse, and
    the constructor leaves it in the storage. *)
Lemma constructor_keeps_empty_item :
  Json.parse "" = None
  /\ item (storage (constructor Json.parse 1700000000000
                      (Samples.storage_with "")))
     = Some "".
Proof. split; vm_compute; reflexivity. Qed.

End CacheFacts.

(** ** [Promise.all] *)

Module PromiseFacts.
Import JS PropertyMapperService.

Lemma first_rejection_app (a b : list nat) (promises : list (result value)) :
  first_rejection (List.app a b) promises
  = match first_rejection a promises with
    | Some e => Some e
    | None => first_rejection b promises
    end.
Proof.
  induction a as [|i a IH]; simpl; [reflexivity|].
  destruct (nth i promises (Ok VUndef)); [exact IH|reflexivity].
Qed.

Lemma first_rejection_in (order : list nat) (promises : list (result value))
  (e : exn) :
  first_rejection order promises = Some e -> In (Throw e) promises.
Proof.
  induction order as [|i r IH]; simpl; [discriminate|].
  destruct (nth i promises (Ok VUndef)) as [v|e'] eqn:E; [exact IH|].
  intros [= <-]; rewrite <- E.
  destruct (nth_in_or_default i promises (Ok VUndef)) as [H|H];
    [exact H|rewrite E in H; discriminate H].
Qed.

Lemma first_rejection_shift (order : list nat) (p : result value)
  (promises : list (result value)) :
  first_rejection (map S order) (p :: promises)
  = first_rejection order promises.
Proof.
  induction order as [|i r IH]; simpl; [reflexivity|].
  now rewrite IH.
Qed.

(** No call is left out: when none of them is found rejected, every
    one has fulfilled. *)
Lemma first_rejection_none (promises : list (result value)) :
  first_rejection (seq 0 (List.length promises)) promises = None ->
  promises = map Ok (fulfilled promises).
Proof.
  induction promises as [|p r IH]; [reflexivity|].
  cbn [List.length seq first_rejection nth].
  destruct p as [v|e]; [|discriminate].
  rewrite <- seq_shift, first_rejection_shift; intros H.
  cbn [fulfilled flat_map List.app map]; f_equal; exact (IH H).
Qed.

Lemma first_rejection_fulfilled (order : list nat) (values : list value) :
  first_rejection order (map Ok values) = None.
Proof.
  induction order as [|i r IH]; simpl; [reflexivity|].
  destruct (nth i (map Ok values) (Ok VUndef)) as [v|e] eqn:E; [exact IH|].
  destruct (nth_in_or_default i (map Ok values) (Ok VUndef)) as [H|H];
    rewrite E in H; [|discriminate H].
  apply in_map_iff in H as (v & Hv & _); discriminate Hv.
Qed.

Lemma fulfilled_map (values : list value) :
  fulfilled (map Ok values) = values.
Proof.
  unfold fulfilled; induction values as [|v r IH]; simpl; [reflexivity|].
  now f_equal.
Qed.

Lemma Promise_all_fulfilled (order : list nat)
  (promises : list (result value)) (values : list value) :
  Promise_all order promises = Ok values <-> promises = map Ok values.
Proof.
  unfold Promise_all; split.
  - destruct (first_rejection _ promises) eqn:E; [discriminate|].
    intros [= <-]; rewrite first_rejection_app in E.
    destruct (first_rejection order promises); [discriminate|].
    exact (first_rejection_none _ E).
  - intros ->; now rewrite first_rejection_fulfilled, fulfilled_map.
Qed.

(** What [Promise.all] rejects with is the rejection of one of the
    calls. *)
Lemma Promise_all_rejected (order : list nat)
  (promises : list (result value)) (e : exn) :
  Promise_all order promises = Throw e -> In (Throw e) promises.
Proof.
  unfold Promise_all.
  destruct (first_rejection _ promises) as [e'|] eqn:E; [|discriminate].
  intros [= <-]; exact (first_rejection_in _ _ _ E).
Qed.

(** One rejection is enough for [Promise.all] to reject. *)
Lemma Promise_all_rejects (order : list nat)
  (promises : list (result value)) (e : exn) :
  In (Throw e) promises ->
  exists e', Promise_all order promises = Throw e'
             /\ In (Throw e') promises.
Proof.
  intros Hin; destruct (Promise_all order promises) as [vs|e'] eqn:E.
  - apply Promise_all_fulfilled in E; subst promises.
    apply in_map_iff in Hin as (v & Hv & _); discriminate Hv.
  - exists e'; split; [reflexivity|exact (Promise_all_rejected _ _ _ E)].
Qed.

(** Any rejected call can be the first to reject. *)
Lemma Promise_all_first (promises : list (result value)) (e : exn) :
  In (Throw e) promises ->
  exists order, Promise_all order promises = Throw e.
Proof.
  intros Hin; apply (In_nth _ _ (Ok VUndef)) in Hin as (i & _ & Hi).
  exists [i]; unfold Promise_all; cbn [List.app first_rejection].
  now rewrite Hi.
Qed.

(** Three calls that fulfil leave the outcome to the fourth. *)
Lemma Promise_all_fourth (order : list nat) (a b c : value)
  (p : result value) :
  Promise_all order [Ok a; Ok b; Ok c; p]
  = (v <- p ;; Ok [a; b; c; v]).
Proof.
  destruct p as [v|e]; cbn [bind].
  - now apply (Promise_all_fulfilled order _ [a; b; c; v]).
  - destruct (Promise_all_rejects order [Ok a; Ok b; Ok c; Throw e] e)
      as (e' & -> & Hin); [simpl; tauto|].
    simpl in Hin.
    repeat (destruct Hin as [Hin|Hin]; [try discriminate Hin|]).
    + now injection Hin as ->.
    + destruct Hin.
Qed.

End PromiseFacts.

(** ** What the [catch] clause can log *)

Module LoggingFacts.
Import JS Notions CacheService PropertyMapperService PromiseFacts.

Create HintDb loggable.

Lemma tl_ok {A} (a : A) : throws_loggably (Ok a).
Proof. intros e H; discriminate. Qed.

Lemma tl_type_error {A} : throws_loggably (@Throw A TypeError).
Proof. intros e [= <-]; reflexivity. Qed.

Lemma tl_bind {A B} (m : result A) (k : A -> result B) :
  throws_loggably m -> (forall a, throws_loggably (k a)) ->
  throws_loggably (bind m k).
Proof.
  intros Hm Hk e; destruct m as [a|e']; simpl; [apply Hk|].
  intros [= <-]; now apply Hm.
Qed.

Lemma tl_get v k : throws_loggably (JS.get v k).
Proof.
  unfold JS.get; destruct (nullish v); [apply tl_type_error|apply tl_ok].
Qed.

Lemma tl_as_array v : throws_loggably (as_array v).
Proof. destruct v; simpl; first [apply tl_ok|apply tl_type_error]. Qed.

Lemma tl_as_string v : throws_loggably (as_string v).
Proof. destruct v; simpl; first [apply tl_ok|apply tl_type_error]. Qed.

#[export] Hint Resolve tl_ok tl_type_error tl_bind tl_get tl_as_array
  tl_as_string : loggable.
#[export] Hint Extern 2 (throws_loggably (if ?b then _ else _)) =>
  destruct b : loggable.
#[export] Hint Extern 2 (throws_loggably (match ?x with _ => _ end)) =>
  destruct x : loggable.

Lemma tl_array_some f l :
  (forall x, throws_loggably (f x)) -> throws_loggably (array_some f l).
Proof. intros Hf; induction l; simpl; auto 6 with loggable. Qed.

Lemma tl_array_filter f l :
  (forall x, throws_loggably (f x)) -> throws_loggably (array_filter f l).
Proof. intros Hf; induction l; simpl; auto 6 with loggable. Qed.

Lemma tl_array_find f l :
  (forall x, throws_loggably (f x)) -> throws_loggably (array_find f l).
Proof. intros Hf; induction l; simpl; auto 6 with loggable. Qed.

Lemma tl_array_map f l :
  (forall x, throws_loggably (f x)) -> throws_loggably (array_map f l).
Proof. intros Hf; induction l; simpl; auto 6 with loggable. Qed.

#[export] Hint Resolve tl_array_some tl_array_filter tl_array_find
  tl_array_map : loggable.

Lemma tl_repoUrlOf component : throws_loggably (repoUrlOf component).
Proof. unfold repoUrlOf; auto 10 with loggable. Qed.

Lemma tl_repo_slug repoUrl : throws_loggably (repo_slug repoUrl).
Proof. unfold repo_slug; auto with loggable. Qed.

#[export] Hint Resolve tl_repoUrlOf tl_repo_slug : loggable.

Lemma tl_isAllDataCached component pkgInfo repoUrl st :
  throws_loggably (isAllDataCached component pkgInfo repoUrl st).
Proof. unfold isAllDataCached; auto 10 with loggable. Qed.

Lemma tl_criticality_loop ref vs :
  forall max, throws_loggably (criticality_loop ref max vs).
Proof.
  induction vs as [|v r IH]; intros max; simpl; [apply tl_ok|].
  apply tl_bind; [|auto].
  unfold criticality_step; auto 20 with loggable.
Qed.

Lemma tl_determineCriticalityFromSbom vulns component :
  throws_loggably (determineCriticalityFromSbom vulns component).
Proof.
  unfold determineCriticalityFromSbom.
  destruct vulns as [ | | | | |[|v r]|]; try apply tl_ok.
  apply tl_bind; [apply tl_get|intros bomRef].
  apply tl_bind; [apply tl_criticality_loop|intros [m|]];
    auto with loggable.
Qed.

Lemma tl_generateUniqueIdentifier component pkgInfo supplier :
  throws_loggably (generateUniqueIdentifier component pkgInfo supplier).
Proof. unfold generateUniqueIdentifier; auto 20 with loggable. Qed.

Lemma tl_generateComponentChecksum component vulns :
  throws_loggably (generateComponentChecksum component vulns).
Proof.
  unfold generateComponentChecksum, componentData, checksum_of.
  auto 30 with loggable.
Qed.

Lemma tl_Promise_all order promises :
  Forall throws_loggably promises ->
  throws_loggably (Promise_all order promises).
Proof.
  intros HF e He; apply Promise_all_rejected in He.
  rewrite Forall_forall in HF; exact (HF _ He e eq_refl).
Qed.

#[export] Hint Resolve tl_isAllDataCached tl_determineCriticalityFromSbom
  tl_generateUniqueIdentifier tl_generateComponentChecksum : loggable.

#[export] Hint Resolve tl_Promise_all Forall_cons Forall_nil : loggable.

Lemma tl_buildPropertiesFromCachedData C component pkgInfo repoUrl vulns st :
  loggable_clients C ->
  throws_loggably
    (buildPropertiesFromCachedData C component pkgInfo repoUrl vulns st).
Proof.
  intros (H1 & H2 & H3 & H4 & H5 & H6 & H7 & H8).
  unfold buildPropertiesFromCachedData; cbv zeta.
  auto 40 with loggable.
Qed.

Lemma tl_fullFetch C component pkgInfo repoUrl vulns :
  loggable_clients C ->
  throws_loggably (fullFetch C component pkgInfo repoUrl vulns).
Proof.
  intros (H1 & H2 & H3 & H4 & H5 & H6 & H7 & H8).
  unfold fullFetch, fetch_group; cbv zeta.
  auto 40 with loggable.
Qed.

End LoggingFacts.

(** ** The derivation rules and the fetch orchestration *)

Module MapperFacts.
Import JS Notions CacheService PropertyMapperService.
Import PromiseFacts LoggingFacts.

Lemma hasFixedVersions_cons (vulnData f : value) (r : list value) :
  member vulnData "fixedVersions" = VArr (f :: r) ->
  hasFixedVersions vulnData = true.
Proof.
  intros H; unfold hasFixedVersions; rewrite H.
  cbn [isArray member String.eqb Ascii.eqb Bool.eqb to_number num_gt andb].
  destruct (Z.of_nat (List.length (f :: r)) >? 0) eqn:E; [reflexivity|].
  cbn [List.length] in E; rewrite Nat2Z.inj_succ, Z.gtb_ltb in E.
  apply Z.ltb_ge in E; lia.
Qed.

Lemma hasFixedVersions_inv (vulnData : value) :
  hasFixedVersions vulnData = true ->
  exists f r, member vulnData "fixedVersions" = VArr (f :: r).
Proof.
  unfold hasFixedVersions.
  destruct (member vulnData "fixedVersions") as [ | | | | |l|];
    try discriminate.
  destruct l as [|f r]; [discriminate|eauto].
Qed.

(** C4, as the code has it: the patch status is
    ["Update available (>= <first fixed version>)"] when the aggregate
    reports vulnerabilities and its fixed-version list is a non-empty
    array, ["Update available (>= NA)"] when it reports vulnerabilities
    without such a list, ["Update available (latest <latest>)"] when it
    reports none and the latest version and the installed version are both
    present (truthy) and differ, and ["Up to date"] in every other case. *)
Theorem computePatchStatus_cases (vulnData pkgInfo pkgData : value) :
  let fixed := member vulnData "fixedVersions" in
  let latest := member pkgData "latestVersion" in
  let installed := member pkgInfo "version" in
  let status := computePatchStatus vulnData pkgInfo pkgData in
  (truthy (member vulnData "hasVulnerabilities") = true ->
     (forall f r, fixed = VArr (f :: r) ->
        status = "Update available (>= " ++ to_string f ++ ")")
     /\ ((forall f r, fixed <> VArr (f :: r)) ->
        status = "Update available (>= NA)"))
  /\ (truthy (member vulnData "hasVulnerabilities") = false ->
     (truthy latest = true -> truthy installed = true ->
      strict_eq latest installed = false ->
        status = "Update available (latest " ++ to_string latest ++ ")")
     /\ (truthy latest = false \/ truthy installed = false
         \/ strict_eq latest installed = true ->
        status = "Up to date")).
Proof.
  intros fixed latest installed status; unfold status, computePatchStatus.
  split; intros Hv; rewrite Hv; split.
  - intros f r Hf; rewrite (hasFixedVersions_cons _ f r Hf).
    fold fixed; rewrite Hf; reflexivity.
  - intros Hn; destruct (hasFixedVersions vulnData) eqn:E; [|reflexivity].
    apply hasFixedVersions_inv in E as (f & r & E).
    exfalso; exact (Hn f r E).
  - intros Hl Hi Hd; fold latest installed; rewrite Hl, Hi, Hd; reflexivity.
  - fold latest installed; intros [H | [H | H]]; rewrite H;
      rewrite ?andb_false_r; reflexivity.
Qed.

Lemma computePatchStatus_cases_witness :
  computePatchStatus Samples.vulnerable_fixed
    (Samples.packageInfo Samples.lodash) Samples.npm_metadata
  = "Update available (>= 4.17.21)"
  /\ computePatchStatus Samples.vulnerable_unfixed
       (Samples.packageInfo Samples.lodash) Samples.npm_metadata
     = "Update available (>= NA)"
  /\ computePatchStatus VNull
       (Samples.packageInfo Samples.lodash) Samples.npm_metadata
     = "Update available (latest 4.17.21)"
  /\ computePatchStatus VNull
       (Samples.packageInfo Samples.lodash) VNull
     = "Up to date".
Proof.
  split; [|split; [|split]].
  - pose proof (computePatchStatus_cases Samples.vulnerable_fixed
                  (Samples.packageInfo Samples.lodash)
                  Samples.npm_metadata) as H.
    cbv zeta in H; destruct H as [H _].
    destruct (H eq_refl) as [H1 _]; exact (H1 _ [] eq_refl).
  - pose proof (computePatchStatus_cases Samples.vulnerable_unfixed
                  (Samples.packageInfo Samples.lodash)
                  Samples.npm_metadata) as H.
    cbv zeta in H; destruct H as [H _].
    destruct (H eq_refl) as [_ H2]; apply H2; intros f r; discriminate.
  - pose proof (computePatchStatus_cases VNull
                  (Samples.packageInfo Samples.lodash)
                  Samples.npm_metadata) as H.
    cbv zeta in H; destruct H as [_ H].
    destruct (H eq_refl) as [H3 _]; exact (H3 eq_refl eq_refl eq_refl).
  - pose proof (computePatchStatus_cases VNull
                  (Samples.packageInfo Samples.lodash) VNull) as H.
    cbv zeta in H; destruct H as [_ H].
    destruct (H eq_refl) as [_ H4]; apply H4; left; reflexivity.
Defined.

(** C4, as stated, fails when the installed version is absent or empty:
    the latest version then differs from it, and the status is
    ["Up to date"]. *)
Lemma computePatchStatus_without_installed_version :
  let absent := VObj [("ecosystem", VStr "npm"); ("name", VStr "lodash")] in
  let empty := VObj [("ecosystem", VStr "npm"); ("name", VStr "lodash");
                     ("version", VStr "")] in
  strict_eq (member Samples.npm_metadata "latestVersion")
    (member absent "version") = false
  /\ computePatchStatus VNull absent Samples.npm_metadata = "Up to date"
  /\ strict_eq (member Samples.npm_metadata "latestVersion")
       (member empty "version") = false
  /\ computePatchStatus VNull empty Samples.npm_metadata = "Up to date"
  /\ computePatchStatus VNull empty Samples.npm_metadata
     <> "Update available (latest 4.17.21)".
Proof. repeat split; vm_compute; try reflexivity; discriminate. Qed.

(** The patch status is never the bare ["Update available"] that the
    recommendation note compares it with. *)
Lemma computePatchStatus_not_bare (vulnData pkgInfo pkgData : value) :
  str_eq (VStr (computePatchStatus vulnData pkgInfo pkgData))
    "Update available" = false.
Proof.
  unfold str_eq, computePatchStatus; simpl.
  destruct (truthy (member vulnData "hasVulnerabilities")).
  - destruct (hasFixedVersions vulnData); reflexivity.
  - destruct (_ && _); reflexivity.
Qed.

(** C5, on the code: the note ["Recommended version: NA"] is never
    appended.  The note is guarded by a comparison of the patch status with
    the bare ["Update available"], which [computePatchStatus] never
    returns; so a component whose aggregate reports vulnerabilities without
    a fixed version gets the status ["Update available (>= NA)"] and its
    comments without any recommendation, on the full fetch and on the
    cached path alike. *)
Theorem recommendation_NA_never_appended :
  (forall vulnData pkgInfo pkgData,
     str_eq (VStr (computePatchStatus vulnData pkgInfo pkgData))
       "Update available" = false)
  /\ (let props :=
        Samples.returned
          (fetchComponentData
             (Samples.clients (Ok Samples.npm_metadata)
                (Ok Samples.vulnerable_unfixed))
             1700000000010 Samples.lodash Samples.lodash_vulnerabilities
             Samples.empty_state) in
      member props "Patch Status" = VStr "Update available (>= NA)"
      /\ member props "Comments or Notes"
         = VStr ("Description: Lodash modular utilities.; "
                 ++ "3 known vulnerabilities; "
                 ++ "Popular project (58000 stars)"))
  /\ (let props :=
        Samples.returned
          (fetchComponentData
             (Samples.clients (Ok Samples.npm_metadata)
                (Ok Samples.vulnerable_unfixed))
             1700000000010 Samples.lodash Samples.lodash_vulnerabilities
             (Samples.warm_state_with Samples.vulnerable_unfixed)) in
      member props "Patch Status" = VStr "Update available (>= NA)"
      /\ member props "Comments or Notes"
         = VStr ("Description: Lodash modular utilities.; "
                 ++ "3 known vulnerabilities; "
                 ++ "Popular project (58000 stars)")).
Proof.
  split; [exact computePatchStatus_not_bare|].
  split; split; vm_compute; reflexivity.
Qed.

(** When a fixed version is known, the note names the first one. *)
Example recommendation_names_first_fixed_version :
  member
    (Samples.returned
       (fetchComponentData
          (Samples.clients (Ok Samples.npm_metadata)
             (Ok Samples.vulnerable_fixed))
          1700000000010 Samples.lodash Samples.lodash_vulnerabilities
          Samples.empty_state))
    "Comments or Notes"
  = VStr ("Description: Lodash modular utilities.; "
          ++ "3 known vulnerabilities; Popular project (58000 stars); "
          ++ "Recommended version: 4.17.21").
Proof. vm_compute; reflexivity. Qed.

Section Orchestration.
Variable C : collaborators.

(** For a package info that is there: when the dependencies of a
    component are cache-resident with the values of the sources,
    [isAllDataCached] answers true and the synchronous path
    [buildPropertiesFromCachedData] yields what the full fetch yields: the
    same property set, or the same exception. *)
Lemma fast_path_equals_full_fetch
  (st : state) (component pkgInfo repoUrl sbomVulnerabilities : value) :
  nullish pkgInfo = false ->
  dependencies_resident C st pkgInfo repoUrl ->
  isAllDataCached component pkgInfo repoUrl st = Ok true
  /\ buildPropertiesFromCachedData C component pkgInfo repoUrl
       sbomVulnerabilities st
     = fullFetch C component pkgInfo repoUrl sbomVulnerabilities.
Proof.
  intros Hn (Hnpm & Hpypi & Hmaven & Hvuln & Hgh & Hgh0).
  destruct (Hvuln Hn) as [Hvh Hvs].
  split.
  - unfold isAllDataCached.
    destruct (negb (truthy pkgInfo) || _); [reflexivity|].
    assert (Hg : (if truthy repoUrl
                  then bind (repo_slug repoUrl)
                         (fun slug => Ok (key "github" [slug]))
                  else Ok VNull)
                 = Ok (if truthy repoUrl
                       then match repo_slug repoUrl with
                            | Ok slug => key "github" [slug]
                            | Throw _ => VNull
                            end
                       else VNull)).
    { destruct (truthy repoUrl); [|reflexivity].
      destruct (Hgh eq_refl) as (slug & -> & _); reflexivity. }
    rewrite Hg; cbn [bind]; f_equal; unfold absent_or_cached.
    rewrite Hvh, orb_true_r, andb_true_r.
    apply andb_true_intro; split.
    + destruct (str_eq (member pkgInfo "ecosystem") "npm") eqn:E1.
      { destruct (Hnpm eq_refl) as [-> _]; apply orb_true_r. }
      destruct (str_eq (member pkgInfo "ecosystem") "pypi") eqn:E2.
      { destruct (Hpypi eq_refl eq_refl) as [-> _]; apply orb_true_r. }
      destruct (str_eq (member pkgInfo "ecosystem") "maven") eqn:E3.
      { destruct (Hmaven eq_refl eq_refl eq_refl) as [-> _].
        apply orb_true_r. }
      reflexivity.
    + destruct (truthy repoUrl); [|reflexivity].
      destruct (Hgh eq_refl) as (slug & -> & [-> _]); apply orb_true_r.
  - unfold buildPropertiesFromCachedData, fullFetch, fetch_group.
    unfold JS.get; rewrite Hn; cbn [bind].
    rewrite Hvs.
    assert (Hp : (if str_eq (member pkgInfo "ecosystem") "npm"
                  then fetchNpmData C (member pkgInfo "name")
                  else if str_eq (member pkgInfo "ecosystem") "pypi"
                  then fetchPyPiData C (member pkgInfo "name")
                  else if str_eq (member pkgInfo "ecosystem") "maven"
                  then fetchMavenData C (member pkgInfo "group")
                         (member pkgInfo "name")
                  else Ok VNull)
                 = Ok (if str_eq (member pkgInfo "ecosystem") "npm"
                       then get (key "npm" [member pkgInfo "name"]) st
                       else if str_eq (member pkgInfo "ecosystem") "pypi"
                       then get (key "pypi" [member pkgInfo "name"]) st
                       else if str_eq (member pkgInfo "ecosystem") "maven"
                       then get (key "maven" [member pkgInfo "group";
                                              member pkgInfo "name"]) st
                       else VNull)).
    { destruct (str_eq (member pkgInfo "ecosystem") "npm") eqn:E1.
      { now destruct (Hnpm eq_refl) as [_ ->]. }
      destruct (str_eq (member pkgInfo "ecosystem") "pypi") eqn:E2.
      { now destruct (Hpypi eq_refl eq_refl) as [_ ->]. }
      destruct (str_eq (member pkgInfo "ecosystem") "maven") eqn:E3.
      { now destruct (Hmaven eq_refl eq_refl eq_refl) as [_ ->]. }
      reflexivity. }
    rewrite Hp.
    destruct (truthy repoUrl) eqn:Er.
    + destruct (Hgh eq_refl) as (slug & -> & [_ ->]); cbn [bind].
      rewrite Promise_all_fourth.
      destruct (fetchEol C component pkgInfo); reflexivity.
    + rewrite (Hgh0 eq_refl), Promise_all_fourth; cbn [bind].
      destruct (fetchEol C component pkgInfo); reflexivity.
Qed.

(** Without a package info the synchronous path is taken and fails. *)
Lemma fast_path_without_package_info
  (st : state) (component pkgInfo repoUrl sbomVulnerabilities : value) :
  nullish pkgInfo = true ->
  isAllDataCached component pkgInfo repoUrl st = Ok true
  /\ buildPropertiesFromCachedData C component pkgInfo repoUrl
       sbomVulnerabilities st
     = Throw TypeError.
Proof.
  intros Hn; split.
  - unfold isAllDataCached.
    assert (Ht : truthy pkgInfo = false)
      by (destruct pkgInfo; try discriminate; reflexivity).
    now rewrite Ht.
  - unfold buildPropertiesFromCachedData, JS.get; now rewrite Hn.
Qed.

Lemma checksum_component_present (component vulns : value) (c : string) :
  generateComponentChecksum component vulns = Ok c ->
  nullish component = false.
Proof.
  unfold generateComponentChecksum, componentData, JS.get.
  destruct (nullish component); [discriminate|reflexivity].
Qed.

Lemma getComponentResult_set now component vulns r st c :
  generateComponentChecksum component vulns = Ok c ->
  setComponentResult now component vulns r st
  = Ok (c, set now (VStr c) r st)
  /\ getComponentResult component vulns (set now (VStr c) r st) = Ok r.
Proof.
  intros Hc; unfold setComponentResult, getComponentResult.
  rewrite Hc; cbn [bind]; split; [reflexivity|].
  unfold get, set; rewrite CacheFacts.saveToStorage_cache; simpl.
  now rewrite CacheFacts.map_get_set by apply CacheFacts.same_key_str.
Qed.

(** The start of [fetchComponentData] on a component that has no cached
    result and whose dependencies are not all cached: the result is that
    of the full fetch, cached, or the error properties, cached. *)
Lemma fetchComponentData_miss
  (now : Z) (st : state) (component sbomVulnerabilities : value)
  (pkgInfo repoUrl : value) :
  let vulns := default_param sbomVulnerabilities (VArr []) in
  hasComponentResult component vulns st = Ok false ->
  extractPackageInfo C component = Ok pkgInfo ->
  repoUrlOf component = Ok repoUrl ->
  isAllDataCached component pkgInfo repoUrl st = Ok false ->
  (forall props,
     fullFetch C component pkgInfo repoUrl vulns = Ok props ->
     exists st',
       fetchComponentData C now component sbomVulnerabilities st
       = Ok (props, st')
       /\ getComponentResult component vulns st' = Ok props)
  /\ (forall e,
        fullFetch C component pkgInfo repoUrl vulns = Throw e ->
        nullish (caught e) = false ->
        exists st',
          fetchComponentData C now component sbomVulnerabilities st
          = Ok (errorProps component, st')
          /\ getComponentResult component vulns st'
             = Ok (errorProps component)).
Proof.
  intros vulns Hhit Hpkg Hurl Hall.
  assert (Hc : exists c, generateComponentChecksum component vulns = Ok c).
  { unfold hasComponentResult in Hhit.
    destruct (generateComponentChecksum component vulns) as [c|];
      [eauto|discriminate]. }
  destruct Hc as (c & Hc).
  pose proof (checksum_component_present _ _ _ Hc) as Hcomp.
  split.
  - intros props Hfull.
    destruct (getComponentResult_set now component vulns props st c Hc)
      as [Hset Hget].
    exists (set now (VStr c) props st); split; [|exact Hget].
    unfold fetchComponentData; fold vulns.
    rewrite Hhit; cbn [bind].
    rewrite Hpkg; cbn [bind].
    rewrite Hurl; cbn [bind].
    rewrite Hall; cbn [bind].
    rewrite Hfull; cbn [bind].
    rewrite Hset; reflexivity.
  - intros e Hfull He.
    destruct (getComponentResult_set now component vulns
                (errorProps component) st c Hc) as [Hset Hget].
    exists (set now (VStr c) (errorProps component) st);
      split; [|exact Hget].
    unfold fetchComponentData; fold vulns.
    rewrite Hhit; cbn [bind].
    rewrite Hpkg; cbn [bind].
    rewrite Hurl; cbn [bind].
    rewrite Hall; cbn [bind].
    rewrite Hfull; cbn [bind try_catch].
    unfold logError, JS.get; rewrite Hcomp, He; cbn [bind].
    rewrite Hset; reflexivity.
Qed.

(** C2, as the code has it: the four calls are joined by [Promise.all],
    all or nothing.  On the full fetch, provided that no client throws or
    rejects with [undefined] or [null]: when the four calls fulfil (a
    source may fulfil with [null]) the derivation rules are applied to
    their four values and the resulting properties are returned and
    cached, or, if a derivation step throws, the error properties of the
    [catch] clause; when any one call rejects, nothing is merged, and the
    error properties of the [catch] clause are returned and cached. *)
Theorem fetchComponentData_joins_all_or_nothing
  (now : Z) (st : state) (component sbomVulnerabilities : value)
  (pkgInfo repoUrl : value) :
  let vulns := default_param sbomVulnerabilities (VArr []) in
  let group := fetch_group C component pkgInfo repoUrl in
  hasComponentResult component vulns st = Ok false ->
  extractPackageInfo C component = Ok pkgInfo ->
  repoUrlOf component = Ok repoUrl ->
  isAllDataCached component pkgInfo repoUrl st = Ok false ->
  loggable_clients C ->
  (forall pkgData vulnData ghData eolDate,
     group = [Ok pkgData; Ok vulnData; Ok ghData; Ok eolDate] ->
     exists props st',
       fetchComponentData C now component sbomVulnerabilities st
       = Ok (props, st')
       /\ getComponentResult component vulns st' = Ok props
       /\ ((fullFetch C component pkgInfo repoUrl vulns = Ok props
            /\ member props "Patch Status"
               = VStr (computePatchStatus vulnData pkgInfo pkgData)
            /\ member props "Release Date"
               = js_or (js_or (member pkgData "releaseDate")
                              (member ghData "releaseDate")) (VStr "NA")
            /\ member props "End-of-Life Date" = js_or eolDate (VStr "NA")
            /\ member props "Component Supplier"
               = VStr (determineSupplier pkgData ghData))
           \/ ((exists e,
                  fullFetch C component pkgInfo repoUrl vulns = Throw e)
               /\ props = errorProps component)))
  /\ (forall e,
        In (Throw e) group ->
        exists st',
          fetchComponentData C now component sbomVulnerabilities st
          = Ok (errorProps component, st')
          /\ getComponentResult component vulns st'
             = Ok (errorProps component)).
Proof.
  intros vulns group Hhit Hpkg Hurl Hall HC.
  destruct (fetchComponentData_miss now st component sbomVulnerabilities
              pkgInfo repoUrl Hhit Hpkg Hurl Hall) as [Hok Herr].
  pose proof (tl_fullFetch C component pkgInfo repoUrl vulns HC) as Hlog.
  split.
  - intros pkgData vulnData ghData eolDate Hg.
    destruct (fullFetch C component pkgInfo repoUrl vulns) as [props|e]
      eqn:Hfull.
    + destruct (Hok props Hfull) as (st' & Hf & Hget).
      exists props, st'; split; [exact Hf|split; [exact Hget|left]].
      split; [reflexivity|]; clear Hf Hget Hlog.
      unfold fullFetch in Hfull; fold group in Hfull; rewrite Hg in Hfull.
      rewrite (proj2 (Promise_all_fulfilled _ _
                        [pkgData; vulnData; ghData; eolDate]) eq_refl)
        in Hfull.
      cbn [bind nth] in Hfull.
      destruct (determineCriticalityFromSbom vulns component) as [crit|];
        [|discriminate]; cbn [bind] in Hfull.
      match type of Hfull with
      | bind ?m _ = _ => destruct m as [resolved|]; [|discriminate]
      end; cbn [bind] in Hfull.
      match type of Hfull with
      | bind ?m _ = _ => destruct m as [uid|]; [|discriminate]
      end; cbn [bind] in Hfull.
      injection Hfull as <-.
      match goal with
      | |- context [if truthy ?t then _ else _] => destruct (truthy t)
      end; repeat split; reflexivity.
    + destruct (Herr e Hfull (Hlog e eq_refl)) as (st' & Hf & Hget).
      exists (errorProps component), st'.
      split; [exact Hf|split; [exact Hget|right]]; eauto.
  - intros e Hin.
    destruct (Promise_all_rejects (settles C component) group e Hin)
      as (e' & He' & Hin').
    assert (Hfull : fullFetch C component pkgInfo repoUrl vulns = Throw e').
    { unfold fullFetch; fold group; rewrite He'; reflexivity. }
    exact (Herr e' Hfull (Hlog e' Hfull)).
Qed.
End Orchestration.

Lemma loggable_sample_clients (npm vulnerability : result value) :
  throws_loggably npm -> throws_loggably vulnerability ->
  loggable_clients (Samples.clients npm vulnerability).
Proof.
  intros Hn Hv; repeat split; intros; try exact Hn; try exact Hv;
    intros e H; discriminate H.
Qed.

Lemma fetchComponentData_joins_all_or_nothing_witness :
  exists st',
    fetchComponentData
      (Samples.clients (Throw Samples.network_error)
         (Ok Samples.vulnerable_fixed))
      1700000000010 Samples.lodash Samples.lodash_vulnerabilities
      Samples.empty_state
    = Ok (errorProps Samples.lodash, st')
    /\ getComponentResult Samples.lodash Samples.lodash_vulnerabilities st'
       = Ok (errorProps Samples.lodash).
Proof.
  destruct (fetchComponentData_joins_all_or_nothing
              (Samples.clients (Throw Samples.network_error)
                 (Ok Samples.vulnerable_fixed))
              1700000000010 Samples.empty_state Samples.lodash
              Samples.lodash_vulnerabilities
              (Samples.packageInfo Samples.lodash)
              (VStr "https://github.com/lodash/lodash"))
    as [_ H]; try (vm_compute; reflexivity).
  - apply loggable_sample_clients; intros e He; [|discriminate He].
    injection He as <-; reflexivity.
  - apply (H Samples.network_error); left; reflexivity.
Defined.

Lemma fast_path_equals_full_fetch_witness :
  let C := Samples.clients (Ok Samples.npm_metadata)
             (Ok Samples.vulnerable_fixed) in
  let pkgInfo := Samples.packageInfo Samples.lodash in
  let repoUrl := VStr "https://github.com/lodash/lodash" in
  isAllDataCached Samples.lodash pkgInfo repoUrl Samples.warm_state = Ok true
  /\ buildPropertiesFromCachedData C Samples.lodash pkgInfo repoUrl
       Samples.lodash_vulnerabilities Samples.warm_state
     = fullFetch C Samples.lodash pkgInfo repoUrl
         Samples.lodash_vulnerabilities.
Proof.
  intros C pkgInfo repoUrl.
  apply fast_path_equals_full_fetch; [reflexivity|].
  unfold dependencies_resident, resident.
  split; [intros _; split; vm_compute; reflexivity|].
  split; [intros H; vm_compute in H; discriminate H|].
  split; [intros H; vm_compute in H; discriminate H|].
  split; [intros _; split; vm_compute; reflexivity|].
  split; [|intros H; vm_compute in H; discriminate H].
  intros _; exists (VStr "lodash/lodash").
  split; [vm_compute; reflexivity|split; vm_compute; reflexivity].
Defined.

(** C3, on the code: the synchronous path does not yield what the full
    fetch yields when the package info is [null].  [isAllDataCached]
    answers true for it, and [buildPropertiesFromCachedData] then reads
    [pkgInfo.ecosystem] and throws, whatever is cached; the full fetch
    reads the package info with [?.] throughout and derives a property set.
    So for [lodash] with a [null] package info and its repository entry
    resident, the full fetch reports an open-source supplier while
    [fetchComponentData], which takes the synchronous path, answers the
    error properties. *)
Theorem fast_path_throws_without_package_info :
  (forall (C : collaborators) (st : state)
          (component repoUrl sbomVulnerabilities : value),
     isAllDataCached component VNull repoUrl st = Ok true
     /\ buildPropertiesFromCachedData C component VNull repoUrl
          sbomVulnerabilities st
        = Throw TypeError)
  /\ (let C := Samples.clients_without_package_info in
      let st := Samples.repository_resident in
      let repoUrl := VStr "https://github.com/lodash/lodash" in
      extractPackageInfo C Samples.lodash = Ok VNull
      /\ repoUrlOf Samples.lodash = Ok repoUrl
      /\ dependencies_resident C st VNull repoUrl
      /\ (exists props,
            fullFetch C Samples.lodash VNull repoUrl
              Samples.lodash_vulnerabilities = Ok props
            /\ member props "Component Supplier" = VStr "Open-source")
      /\ Samples.returned
           (fetchComponentData C 1700000000010 Samples.lodash
              Samples.lodash_vulnerabilities st)
         = errorProps Samples.lodash).
Proof.
  split.
  - intros C st component repoUrl sbomVulnerabilities.
    now apply fast_path_without_package_info.
  - cbv zeta; split; [reflexivity|split; [reflexivity|split; [|split]]].
    + unfold dependencies_resident, resident.
      split; [intros H; vm_compute in H; discriminate H|].
      split; [intros _ H; vm_compute in H; discriminate H|].
      split; [intros _ _ H; vm_compute in H; discriminate H|].
      split; [intros H; discriminate H|].
      split; [|intros H; vm_compute in H; discriminate H].
      intros _; exists (VStr "lodash/lodash").
      split; [vm_compute; reflexivity|split; vm_compute; reflexivity].
    + eexists; split; vm_compute; reflexivity.
    + vm_compute; reflexivity.
Qed.

(** C2, as stated, fails when a source rejects: the package registry call
    rejects and the three other calls fulfil, yet nothing of them is
    merged; the error properties are returned.  Had the failing call
    contributed [null], the vulnerability aggregate would have set the
    patch status. *)
Lemma fetchComponentData_rejection_discards_others :
  let run npm :=
    Samples.returned
      (fetchComponentData
         (Samples.clients npm (Ok Samples.vulnerable_fixed))
         1700000000010 Samples.lodash Samples.lodash_vulnerabilities
         Samples.empty_state) in
  run (Throw Samples.network_error) = errorProps Samples.lodash
  /\ member (run (Throw Samples.network_error)) "Patch Status"
     = VStr "Error fetching data"
  /\ member (run (Ok VNull)) "Patch Status"
     = VStr "Update available (>= 4.17.21)"
  /\ run (Throw Samples.network_error) <> run (Ok VNull).
Proof.
  repeat split; try (vm_compute; reflexivity).
  vm_compute; discriminate.
Qed.

End MapperFacts.

(** ** The document-level merge *)

Module MergeFacts.
Import JS Notions App.

Lemma named_present key p :
  present p ->
  named key p = Ok (VBool (strict_eq (member p "name") (VStr key))).
Proof. intros H; unfold named, JS.get; now rewrite H. Qed.

Lemma named_name key p b :
  named key p = Ok b -> b = VBool (strict_eq (member p "name") (VStr key)).
Proof.
  unfold named, JS.get; destruct (nullish p); simpl; [discriminate|].
  now intros [= <-].
Qed.

Lemma strict_eq_names (a : value) (k k' : string) :
  strict_eq a (VStr k') = true -> k <> k' -> strict_eq a (VStr k) = false.
Proof.
  intros H Hne; apply CacheFacts.strict_eq_true in H; subst a; simpl.
  apply String.eqb_neq; congruence.
Qed.

Lemma written_name fetched key k :
  strict_eq (member (written fetched key) "name") (VStr k) = String.eqb key k.
Proof. reflexivity. Qed.

Lemma entries_named_cons k x (l : list value) :
  entries_named k (x :: l)
  = if strict_eq (member x "name") (VStr k)
    then x :: entries_named k l else entries_named k l.
Proof. reflexivity. Qed.

Lemma entries_named_written fetched k key :
  k <> key -> entries_named k [written fetched key] = [].
Proof.
  intros Hne; rewrite entries_named_cons, written_name.
  destruct (String.eqb_spec key k); [congruence|reflexivity].
Qed.

(** Replacing the first entry named [key]: the entries of another name
    stay, and the first entry named [key] becomes the new one. *)
Lemma findIndex_replace fetched key (l : list value) (i : nat) :
  array_findIndex (named key) l = Ok (Some i) ->
  (forall k, k <> key ->
     entries_named k (replace_at i (written fetched key) l)
     = entries_named k l)
  /\ entries_named key (replace_at i (written fetched key) l)
     = written fetched key :: tl (entries_named key l).
Proof.
  revert i; induction l as [|x r IH]; cbn [array_findIndex]; intros i H;
    [discriminate|].
  destruct (named key x) as [b|] eqn:En; cbn [bind] in H; [|discriminate].
  apply named_name in En; subst b; cbn [truthy] in H.
  destruct (strict_eq (member x "name") (VStr key)) eqn:Ex.
  - injection H as <-; cbn [replace_at]; split.
    + intros k Hk; rewrite !entries_named_cons, written_name.
      rewrite (strict_eq_names _ k key Ex Hk).
      destruct (String.eqb_spec key k); [congruence|reflexivity].
    + rewrite !entries_named_cons, written_name, Ex, String.eqb_refl.
      reflexivity.
  - destruct (array_findIndex (named key) r) as [[j|]|] eqn:Er;
      cbn [bind option_map] in H; try discriminate.
    injection H as <-; destruct (IH j eq_refl) as [IH1 IH2];
      cbn [replace_at]; split.
    + intros k Hk; rewrite !entries_named_cons.
      now rewrite (IH1 k Hk).
    + rewrite !entries_named_cons, Ex; exact IH2.
Qed.

Lemma findIndex_none key (l : list value) :
  array_findIndex (named key) l = Ok None -> entries_named key l = [].
Proof.
  induction l as [|x r IH]; cbn [array_findIndex]; intros H; [reflexivity|].
  destruct (named key x) as [b|] eqn:En; cbn [bind] in H; [|discriminate].
  apply named_name in En; subst b; cbn [truthy] in H.
  destruct (strict_eq (member x "name") (VStr key)) eqn:Ex;
    [discriminate|].
  destruct (array_findIndex (named key) r) as [[j|]|];
    cbn [bind option_map] in H; try discriminate.
  rewrite entries_named_cons, Ex; auto.
Qed.

Lemma entries_named_app k (l1 l2 : list value) :
  entries_named k (List.app l1 l2)
  = List.app (entries_named k l1) (entries_named k l2).
Proof. apply filter_app. Qed.

Lemma merge_key_skip fetched props key :
  writes fetched key = false -> merge_key fetched props key = Ok props.
Proof. unfold writes, merge_key; now intros ->. Qed.

Lemma merge_key_other fetched props props' key k :
  merge_key fetched props key = Ok props' -> k <> key ->
  entries_named k props' = entries_named k props.
Proof.
  unfold merge_key; intros H Hk.
  destruct (truthy _ && _); [|now injection H as <-].
  destruct (array_findIndex (named key) props) as [[i|]|] eqn:E;
    simpl in H; try discriminate; injection H as <-.
  - now apply (findIndex_replace fetched key props i E).
  - rewrite entries_named_app.
    change (entries_named k [_]) with (entries_named k [written fetched key]).
    rewrite entries_named_written by assumption.
    apply app_nil_r.
Qed.

Lemma merge_key_same fetched props props' key :
  merge_key fetched props key = Ok props' -> writes fetched key = true ->
  entries_named key props'
  = written fetched key :: tl (entries_named key props).
Proof.
  unfold merge_key, writes; intros H Hw; rewrite Hw in H.
  destruct (array_findIndex (named key) props) as [[i|]|] eqn:E;
    simpl in H; try discriminate; injection H as <-.
  - now apply (findIndex_replace fetched key props i E).
  - rewrite entries_named_app, (findIndex_none _ _ E).
    change (entries_named key [_])
      with (entries_named key [written fetched key]).
    rewrite entries_named_cons, written_name, String.eqb_refl.
    reflexivity.
Qed.

Lemma forEach_key_unchanged fetched k (keys : list string) :
  writes fetched k = false \/ ~ In k keys ->
  forall props props',
    forEach_key fetched props keys = Ok props' ->
    entries_named k props' = entries_named k props.
Proof.
  induction keys as [|key r IH]; simpl; intros Hk props props' H.
  - now injection H as <-.
  - destruct (merge_key fetched props key) as [props1|] eqn:E;
      simpl in H; [|discriminate].
    rewrite (IH (ltac:(tauto)) _ _ H).
    destruct (String.eqb_spec k key) as [->|Hne].
    + destruct Hk as [Hw|Hn]; [|tauto].
      rewrite (merge_key_skip _ _ _ Hw) in E; now injection E as <-.
    + exact (merge_key_other _ _ _ _ _ E Hne).
Qed.

Lemma forEach_key_written fetched k (keys : list string) :
  writes fetched k = true -> NoDup keys -> In k keys ->
  forall props props',
    forEach_key fetched props keys = Ok props' ->
    entries_named k props'
    = written fetched k :: tl (entries_named k props).
Proof.
  intros Hw; induction keys as [|key r IH]; simpl;
    intros Hnd Hin props props' H; [contradiction|].
  destruct (merge_key fetched props key) as [props1|] eqn:E;
    simpl in H; [|discriminate].
  inversion Hnd as [|? ? Hnot Hnd']; subst.
  destruct (String.eqb_spec k key) as [->|Hne].
  - rewrite (forEach_key_unchanged fetched key r (or_intror Hnot) _ _ H).
    exact (merge_key_same _ _ _ _ E Hw).
  - destruct Hin as [->|Hin]; [congruence|].
    rewrite (IH Hnd' Hin _ _ H).
    now rewrite (merge_key_other _ _ _ _ _ E Hne).
Qed.

Lemma findIndex_total key (l : list value) :
  Forall present l -> exists i, array_findIndex (named key) l = Ok i.
Proof.
  induction 1 as [|x r Hx _ IH]; simpl; [eauto|].
  rewrite (named_present _ _ Hx); simpl.
  destruct (strict_eq _ _); [eauto|].
  destruct IH as (i & ->); simpl; eauto.
Qed.

Lemma replace_at_present i x (l : list value) :
  present x -> Forall present l -> Forall present (replace_at i x l).
Proof.
  intros Hx H; revert i; induction H as [|y r Hy Hr IH]; intros [|i]; simpl;
    try constructor; auto.
Qed.

Lemma merge_key_total fetched props key :
  Forall present props ->
  exists props', merge_key fetched props key = Ok props'
                 /\ Forall present props'.
Proof.
  intros H; unfold merge_key.
  destruct (truthy _ && _); [|eauto].
  destruct (findIndex_total key props H) as ([i|] & ->); simpl.
  - eexists; split; [reflexivity|].
    now apply replace_at_present.
  - eexists; split; [reflexivity|].
    apply Forall_app; split; [assumption|].
    now constructor.
Qed.

Lemma forEach_key_total fetched (keys : list string) :
  forall props, Forall present props ->
  exists props', forEach_key fetched props keys = Ok props'.
Proof.
  induction keys as [|key r IH]; simpl; intros props H; [eauto|].
  destruct (merge_key_total fetched props key H) as (props1 & -> & H1).
  simpl; auto.
Qed.

Lemma lookup_set_prop_other k f x (o : list (string * value)) :
  f <> k -> lookup f (set_prop k x o) = lookup f o.
Proof.
  intros Hne; induction o as [|[k' y] r IH]; simpl.
  - destruct (String.eqb_spec k f); [congruence|reflexivity].
  - destruct (String.eqb_spec k' k) as [->|Hk]; simpl.
    + destruct (String.eqb_spec k f); [congruence|reflexivity].
    + now rewrite IH.
Qed.

Lemma lookup_set_prop_same k x (o : list (string * value)) :
  lookup k (set_prop k x o) = Some x.
Proof.
  induction o as [|[k' y] r IH]; simpl.
  - now rewrite String.eqb_refl.
  - destruct (String.eqb_spec k' k) as [->|Hk]; simpl.
    + now rewrite String.eqb_refl.
    + destruct (String.eqb_spec k' k); [congruence|assumption].
Qed.

(** C9: the merge of a derived property set into a component (whose
    properties list has no [null] entry) returns a component in which
    every field other than [properties] is as before, the entries of a
    name whose derived value is absent (falsy) or ["NA"] are as before, and
    for a CERT-In name whose derived value is present and not ["NA"] the
    first entry of that name carries the derived value. *)
Theorem merge_component_frame (o : list (string * value)) (result : value) :
  let c := VObj o in
  let fetched := js_or result (VObj []) in
  Forall present (properties_of c) ->
  exists merged,
    merge_component c result = Ok merged
    /\ (forall f, f <> "properties" -> member merged f = member c f)
    /\ (forall key,
          truthy (member fetched key) = false
          \/ member fetched key = VStr "NA" ->
          entries_named key (properties_of merged)
          = entries_named key (properties_of c))
    /\ (forall key,
          In key CERT_IN_PROPERTIES -> writes fetched key = true ->
          entries_named key (properties_of merged)
          = written fetched key :: tl (entries_named key (properties_of c))).
Proof.
  intros c fetched Hp.
  unfold merge_component; fold fetched; unfold c, JS.get; cbn [nullish bind].
  change (match member (VObj o) "properties" with
          | VArr l => l
          | _ => []
          end) with (properties_of c).
  destruct (forEach_key_total fetched CERT_IN_PROPERTIES _ Hp)
    as (newProps & E).
  rewrite E; cbn [bind own_props].
  eexists; split; [reflexivity|].
  assert (Hprops : properties_of
                     (VObj (set_prop "properties" (VArr newProps) o))
                   = newProps).
  { unfold properties_of; simpl; now rewrite lookup_set_prop_same. }
  repeat split.
  - intros f Hf; simpl; now rewrite lookup_set_prop_other.
  - intros key Hkey; rewrite Hprops.
    apply (forEach_key_unchanged fetched key CERT_IN_PROPERTIES);
      [left|exact E].
    unfold writes; destruct Hkey as [-> | ->]; reflexivity.
  - intros key Hin Hw; rewrite Hprops.
    apply (forEach_key_written fetched key CERT_IN_PROPERTIES); auto.
    unfold CERT_IN_PROPERTIES.
    repeat (constructor; [simpl; intuition discriminate|]); constructor.
Qed.

Lemma merge_component_frame_witness :
  exists merged,
    merge_component Samples.lodash_uploaded Samples.derived = Ok merged
    /\ member merged "version" = VStr "4.17.20"
    /\ entries_named "Release Date" (properties_of merged)
       = [VObj [("name", VStr "Release Date"); ("value", VStr "2020-08-13")]]
    /\ entries_named "Criticality" (properties_of merged)
       = [VObj [("name", VStr "Criticality"); ("value", VStr "NA")]]
    /\ entries_named "Patch Status" (properties_of merged)
       = [VObj [("name", VStr "Patch Status");
                ("value", VStr "Update available (>= 4.17.21)")]].
Proof.
  unfold Samples.lodash_uploaded.
  match goal with
  | |- context [merge_component (VObj ?o) _] =>
      destruct (merge_component_frame o Samples.derived)
        as (merged & Hm & Hf & Hu & Hw)
  end.
  - repeat constructor.
  - exists merged; split; [exact Hm|].
    split; [rewrite Hf by discriminate; reflexivity|].
    split; [rewrite Hu by (right; reflexivity); reflexivity|].
    split; [rewrite Hu by (left; reflexivity); reflexivity|].
    rewrite Hw; [reflexivity|simpl; tauto|reflexivity].
Defined.

End MergeFacts.

(** ** More on the cache *)

Module CacheMoreFacts.
Import JS Notions CacheService CacheFacts.

Lemma map_get_set_other (k k' v : value) (m : Map) :
  same_key k k' = false -> map_get k' (map_set k v m) = map_get k' m.
Proof.
  intros Hk; induction m as [|[k0 v0] r IH]; simpl.
  - now rewrite Hk.
  - destruct (same_key k0 k) eqn:E; simpl; [|now rewrite IH].
    apply strict_eq_true in E; subst k0; now rewrite Hk.
Qed.

Lemma same_key_str_neq (a b : string) :
  a <> b -> same_key (VStr a) (VStr b) = false.
Proof. intros H; simpl; now apply String.eqb_neq. Qed.

(** X1: [set] then [get] returns the value written, whether or not the
    write-through to the storage succeeded; the last write wins and the other
    keys keep their values. *)
Theorem set_get_round_trip
  (st : state) (now now' : Z) (k k' : string) (v v' : value) :
  k' <> k ->
  get (VStr k) (set now (VStr k) v st) = v
  /\ has (VStr k) (set now (VStr k) v st) = true
  /\ get (VStr k) (set now' (VStr k) v' (set now (VStr k) v st)) = v'
  /\ get (VStr k') (set now (VStr k) v st) = get (VStr k') st
  /\ has (VStr k') (set now (VStr k) v st) = has (VStr k') st.
Proof.
  intros Hk; unfold get, has, set.
  repeat (rewrite saveToStorage_cache; cbn [cache with_cache]).
  repeat split.
  - apply map_get_set, same_key_str.
  - apply map_has_set, same_key_str.
  - apply map_get_set, same_key_str.
  - apply map_get_set_other, same_key_str_neq; congruence.
  - apply map_has_set_other, same_key_str_neq; congruence.
Qed.

Lemma set_get_round_trip_witness :
  get (VStr "npm:lodash")
    (set 7 (VStr "npm:lodash") Samples.npm_metadata Samples.empty_state)
  = Samples.npm_metadata
  /\ get (VStr "npm:express")
       (set 7 (VStr "npm:lodash") Samples.npm_metadata Samples.empty_state)
     = VUndef.
Proof.
  destruct (set_get_round_trip Samples.empty_state 7 7 "npm:lodash"
              "npm:express" Samples.npm_metadata VNull ltac:(discriminate))
    as (H1 & _ & _ & H4 & _).
  split; [exact H1 | exact H4].
Defined.

Lemma map_set_fresh (k v : value) (m : Map) :
  map_has k m = false -> map_set k v m = List.app m [(k, v)].
Proof.
  induction m as [|[k0 v0] r IH]; simpl; [reflexivity|].
  intros H; apply orb_false_elim in H as [H1 H2].
  now rewrite H1, IH.
Qed.

Lemma map_has_app (k : value) (m1 m2 : Map) :
  map_has k (List.app m1 m2) = map_has k m1 || map_has k m2.
Proof.
  induction m1 as [|[k0 v0] r IH]; simpl; [reflexivity|].
  now rewrite IH, orb_assoc.
Qed.

Lemma map_wf_app_cons (acc : Map) (k v : value) (r : Map) :
  map_wf (List.app acc ((k, v) :: r)) = true ->
  map_has k acc = false
  /\ map_wf (List.app (List.app acc [(k, v)]) r) = true.
Proof.
  intros H; split.
  - induction acc as [|[k0 v0] a IH]; simpl in *; [reflexivity|].
    apply andb_prop in H as [Hn Hw].
    rewrite (IH Hw), orb_false_r.
    apply negb_true_iff in Hn; rewrite map_has_app in Hn.
    apply orb_false_elim in Hn as [_ Hn]; simpl in Hn.
    apply orb_false_elim in Hn as [Hn _].
    unfold same_key in *; now rewrite strict_eq_sym.
  - now rewrite <- app_assoc.
Qed.

(** [new Map] of the entries of a [Map] with distinct keys is that
    [Map]. *)
Lemma map_of_entries_round_trip (m acc : Map) :
  map_wf (List.app acc m) = true ->
  map_of_entries (map_entries m) acc = Ok (List.app acc m).
Proof.
  revert acc; induction m as [|[k v] r IH]; intros acc H; simpl.
  - now rewrite app_nil_r.
  - destruct (map_wf_app_cons acc k v r H) as [Hk Hw].
    change (member (VArr [k; v]) "0") with k.
    change (member (VArr [k; v]) "1") with v.
    rewrite (map_set_fresh _ _ _ Hk), (IH _ Hw).
    now rewrite <- app_assoc.
Qed.

Lemma stringify_object_not_empty (o : list (string * value)) (s : string) :
  JSON_stringify (VObj o) = Some s -> s <> "".
Proof. unfold JSON_stringify; simpl; intros [= <-]; discriminate. Qed.

(** X2: A snapshot that [saveToStorage] wrote is restored by a constructor
    that runs less than 24 hours later: the cache is the one that was saved,
    entry for entry and in the same order, provided the host's [JSON.parse]
    gives back the object that was serialized, and the snapshot was not
    written at clock reading 0. *)
Theorem saveToStorage_constructor_round_trip
  (JSON_parse : string -> option value)
  (st : state) (now now' : Z) (s : string) :
  map_wf (cache st) = true ->
  item (storage (saveToStorage now st)) = Some s ->
  JSON_stringify (snapshot_of now st) = Some s ->
  JSON_parse s = Some (snapshot_of now st) ->
  now <> 0 ->
  now' - now < maxCacheAge ->
  let st' := constructor JSON_parse now' (storage (saveToStorage now st)) in
  cache st' = cache st
  /\ sessionStartTime st' = js_or (sessionStartTime st) (VNum now')
  /\ storage st' = storage (saveToStorage now st).
Proof.
  intros Hwf Hitem Hs Hp Hnow Hage st'.
  pose proof (stringify_object_not_empty _ _ Hs) as Hne.
  unfold st', constructor, loadFromStorage; simpl.
  rewrite Hitem; unfold parse; rewrite Hp; simpl.
  destruct (String.eqb_spec s ""); [contradiction|]; simpl.
  destruct (now =? 0) eqn:E0; [apply Z.eqb_eq in E0; contradiction|].
  destruct (now' - now <? maxCacheAge) eqn:E1;
    [|apply Z.ltb_ge in E1; lia].
  simpl; unfold new_Map; simpl.
  rewrite (map_of_entries_round_trip (cache st) []) by assumption.
  simpl; auto.
Qed.

Lemma saveToStorage_constructor_round_trip_witness :
  cache (constructor Json.parse 1700000099999
           (storage (saveToStorage 1700000000004 Samples.warm_state)))
  = cache Samples.warm_state.
Proof.
  set (s := match item (storage (saveToStorage 1700000000004
                                   Samples.warm_state)) with
            | Some s => s
            | None => ""
            end).
  destruct (saveToStorage_constructor_round_trip Json.parse
              Samples.warm_state 1700000000004 1700000099999
              (ltac:(let x := eval vm_compute in s in exact x)))
    as (H & _ & _);
    [ reflexivity | vm_compute; reflexivity | vm_compute; reflexivity
    | vm_compute; reflexivity | discriminate | vm_compute; reflexivity
    | exact H ].
Defined.

(** X3: The constructor loads a stored item whole or not at all: either the
    item parses, [new Map] accepts its [cache] and the cache is that whole
    [Map], with the item kept; or the cache starts empty and the item is
    removed. *)
Theorem constructor_all_or_nothing
  (JSON_parse : string -> option value) (now : Z) (ls : localStorage)
  (raw : string) :
  item ls = Some raw ->
  raw <> "" ->
  let st := constructor JSON_parse now ls in
  (cache st = [] /\ item (storage st) = None
   /\ sessionStartTime st = VNum now)
  \/ (exists data m,
        JSON_parse raw = Some data
        /\ new_Map (js_or (member data "cache") (VArr [])) = Ok m
        /\ truthy (member data "timestamp") = true
        /\ cache st = m /\ storage st = ls).
Proof.
  intros Hraw Hne st; unfold st, constructor, loadFromStorage, parse; simpl.
  rewrite Hraw.
  destruct (String.eqb_spec raw ""); [contradiction|]; simpl.
  destruct (JSON_parse raw) as [data|]; simpl; [|auto].
  unfold JS.get; destruct (nullish data) eqn:En; simpl; [auto|].
  destruct (truthy (member data "timestamp")) eqn:Et; simpl; [|auto].
  destruct (num_lt _ _); [|auto].
  destruct (new_Map _) as [m|] eqn:Em; simpl; [|auto].
  right; exists data, m; auto.
Qed.

Lemma constructor_all_or_nothing_witness :
  let st := constructor Json.parse (999 + maxCacheAge)
              (Samples.storage_with Samples.snapshot) in
  (cache st = [] /\ item (storage st) = None
   /\ sessionStartTime st = VNum (999 + maxCacheAge))
  \/ (exists data m,
        Json.parse Samples.snapshot = Some data
        /\ new_Map (js_or (member data "cache") (VArr [])) = Ok m
        /\ truthy (member data "timestamp") = true
        /\ cache st = m
        /\ storage st = Samples.storage_with Samples.snapshot).
Proof.
  apply (constructor_all_or_nothing Json.parse (999 + maxCacheAge)
           (Samples.storage_with Samples.snapshot) Samples.snapshot eq_refl).
  discriminate.
Defined.

(** [clear] and [forceClear] empty the cache and remove the stored item,
    so that no key is found any more and a constructor that runs on the
    storage afterwards starts with an empty cache. *)
Theorem clear_forgets_everything
  (JSON_parse : string -> option value) (st : state) (now now' : Z)
  (k : value) :
  let st' := clear now st in
  has k st' = false
  /\ get k st' = VUndef
  /\ size (getStats now' st') = O
  /\ item (storage st') = None
  /\ cache (constructor JSON_parse now' (storage st')) = []
  /\ forceClear now st = st'.
Proof. repeat split. Qed.

Lemma to_int32_shift (a k : Z) : to_int32 (a + 2 ^ 32 * k) = to_int32 a.
Proof.
  unfold to_int32.
  replace (a + 2 ^ 32 * k + 2 ^ 31) with (a + 2 ^ 31 + k * 2 ^ 32) by lia.
  now rewrite Z_mod_plus_full.
Qed.

Lemma to_int32_decompose (a : Z) : exists k, to_int32 a = a + 2 ^ 32 * k.
Proof.
  exists (- ((a + 2 ^ 31) / 2 ^ 32)); unfold to_int32.
  rewrite Z.mod_eq by lia; lia.
Qed.

Lemma to_int32_range (a : Z) : - 2 ^ 31 <= to_int32 a < 2 ^ 31.
Proof.
  unfold to_int32.
  pose proof (Z.mod_pos_bound (a + 2 ^ 31) (2 ^ 32) ltac:(lia)); lia.
Qed.

Lemma hash_step_poly (x : Z) (c : ascii) :
  hash_step (to_int32 x) c = to_int32 (31 * x + char_code c).
Proof.
  unfold hash_step, shl32.
  destruct (to_int32_decompose x) as (k1 & E1).
  destruct (to_int32_decompose (to_int32 x)) as (k2 & E2).
  destruct (to_int32_decompose (to_int32 (to_int32 x) * 2 ^ 5))
    as (k3 & E3).
  rewrite E3, E2, E1.
  replace ((x + 2 ^ 32 * k1 + 2 ^ 32 * k2) * 2 ^ 5 + 2 ^ 32 * k3
           - (x + 2 ^ 32 * k1) + char_code c)
    with (31 * x + char_code c
          + 2 ^ 32 * (32 * k1 + 32 * k2 + k3 - k1)) by lia.
  apply to_int32_shift.
Qed.

(** X4: The digest of the checksums is the polynomial of base 31 over the code
    units of the serialized text, reduced to a signed 32-bit integer: it has
    at most [2 ^ 32] values, whatever the size of the input. *)
Theorem string_hash_polynomial (dataString : string) :
  string_hash dataString = to_int32 (poly31 dataString)
  /\ - 2 ^ 31 <= string_hash dataString < 2 ^ 31.
Proof.
  assert (H : forall l x,
             fold_left hash_step l (to_int32 x)
             = to_int32 (fold_left (fun acc c => 31 * acc + char_code c)
                           l x)).
  { induction l as [|c r IH]; intros x; simpl; [reflexivity|].
    now rewrite hash_step_poly, IH. }
  assert (E : string_hash dataString = to_int32 (poly31 dataString)).
  { unfold string_hash, poly31.
    change 0 with (to_int32 0) at 1; apply H. }
  split; [exact E|rewrite E; apply to_int32_range].
Qed.

Lemma checksum_of_prefix prefix data c :
  checksum_of prefix data = Ok c ->
  exists digest, c = prefix ++ digest.
Proof.
  unfold checksum_of; destruct (JSON_stringify_keys _ _); [|discriminate].
  intros [= <-]; eauto.
Qed.

Lemma component_checksum_prefix component vulns c :
  generateComponentChecksum component vulns = Ok c ->
  exists digest, c = "component:" ++ digest.
Proof.
  unfold generateComponentChecksum.
  destruct (componentData component vulns); [|discriminate]; simpl.
  apply checksum_of_prefix.
Qed.

Lemma file_checksum_prefix sbomData c :
  generateFileChecksum sbomData = Ok c ->
  exists digest, c = "file:" ++ digest.
Proof.
  unfold generateFileChecksum.
  destruct (fileData sbomData); [|discriminate]; simpl.
  apply checksum_of_prefix.
Qed.

(** X5: A result stored with [setComponentResult] is found again by
    [hasComponentResult] and [getComponentResult], also when they are called
    with a component and a vulnerability list that are merely field-equal to
    the ones of the write (their keys in another order). *)
Theorem component_result_round_trip
  (st : state) (now : Z) (o1 o2 : list (string * value))
  (vs1 vs2 r : value) (c : string) (st' : state) :
  (forall f, In f relevant_fields ->
             field_equal (member (VObj o1) f) (member (VObj o2) f)) ->
  field_equal vs1 vs2 ->
  setComponentResult now (VObj o1) vs1 r st = Ok (c, st') ->
  hasComponentResult (VObj o2) vs2 st' = Ok true
  /\ getComponentResult (VObj o2) vs2 st' = Ok r.
Proof.
  intros Hc Hv Hset.
  assert (E : generateComponentChecksum (VObj o1) vs1
              = generateComponentChecksum (VObj o2) vs2).
  { apply (FingerprintFacts.generateComponentChecksum_same (fun _ => True));
      auto. }
  unfold setComponentResult in Hset.
  unfold hasComponentResult, getComponentResult; rewrite <- E.
  destruct (generateComponentChecksum (VObj o1) vs1) as [c'|];
    [|discriminate]; simpl in *.
  injection Hset as <- <-.
  unfold has, get, set; rewrite saveToStorage_cache; simpl.
  rewrite map_has_set, map_get_set by apply same_key_str; auto.
Qed.

Lemma component_result_round_trip_witness :
  exists c st',
    setComponentResult 7 Samples.lodash Samples.lodash_vulnerabilities
      Samples.derived Samples.empty_state = Ok (c, st')
    /\ getComponentResult Samples.lodash_reordered
         (VArr [Samples.lodash_vulnerability_reordered "HIGH"]) st'
       = Ok Samples.derived.
Proof.
  destruct (setComponentResult 7 Samples.lodash
              Samples.lodash_vulnerabilities Samples.derived
              Samples.empty_state) as [[c st']|] eqn:E;
    [|vm_compute in E; discriminate E].
  exists c, st'; split; [reflexivity|].
  unfold Samples.lodash, Samples.lodash_reordered in *.
  eapply (component_result_round_trip Samples.empty_state 7);
    [| |exact E].
  - intros f Hf; simpl in Hf.
    repeat (destruct Hf as [<-|Hf]; [unfold field_equal; same_values|]).
    destruct Hf.
  - unfold field_equal, Samples.lodash_vulnerabilities,
      Samples.lodash_vulnerability, Samples.lodash_vulnerability_reordered.
    same_values.
Defined.

(** X6: A document result stored with [setFileResult] is found again by
    [hasFileResult] and [getFileResult], and it stays in place when component
    results are stored afterwards: a component fingerprint starts with
    [component:] and a document fingerprint with [file:], so the two kinds of
    key never meet. *)
Theorem file_result_survives_component_results
  (st : state) (now now' : Z) (sbomData processed : value)
  (component vulns r : value) (c c' : string) (st1 st2 : state) :
  setFileResult now sbomData processed st = Ok (c, st1) ->
  setComponentResult now' component vulns r st1 = Ok (c', st2) ->
  c <> c'
  /\ hasFileResult sbomData st1 = Ok true
  /\ getFileResult sbomData st1 = Ok processed
  /\ hasFileResult sbomData st2 = Ok true
  /\ getFileResult sbomData st2 = Ok processed.
Proof.
  unfold setFileResult, setComponentResult, hasFileResult, getFileResult.
  destruct (generateFileChecksum sbomData) as [f|] eqn:Ef;
    [|discriminate]; simpl.
  destruct (generateComponentChecksum component vulns) as [g|] eqn:Eg;
    [|discriminate]; simpl.
  intros [= <- <-] [= <- <-].
  destruct (file_checksum_prefix _ _ Ef) as (d1 & ->).
  destruct (component_checksum_prefix _ _ _ Eg) as (d2 & ->).
  assert (Hne : "file:" ++ d1 <> "component:" ++ d2) by discriminate.
  split; [exact Hne|].
  unfold has, get, set.
  repeat (rewrite saveToStorage_cache; cbn [cache with_cache]).
  assert (Hk : same_key (VStr ("component:" ++ d2)) (VStr ("file:" ++ d1))
               = false) by reflexivity.
  rewrite (map_has_set_other _ _ _ _ Hk), (map_get_set_other _ _ _ _ Hk).
  rewrite map_has_set, map_get_set by apply same_key_str; auto.
Qed.

Lemma file_result_survives_component_results_witness :
  exists c c' st1 st2,
    setFileResult 7 (Samples.document Samples.lodash "LOW" "2024")
      (VArr [Samples.lodash_uploaded]) Samples.empty_state = Ok (c, st1)
    /\ setComponentResult 8 Samples.lodash Samples.lodash_vulnerabilities
         Samples.derived st1 = Ok (c', st2)
    /\ getFileResult (Samples.document Samples.lodash "LOW" "2024") st2
       = Ok (VArr [Samples.lodash_uploaded]).
Proof.
  destruct (setFileResult 7 (Samples.document Samples.lodash "LOW" "2024")
              (VArr [Samples.lodash_uploaded]) Samples.empty_state)
    as [[c st1]|] eqn:E1; [|vm_compute in E1; discriminate E1].
  destruct (setComponentResult 8 Samples.lodash
              Samples.lodash_vulnerabilities Samples.derived st1)
    as [[c' st2]|] eqn:E2.
  - exists c, c', st1, st2; split; [reflexivity|split; [exact E2|]].
    exact (proj2 (proj2 (proj2 (proj2
             (file_result_survives_component_results _ _ _ _ _ _ _ _ _ _
                _ _ E1 E2))))).
  - exfalso; unfold setComponentResult in E2.
    destruct (generateComponentChecksum Samples.lodash
                Samples.lodash_vulnerabilities) eqn:Eg;
      [discriminate E2|vm_compute in Eg; discriminate Eg].
Defined.

(** X7: [getWithTTL] of a key that is not in the cache answers [null] and
    changes nothing. [getWithTTL] of a key written by the plain [set] answers
    the [value] property of what was stored, not what was stored (it expects
    the wrapper of [setWithTTL]), and does not delete it as long as the stored
    value has no positive [ttl]. *)
Theorem getWithTTL_without_wrapper
  (st : state) (now now' : Z) (k : string) (v : value) :
  (has (VStr k) st = false -> getWithTTL now' (VStr k) st = (VNull, st))
  /\ (truthy v = true ->
      num_gt (to_number (member v "ttl")) (Int 0) = false ->
      getWithTTL now' (VStr k) (set now (VStr k) v st)
      = (member v "value", set now (VStr k) v st)).
Proof.
  split.
  - intros Hhas; unfold getWithTTL, has in *.
    assert (E : map_get (VStr k) (cache st) = VUndef).
    { induction (cache st) as [|[k0 v0] r IH]; simpl in *; [reflexivity|].
      apply orb_false_elim in Hhas as [-> H2]; auto. }
    now rewrite E.
  - intros Hv Httl; unfold getWithTTL.
    assert (E : map_get (VStr k) (cache (set now (VStr k) v st)) = v).
    { unfold set; rewrite saveToStorage_cache; simpl.
      apply map_get_set, same_key_str. }
    now rewrite E, Hv, Httl.
Qed.

Lemma getWithTTL_without_wrapper_witness :
  getWithTTL 9 (VStr "npm:lodash") Samples.empty_state
  = (VNull, Samples.empty_state)
  /\ fst (getWithTTL 9 (VStr "npm:lodash")
            (set 7 (VStr "npm:lodash") Samples.npm_metadata
               Samples.empty_state))
     = VUndef.
Proof.
  destruct (getWithTTL_without_wrapper Samples.empty_state 7 9 "npm:lodash"
              Samples.npm_metadata) as [H1 H2].
  split; [exact (H1 eq_refl)|].
  now rewrite (H2 eq_refl eq_refl).
Defined.

(** The conversion of texts to numbers on some literals, and an entry
    whose [ttl] is the text of a positive number: it expires. *)
Lemma string_to_number_literals :
  string_to_number "1e3" = Int 1000
  /\ string_to_number "0x10" = Int 16
  /\ string_to_number " 10.0 " = Int 10
  /\ string_to_number "-7.5" = Frac (-15 # 2)
  /\ string_to_number "Infinity" = Inf false
  /\ string_to_number "" = Int 0
  /\ string_to_number "12px" = NaN
  /\ string_to_number "-0x10" = NaN.
Proof. repeat split; vm_compute; reflexivity. Qed.

Lemma getWithTTL_expires_textual_ttl :
  let entry := VObj [("value", VStr "v"); ("timestamp", VNum 0);
                     ("ttl", VStr "1e3")] in
  let st := set 7 (VStr "k") entry Samples.empty_state in
  fst (getWithTTL 1000 (VStr "k") st) = VStr "v"
  /\ fst (getWithTTL 1001 (VStr "k") st) = VNull
  /\ has (VStr "k") (snd (getWithTTL 1001 (VStr "k") st)) = false.
Proof. repeat split; vm_compute; reflexivity. Qed.

(** X8: An entry written by [setWithTTL] without a [ttl], or with a [ttl] that
    is zero or negative, never expires. *)
Theorem setWithTTL_without_positive_ttl_never_expires
  (st : state) (t0 t1 : Z) (k : string) (v ttl : value) :
  ttl = VUndef \/ (exists n, ttl = VNum n /\ n <= 0) ->
  let st' := setWithTTL t0 (VStr k) v ttl st in
  getWithTTL t1 (VStr k) st' = (v, st').
Proof.
  intros Httl st'; unfold getWithTTL.
  assert (E : map_get (VStr k) (cache st')
              = VObj [("value", v); ("timestamp", VNum t0);
                      ("ttl", default_param ttl (VNum 0))]).
  { unfold st', setWithTTL; rewrite saveToStorage_cache; simpl.
    apply map_get_set, same_key_str. }
  rewrite E; simpl.
  destruct Httl as [-> | (n & -> & Hn)]; simpl; [reflexivity|].
  destruct (n >? 0) eqn:En; [|reflexivity].
  rewrite Z.gtb_ltb in En; apply Z.ltb_lt in En; lia.
Qed.

Lemma setWithTTL_without_positive_ttl_never_expires_witness :
  fst (getWithTTL (100 + 365 * maxCacheAge) (VStr "k")
         (setWithTTL 100 (VStr "k") (VStr "v") VUndef Samples.empty_state))
  = VStr "v".
Proof.
  now rewrite (setWithTTL_without_positive_ttl_never_expires
                 Samples.empty_state 100 (100 + 365 * maxCacheAge) "k"
                 (VStr "v") VUndef (or_introl eq_refl)).
Defined.

Lemma append_assoc (a b c : string) : (a ++ b) ++ c = a ++ (b ++ c).
Proof. induction a; simpl; congruence. Qed.

(** X9: [generateKey] joins its parameters with a colon and does not escape
    them: a colon inside a parameter is not told from the separator, and
    [null] and [undefined] parameters are the empty string, so different
    parameter lists can give the same key. *)
Theorem generateKey_is_not_injective (type : value) (a b c : string) :
  generateKey type [VStr (a ++ ":" ++ b); VStr c]
  = generateKey type [VStr a; VStr (b ++ ":" ++ c)]
  /\ generateKey type [VNull; VStr c] = generateKey type [VStr ""; VStr c]
  /\ generateKey type [VUndef; VStr c] = generateKey type [VStr ""; VStr c].
Proof.
  unfold generateKey, array_join; simpl; repeat split.
  now rewrite !append_assoc.
Qed.

End CacheMoreFacts.


(** ** More on the fetch orchestration *)

Module OrchestrationFacts.
Import JS Notions CacheService PropertyMapperService CacheFacts MapperFacts.
Import PromiseFacts LoggingFacts.

(** What a call of [fetchComponentData] that returns has done: it found
    the result in the cache and left the state as it was, or it stored
    what it returns under the component's fingerprint. *)
Lemma fetchComponentData_returns C now component vulns st props st' :
  fetchComponentData C now component vulns st = Ok (props, st') ->
  let vulns' := default_param vulns (VArr []) in
  exists c,
    generateComponentChecksum component vulns' = Ok c
    /\ ((has (VStr c) st = true /\ props = get (VStr c) st /\ st' = st)
        \/ st' = set now (VStr c) props st).
Proof.
  intros H vulns'; unfold fetchComponentData in H; fold vulns' in H.
  unfold hasComponentResult, getComponentResult, setComponentResult in H.
  destruct (generateComponentChecksum component vulns') as [c|e] eqn:Ec;
    cbn [bind try_catch] in H.
  - exists c; split; [reflexivity|].
    destruct (has (VStr c) st) eqn:Eh; cbn [bind try_catch] in H.
    + injection H as <- <-; auto.
    + right.
      repeat match type of H with
             | context [bind ?m _] =>
                 destruct m; cbn [bind try_catch snd] in H
             | context [if ?b then _ else _] =>
                 destruct b; cbn [bind try_catch snd] in H
             end;
        try discriminate; injection H as <- <-; reflexivity.
  - destruct (logError (caught e) component); cbn [bind] in H; discriminate.
Qed.

(** X12: [fetchComponentData] memoizes whatever it returns, the error property
    set included: a second call for the same component on the state left by
    the first returns the same property set and leaves the state as it is,
    whatever the clients would answer by then. *)
Theorem fetchComponentData_memoizes
  (C C' : collaborators) (now now' : Z) (component vulns : value)
  (st st' : state) (props : value) :
  fetchComponentData C now component vulns st = Ok (props, st') ->
  fetchComponentData C' now' component vulns st' = Ok (props, st').
Proof.
  intros H.
  destruct (fetchComponentData_returns _ _ _ _ _ _ _ H)
    as (c & Hc & [(Hh & -> & ->) | ->]);
    unfold fetchComponentData, hasComponentResult, getComponentResult;
    rewrite Hc; cbn [bind try_catch].
  - now rewrite Hh.
  - unfold has, get, set; rewrite saveToStorage_cache; simpl.
    rewrite map_has_set, map_get_set by apply same_key_str; reflexivity.
Qed.

Lemma fetchComponentData_memoizes_witness :
  exists props st',
    fetchComponentData
      (Samples.clients (Throw Samples.network_error)
         (Ok Samples.vulnerable_fixed))
      1700000000010 Samples.lodash Samples.lodash_vulnerabilities
      Samples.empty_state = Ok (props, st')
    /\ fetchComponentData
         (Samples.clients (Ok Samples.npm_metadata)
            (Ok Samples.vulnerable_fixed))
         1700000000020 Samples.lodash Samples.lodash_vulnerabilities st'
       = Ok (props, st')
    /\ member props "Patch Status" = VStr "Error fetching data".
Proof.
  destruct (fetchComponentData
              (Samples.clients (Throw Samples.network_error)
                 (Ok Samples.vulnerable_fixed))
              1700000000010 Samples.lodash Samples.lodash_vulnerabilities
              Samples.empty_state) as [[props st']|] eqn:E;
    [|vm_compute in E; discriminate E].
  exists props, st'; split; [reflexivity|split].
  - exact (fetchComponentData_memoizes _ _ _ _ _ _ _ _ _ E).
  - vm_compute in E; injection E as <- _; reflexivity.
Defined.

(** X13: For a component whose ecosystem is ["unknown"], or whose package info
    is falsy, the synchronous path is taken without asking whether anything is
    cached, so no registry, vulnerability or repository client is called, not
    even for a component that has a repository URL: the outcome is the same
    whatever these five clients do. *)
Theorem unknown_ecosystem_never_fetches
  (C C' : collaborators) (now : Z) (component vulns : value) (st : state)
  (pkgInfo : value) :
  extractPackageInfo C component = Ok pkgInfo ->
  extractPackageInfo C' component = Ok pkgInfo ->
  fetchEol C' = fetchEol C ->
  determineCriticality C' = determineCriticality C ->
  truthy pkgInfo = false
  \/ str_eq (member pkgInfo "ecosystem") "unknown" = true ->
  fetchComponentData C' now component vulns st
  = fetchComponentData C now component vulns st.
Proof.
  intros Hp Hp' Heol Hcrit Hu.
  unfold fetchComponentData; rewrite Hp, Hp'.
  assert (Hall : forall repoUrl,
             isAllDataCached component pkgInfo repoUrl st = Ok true).
  { intros repoUrl; unfold isAllDataCached.
    destruct Hu as [-> | ->]; [reflexivity|].
    now rewrite orb_true_r. }
  assert (Hb : forall repoUrl v,
             buildPropertiesFromCachedData C' component pkgInfo repoUrl v st
             = buildPropertiesFromCachedData C component pkgInfo repoUrl v
                 st).
  { intros repoUrl v; unfold buildPropertiesFromCachedData.
    now rewrite Heol, Hcrit. }
  destruct (hasComponentResult component _ st) as [[|]|]; try reflexivity.
  cbn [bind].
  destruct (repoUrlOf component) as [repoUrl|]; [|reflexivity].
  cbn [bind]; rewrite Hall; cbn [bind]; now rewrite Hb.
Qed.

Lemma unknown_ecosystem_never_fetches_witness :
  fetchComponentData (Samples.unknown_clients (Throw Samples.network_error))
    1700000000010 Samples.lodash Samples.lodash_vulnerabilities
    Samples.empty_state
  = fetchComponentData
      (Samples.unknown_clients (Ok Samples.repository_metadata))
      1700000000010 Samples.lodash Samples.lodash_vulnerabilities
      Samples.empty_state.
Proof.
  eapply unknown_ecosystem_never_fetches;
    [reflexivity|reflexivity|reflexivity|reflexivity|].
  right; reflexivity.
Defined.

(** X14: A component for which the package info extraction yields [null] or
    [undefined], and which has no cached result, always ends with the error
    property set: the synchronous path is taken and reads [pkgInfo.ecosystem],
    a [TypeError]. *)
Theorem null_package_info_gives_error_props
  (C : collaborators) (now : Z) (component vulns : value) (st : state)
  (pkgInfo : value) :
  hasComponentResult component (default_param vulns (VArr [])) st
  = Ok false ->
  extractPackageInfo C component = Ok pkgInfo ->
  nullish pkgInfo = true ->
  exists st',
    fetchComponentData C now component vulns st
    = Ok (errorProps component, st')
    /\ getComponentResult component (default_param vulns (VArr [])) st'
       = Ok (errorProps component).
Proof.
  intros Hhit Hp Hn.
  assert (Hc : exists c,
             generateComponentChecksum component
               (default_param vulns (VArr [])) = Ok c).
  { unfold hasComponentResult in Hhit.
    destruct (generateComponentChecksum _ _) as [c|];
      [eauto|discriminate]. }
  destruct Hc as (c & Hc).
  pose proof (checksum_component_present _ _ _ Hc) as Hcomp.
  destruct (getComponentResult_set now component _ (errorProps component)
              st c Hc) as [Hset Hget].
  exists (set now (VStr c) (errorProps component) st); split; [|exact Hget].
  unfold fetchComponentData; rewrite Hhit, Hp; cbn [bind].
  assert (Hbody : forall repoUrl,
             exists e,
               (allCached <- isAllDataCached component pkgInfo repoUrl st ;;
                if (allCached : bool) then
                  r <- buildPropertiesFromCachedData C component pkgInfo
                         repoUrl (default_param vulns (VArr [])) st ;;
                  w <- setComponentResult now component
                         (default_param vulns (VArr [])) r st ;;
                  Ok (r, snd w)
                else
                  props <- fullFetch C component pkgInfo repoUrl
                             (default_param vulns (VArr [])) ;;
                  w <- setComponentResult now component
                         (default_param vulns (VArr [])) props st ;;
                  Ok (props, snd w))
               = Throw e /\ nullish (caught e) = false).
  { intros repoUrl; exists TypeError; split; [|reflexivity].
    unfold isAllDataCached.
    assert (Ht : truthy pkgInfo = false)
      by (destruct pkgInfo; try discriminate; reflexivity).
    rewrite Ht; cbn [negb orb bind].
    unfold buildPropertiesFromCachedData, JS.get; rewrite Hn.
    reflexivity. }
  destruct (repoUrlOf component) as [repoUrl|e] eqn:Eu; cbn [bind].
  - destruct (Hbody repoUrl) as (e & -> & He); cbn [try_catch].
    unfold logError, JS.get; rewrite Hcomp, He; cbn [bind].
    now rewrite Hset.
  - pose proof (tl_repoUrlOf component e Eu) as He.
    cbn [try_catch].
    unfold logError, JS.get; rewrite Hcomp, He; cbn [bind].
    now rewrite Hset.
Qed.

Lemma null_package_info_gives_error_props_witness :
  exists st',
    fetchComponentData Samples.clients_without_package_info 1700000000010
      Samples.lodash Samples.lodash_vulnerabilities Samples.empty_state
    = Ok (errorProps Samples.lodash, st').
Proof.
  destruct (null_package_info_gives_error_props
              Samples.clients_without_package_info 1700000000010
              Samples.lodash Samples.lodash_vulnerabilities
              Samples.empty_state VNull) as (st' & H & _);
    [vm_compute; reflexivity|reflexivity|reflexivity|].
  exists st'; exact H.
Defined.

(** X15: [fetchComponentData] always returns a property set, and leaves it
    cached under the component's fingerprint, as soon as that fingerprint can
    be computed and no client throws, or rejects with, [undefined] or [null]:
    whatever else goes wrong ends in the [catch] clause, which answers (and
    caches) the error properties. *)
Theorem fetchComponentData_always_returns
  (C : collaborators) (now : Z) (component vulns : value) (st : state)
  (c : string) :
  generateComponentChecksum component (default_param vulns (VArr []))
  = Ok c ->
  loggable_clients C ->
  exists props st',
    fetchComponentData C now component vulns st = Ok (props, st')
    /\ getComponentResult component (default_param vulns (VArr [])) st'
       = Ok props.
Proof.
  intros Hc HC.
  assert (Hret : exists props st',
             fetchComponentData C now component vulns st
             = Ok (props, st')).
  { pose proof (checksum_component_present _ _ _ Hc) as Hcomp.
    pose proof (tl_buildPropertiesFromCachedData C component) as Hb.
    pose proof (tl_fullFetch C component) as Hf.
    destruct HC as (H1 & H2 & H3 & H4 & H5 & H6 & H7 & H8).
    unfold fetchComponentData.
    match goal with
    | |- exists p s, try_catch ?body ?h = _ =>
        assert (Hbody : throws_loggably body);
        [|destruct body as [[p s]|e]]
    end.
    - unfold hasComponentResult, getComponentResult, setComponentResult.
      rewrite Hc; cbn [bind].
      destruct (has (VStr c) st); [apply tl_ok|].
      apply tl_bind; [apply H1|intros pkgInfo].
      apply tl_bind; [apply tl_repoUrlOf|intros repoUrl].
      apply tl_bind; [apply tl_isAllDataCached|intros [|]].
      + apply tl_bind; [apply Hb; repeat split; assumption|intros r].
        apply tl_ok.
      + apply tl_bind; [apply Hf; repeat split; assumption|intros r].
        apply tl_ok.
    - simpl; eauto.
    - cbn [try_catch].
      unfold logError, JS.get; rewrite Hcomp, (Hbody e eq_refl).
      cbn [bind]; unfold setComponentResult; rewrite Hc; cbn [bind].
      eauto. }
  destruct Hret as (props & st' & Hret); exists props, st'.
  split; [exact Hret|].
  destruct (fetchComponentData_returns _ _ _ _ _ _ _ Hret)
    as (c' & Hc' & Hcase).
  rewrite Hc in Hc'; injection Hc' as <-.
  unfold getComponentResult; rewrite Hc; cbn [bind].
  destruct Hcase as [(_ & -> & ->) | ->]; [reflexivity|].
  unfold get, set; rewrite saveToStorage_cache; simpl.
  now rewrite map_get_set by apply same_key_str.
Qed.

Lemma fetchComponentData_always_returns_witness :
  exists props st',
    fetchComponentData
      (Samples.clients (Throw Samples.network_error)
         (Ok Samples.vulnerable_fixed))
      1700000000010 Samples.lodash Samples.lodash_vulnerabilities
      Samples.empty_state = Ok (props, st')
    /\ getComponentResult Samples.lodash
         (default_param Samples.lodash_vulnerabilities (VArr [])) st'
       = Ok props.
Proof.
  eapply fetchComponentData_always_returns.
  - vm_compute; reflexivity.
  - repeat split; intros; intros e H; try discriminate H.
    injection H as <-; reflexivity.
Defined.

End OrchestrationFacts.

(** ** The counters of the fingerprint cache *)

Module ChecksumStatsFacts.
Import JS Notions CacheService CacheFacts.

Lemma prefixes_disjoint (l : list ascii) :
  is_prefix (chars "component:") l && is_prefix (chars "file:") l = false.
Proof.
  destruct l as [|c l]; [reflexivity|].
  change (is_prefix (chars "component:") (c :: l))
    with (Ascii.eqb "c" c && is_prefix (chars "omponent:") l).
  change (is_prefix (chars "file:") (c :: l))
    with (Ascii.eqb "f" c && is_prefix (chars "ile:") l).
  destruct (Ascii.eqb_spec "c" c) as [<-|]; [|reflexivity].
  change (Ascii.eqb "f" "c") with false; apply andb_false_r.
Qed.

Lemma startsWith_disjoint (k b1 b2 : value) :
  startsWith "component:" k = Ok b1 ->
  startsWith "file:" k = Ok b2 ->
  truthy b1 && truthy b2 = false.
Proof.
  destruct k as [| | | |s| |]; try discriminate.
  unfold startsWith; cbn [as_string bind].
  intros H1 H2; injection H1 as <-; injection H2 as <-.
  apply prefixes_disjoint.
Qed.

Lemma filters_disjoint (l a b : list value) :
  array_filter (startsWith "component:") l = Ok a ->
  array_filter (startsWith "file:") l = Ok b ->
  (List.length a + List.length b <= List.length l)%nat.
Proof.
  revert a b; induction l as [|k r IH]; intros a b; cbn [array_filter].
  - intros H1 H2; injection H1 as <-; injection H2 as <-; simpl; lia.
  - destruct (startsWith "component:" k) as [b1|] eqn:E1; [|discriminate].
    destruct (startsWith "file:" k) as [b2|] eqn:E2; [|discriminate].
    cbn [bind].
    destruct (array_filter (startsWith "component:") r) as [a'|];
      [|discriminate].
    destruct (array_filter (startsWith "file:") r) as [b'|];
      [|discriminate].
    cbn [bind]; intros H1 H2; injection H1 as <-; injection H2 as <-.
    specialize (IH a' b' eq_refl eq_refl).
    pose proof (startsWith_disjoint k b1 b2 E1 E2) as Hd.
    destruct (truthy b1), (truthy b2); try discriminate; simpl; lia.
Qed.

Lemma in_firstn {A} (n : nat) (l : list A) (x : A) :
  In x (firstn n l) -> In x l.
Proof.
  revert l; induction n as [|n IH]; intros [|y l]; simpl; try tauto.
  intros [->|H]; auto.
Qed.

(** X10: The counters that [getChecksumCacheStats] reports are consistent: no
    key is counted both as a component result and as a file result, so the two
    counts together never exceed the cache size, and at most ten component
    keys are listed, all of them cached. *)
Theorem getChecksumCacheStats_counts (st : state) (s : checksum_stats) :
  getChecksumCacheStats st = Ok s ->
  (totalComponentResults s + totalFileResults s <= totalCacheSize s)%nat
  /\ (List.length (componentKeys s) <= 10)%nat
  /\ (List.length (componentKeys s) <= totalComponentResults s)%nat
  /\ totalCacheSize s = List.length (map_keys (cache st))
  /\ (forall k, In k (componentKeys s) -> In k (map_keys (cache st))).
Proof.
  unfold getChecksumCacheStats.
  destruct (array_filter (startsWith "component:") (map_keys (cache st)))
    as [a|] eqn:Ea; [|discriminate].
  destruct (array_filter (startsWith "file:") (map_keys (cache st)))
    as [b|] eqn:Eb; [|discriminate].
  cbn [bind]; remember (firstn 10 a) as ck eqn:Eck.
  intros H; injection H as <-.
  cbn [totalComponentResults totalFileResults totalCacheSize componentKeys].
  pose proof (filters_disjoint _ _ _ Ea Eb) as Hd.
  unfold map_keys in *; rewrite length_map in *.
  split; [lia|].
  split; [subst ck; rewrite length_firstn; lia|].
  split; [subst ck; rewrite length_firstn; lia|].
  split; [reflexivity|].
  intros k Hk; subst ck; apply in_firstn in Hk.
  clear Eb Hd; revert a Ea Hk.
  induction (map fst (cache st)) as [|x r IH]; intros a;
    cbn [array_filter].
  - intros Ea; injection Ea as <-; intros [].
  - destruct (startsWith "component:" x) as [bx|]; [|discriminate].
    destruct (array_filter (startsWith "component:") r) as [a'|];
      [|discriminate].
    cbn [bind]; intros Ea; injection Ea as <-.
    destruct (truthy bx); simpl; intros Hk.
    + destruct Hk as [->|Hk]; [now left|right; eauto].
    + right; eauto.
Qed.

Lemma getChecksumCacheStats_counts_witness :
  exists s,
    getChecksumCacheStats
      (set 1700000000001 (VStr "file:abc") (VArr [])
         (set 1700000000000 (VStr "component:i9j6i7") (VObj [])
            (set 1700000000000 (VStr "npm:lodash") Samples.npm_metadata
               Samples.empty_state))) = Ok s
    /\ totalComponentResults s = 1%nat
    /\ totalFileResults s = 1%nat
    /\ totalCacheSize s = 3%nat
    /\ (totalComponentResults s + totalFileResults s
        <= totalCacheSize s)%nat.
Proof.
  destruct (getChecksumCacheStats
              (set 1700000000001 (VStr "file:abc") (VArr [])
                 (set 1700000000000 (VStr "component:i9j6i7") (VObj [])
                    (set 1700000000000 (VStr "npm:lodash")
                       Samples.npm_metadata Samples.empty_state))))
    as [s|] eqn:E; [|vm_compute in E; discriminate E].
  exists s; split; [reflexivity|].
  pose proof (getChecksumCacheStats_counts _ _ E) as [Hle _].
  vm_compute in E; injection E as <-.
  split; [reflexivity|split; [reflexivity|split; [reflexivity|]]].
  exact Hle.
Defined.

Lemma filter_startsWith_throws (p : string) (l : list value) (k : value) :
  In k l -> as_string k = Throw TypeError ->
  array_filter (startsWith p) l = Throw TypeError.
Proof.
  intros Hin Hk; induction l as [|x r IH]; [destruct Hin|].
  cbn [array_filter]; unfold startsWith at 1.
  destruct x as [| | | |s| |]; cbn [as_string bind]; try reflexivity.
  destruct Hin as [Hx|Hin]; [rewrite <- Hx in Hk; discriminate Hk|].
  rewrite (IH Hin); reflexivity.
Qed.

Lemma has_key_in (k : value) (m : Map) :
  map_has k m = true -> In k (map_keys m).
Proof.
  induction m as [|[k' v] r IH]; simpl; [discriminate|].
  destruct (same_key k' k) eqn:E; simpl; intros H.
  - left; now apply strict_eq_true.
  - right; auto.
Qed.

(** X11: The cache accepts any value as a key, but [getChecksumCacheStats]
    calls [startsWith] on every key: as soon as the cache holds one key that
    is not a string, the statistics cannot be computed any more, and the call
    throws a [TypeError]. *)
Theorem getChecksumCacheStats_needs_string_keys (st : state) (k : value) :
  has k st = true ->
  as_string k = Throw TypeError ->
  getChecksumCacheStats st = Throw TypeError.
Proof.
  intros Hh Hk; unfold getChecksumCacheStats.
  rewrite (filter_startsWith_throws _ _ k); [reflexivity| |exact Hk].
  now apply has_key_in.
Qed.

Lemma getChecksumCacheStats_needs_string_keys_witness :
  getChecksumCacheStats
    (set 1700000000000 (VNum 42) (VStr "answer")
       (set 1700000000000 (VStr "component:i9j6i7") (VObj [])
          Samples.empty_state))
  = Throw TypeError.
Proof.
  apply (getChecksumCacheStats_needs_string_keys _ (VNum 42));
    reflexivity.
Defined.

End ChecksumStatsFacts.

(** ** The derived values of the property mapper *)

Module DerivationFacts.
Import JS Notions PropertyMapperService.

Lemma chars_app (a b : string) :
  chars (a ++ b) = List.app (chars a) (chars b).
Proof.
  unfold chars; induction a as [|c a IH]; simpl; [reflexivity|].
  now rewrite IH.
Qed.

Lemma of_chars_chars (s : string) : of_chars (chars s) = s.
Proof. apply string_of_list_ascii_of_string. Qed.

Lemma of_chars_app (a b : list ascii) :
  of_chars (List.app a b) = of_chars a ++ of_chars b.
Proof.
  unfold of_chars; induction a as [|c a IH]; simpl; [reflexivity|].
  now rewrite IH.
Qed.

(** Splitting at a separator splits the segments before and after it. *)
Lemma split_chars_sep (sep : ascii) (p t cur : list ascii) :
  split_chars sep (List.app p (sep :: t)) cur
  = List.app (split_chars sep p cur) (split_chars sep t []).
Proof.
  revert cur; induction p as [|c p IH]; intros cur; simpl.
  - now rewrite Ascii.eqb_refl.
  - destruct (Ascii.eqb c sep); simpl; now rewrite IH.
Qed.

Lemma split_chars_free (sep : ascii) (t cur : list ascii) :
  forallb (fun c => negb (Ascii.eqb c sep)) t = true ->
  split_chars sep t cur = [of_chars (List.app (rev cur) t)].
Proof.
  revert cur; induction t as [|c t IH]; intros cur; simpl.
  - now rewrite app_nil_r.
  - intros H; apply andb_prop in H as [Hc Ht].
    destruct (Ascii.eqb c sep); [discriminate|].
    rewrite (IH _ Ht); simpl; now rewrite <- app_assoc.
Qed.

Lemma split_free (sep : ascii) (s : string) :
  free_of sep s = true -> split s sep = [s].
Proof.
  intros H; unfold split; rewrite split_chars_free by exact H.
  simpl; now rewrite of_chars_chars.
Qed.

Lemma split_sep (sep : ascii) (a b : string) :
  split (a ++ String sep b) sep = List.app (split a sep) (split b sep).
Proof. unfold split; rewrite chars_app; apply split_chars_sep. Qed.

Lemma split_nonempty (sep : ascii) (l cur : list ascii) :
  split_chars sep l cur <> [].
Proof.
  revert cur; induction l as [|c l IH]; intros cur; simpl;
    [discriminate|].
  destruct (Ascii.eqb c sep); [discriminate|apply IH].
Qed.

Lemma slice_last_app {A} (n : nat) (l t : list A) :
  n = List.length t -> slice_last n (List.app l t) = t.
Proof.
  intros ->; unfold slice_last; rewrite length_app.
  replace (List.length l + List.length t - List.length t)%nat
    with (List.length l + 0)%nat by lia.
  now rewrite skipn_app, Nat.add_0_r, skipn_all, Nat.sub_diag.
Qed.

(** X16: The repository key is built from the last two segments of the
    repository URL: [owner/repo] for a URL that ends in these two segments,
    but [repo/] for the same URL with a trailing slash, which therefore names
    another cache entry. *)
Theorem repo_slug_last_two_segments (base owner repo : string) :
  free_of "/" owner = true ->
  free_of "/" repo = true ->
  repo_slug (VStr (base ++ "/" ++ owner ++ "/" ++ repo))
  = Ok (VStr (owner ++ "/" ++ repo))
  /\ repo_slug (VStr (base ++ "/" ++ owner ++ "/" ++ repo ++ "/"))
     = Ok (VStr (repo ++ "/")).
Proof.
  intros Ho Hr; unfold repo_slug; cbn [as_string bind]; split.
  - change (base ++ "/" ++ owner ++ "/" ++ repo)
      with (base ++ String "/" (owner ++ String "/" repo)).
    rewrite !split_sep, (split_free _ _ Ho), (split_free _ _ Hr).
    change (List.app [owner] [repo]) with [owner; repo].
    now rewrite (slice_last_app 2 (split base "/") [owner; repo]).
  - change (base ++ "/" ++ owner ++ "/" ++ repo ++ "/")
      with (base ++ String "/" (owner ++ String "/" (repo ++ String "/" ""))).
    rewrite !split_sep, (split_free _ _ Ho), (split_free _ _ Hr).
    change (split "" "/") with [""].
    change (List.app [owner] (List.app [repo] [""]))
      with (List.app [owner] [repo; ""]).
    rewrite app_assoc.
    now rewrite (slice_last_app 2 (List.app (split base "/") [owner])
                   [repo; ""]).
Qed.

Lemma repo_slug_last_two_segments_witness :
  repo_slug (VStr "https://github.com/lodash/lodash")
  = Ok (VStr "lodash/lodash")
  /\ repo_slug (VStr "https://github.com/lodash/lodash/")
     = Ok (VStr "lodash/").
Proof.
  apply (repo_slug_last_two_segments "https://github.com" "lodash" "lodash");
    reflexivity.
Defined.

Lemma remove_first_prefix (p l : list ascii) :
  remove_first p (List.app p l) = l.
Proof.
  assert (Hp : is_prefix p (List.app p l) = true).
  { induction p as [|c p IH]; simpl; [reflexivity|].
    now rewrite Ascii.eqb_refl. }
  assert (Hr : remove_first p (List.app p l)
               = skipn (List.length p) (List.app p l)).
  { destruct (List.app p l); cbn [remove_first]; now rewrite Hp. }
  now rewrite Hr, skipn_app, skipn_all, Nat.sub_diag.
Qed.

Lemma nth_last_segment (x y d : string) (m : list string) :
  nth (List.length (x :: List.app m [y]) - 1) (x :: List.app m [y]) d = y
  /\ (2 <=? List.length (x :: List.app m [y]))%nat = true.
Proof.
  cbn [List.length]; rewrite length_app, Nat.sub_succ, Nat.sub_0_r.
  cbn [List.length]; split.
  - replace (List.length m + 1)%nat with (S (List.length m)) by lia.
    cbn [nth]; now rewrite app_nth2, Nat.sub_diag by lia.
  - replace (List.length m + 1)%nat with (S (List.length m)) by lia.
    reflexivity.
Qed.

(** X17: For a component with a package URL, the unique identifier keeps the
    type and the last segment of the URL only: the namespace between them is
    dropped, so two packages of the same name and version in different
    namespaces get the same identifier. *)
Theorem generateUniqueIdentifier_drops_namespace
  (component pkgInfo : value) (supplier type namespace name : string) :
  JS.get component "purl"
  = Ok (VStr ("pkg:" ++ type ++ "/" ++ namespace ++ "/" ++ name)) ->
  free_of "/" type = true ->
  free_of "/" name = true ->
  generateUniqueIdentifier component pkgInfo supplier
  = Ok (VStr ("pkg:supplier/" ++ supplier ++ "/" ++ type ++ "/" ++ name)).
Proof.
  intros Hp Ht Hn; unfold generateUniqueIdentifier; rewrite Hp.
  cbn [bind].
  assert (Htrue : truthy
                    (VStr ("pkg:" ++ type ++ "/" ++ namespace ++ "/"
                           ++ name)) = true) by reflexivity.
  rewrite Htrue; cbn [as_string bind].
  assert (Hparts : split ("pkg:" ++ type ++ "/" ++ namespace ++ "/" ++ name)
                     "/"
                   = ("pkg:" ++ type)
                       :: List.app (split namespace "/") [name]).
  { change ("pkg:" ++ type ++ "/" ++ namespace ++ "/" ++ name)
      with (("pkg:" ++ type) ++ String "/" (namespace ++ String "/" name)).
    rewrite !split_sep, (split_free _ _ Hn).
    rewrite (split_free "/" ("pkg:" ++ type)) by exact Ht.
    reflexivity. }
  rewrite Hparts.
  destruct (nth_last_segment ("pkg:" ++ type) name ""
              (split namespace "/")) as [-> ->].
  cbn [nth bind].
  change (chars ("pkg:" ++ type)) with (List.app (chars "pkg:") (chars type)).
  now rewrite remove_first_prefix, of_chars_chars.
Qed.

Lemma generateUniqueIdentifier_drops_namespace_witness :
  generateUniqueIdentifier Samples.angular_core
    (Samples.packageInfo Samples.angular_core) "Open-source"
  = Ok (VStr "pkg:supplier/Open-source/npm/core@16.0.0").
Proof.
  apply (generateUniqueIdentifier_drops_namespace Samples.angular_core _
           "Open-source" "npm" "%40angular" "core@16.0.0");
    reflexivity.
Defined.

Lemma unreferenced_affects (f : value -> value) (l : list value) :
  array_some (fun a => Ok (js_and (member a "ref") (js_and VNull (f a)))) l
  = Ok false.
Proof.
  induction l as [|a l IH]; cbn [array_some bind]; [reflexivity|].
  unfold js_and at 1; cbn [js_and truthy].
  destruct (truthy (member a "ref")) eqn:E; cbn [truthy]; [exact IH|].
  rewrite E; exact IH.
Qed.

Lemma criticality_step_unreferenced (max : option string) (v : value)
  (max' : option string) :
  criticality_step VNull max v = Ok max' -> max' = max.
Proof.
  unfold criticality_step.
  destruct (JS.get v "affects") as [affects|]; cbn [bind]; [|discriminate].
  destruct (negb (isArray affects)); [now intros [= <-]|].
  destruct (_ || _ || _); [now intros [= <-]|].
  destruct (as_array affects) as [al|]; cbn [bind]; [|discriminate].
  rewrite (unreferenced_affects
             (fun a => VBool (strict_eq (member a "ref") VNull))).
  cbn [bind negb]; now intros [= <-].
Qed.

Lemma criticality_loop_unreferenced (max : option string) (vs : list value)
  (max' : option string) :
  criticality_loop VNull max vs = Ok max' -> max' = max.
Proof.
  revert max; induction vs as [|v vs IH]; intros max; cbn [criticality_loop].
  - now intros [= <-].
  - destruct (criticality_step VNull max v) as [m|] eqn:E; cbn [bind];
      [|discriminate].
    apply criticality_step_unreferenced in E; subst m; apply IH.
Qed.

(** X18: A component without a [bom-ref] (and without a [bomRef]) never gets a
    criticality from the vulnerabilities of the document, whatever they
    affect: the result, if there is one, is [null]. *)
Theorem determineCriticalityFromSbom_needs_ref
  (sbomVulns component r : value) :
  truthy (member component "bom-ref") = false ->
  truthy (member component "bomRef") = false ->
  determineCriticalityFromSbom sbomVulns component = Ok r ->
  r = VNull.
Proof.
  intros H1 H2; unfold determineCriticalityFromSbom.
  destruct sbomVulns as [| | | | |vs|]; try (now intros [= <-]).
  destruct vs as [|v vs]; [now intros [= <-]|].
  unfold JS.get; destruct (nullish component); [discriminate|].
  cbn [bind]; unfold js_or; rewrite H1, H2; cbn [truthy].
  destruct (criticality_loop VNull None (v :: vs)) as [m|] eqn:E;
    cbn [bind]; [|discriminate].
  apply criticality_loop_unreferenced in E; subst m.
  now intros [= <-].
Qed.

Lemma determineCriticalityFromSbom_needs_ref_witness :
  determineCriticalityFromSbom
    (VArr [Samples.unreferenced_vulnerability;
           Samples.lodash_vulnerability "CRITICAL"])
    Samples.angular_core = Ok VNull
  /\ determineCriticalityFromSbom
       (VArr [Samples.lodash_vulnerability "CRITICAL"]) Samples.lodash
     = Ok (VStr "Critical").
Proof.
  split; [|reflexivity].
  destruct (determineCriticalityFromSbom
              (VArr [Samples.unreferenced_vulnerability;
                     Samples.lodash_vulnerability "CRITICAL"])
              Samples.angular_core) as [r|] eqn:E;
    [|vm_compute in E; discriminate E].
  f_equal.
  eapply (determineCriticalityFromSbom_needs_ref _ Samples.angular_core);
    [reflexivity|reflexivity|exact E].
Defined.

(** X19: What is reported as supplied by the open-source community is reported
    as of open-source origin: a component with repository stars is never of
    origin [Proprietary], whatever its license says, and a proprietary
    component is always attributed to a vendor or a third party. *)
Theorem open_source_supplier_has_open_source_origin
  (packageData githubData : value) :
  determineSupplier packageData githubData = "Open-source" ->
  determineOrigin packageData githubData = "Open-source".
Proof.
  unfold determineSupplier, determineOrigin.
  destruct (stars_above githubData 0); [reflexivity|].
  destruct (truthy (member packageData "author")); discriminate.
Qed.

Lemma open_source_supplier_has_open_source_origin_witness :
  determineOrigin (VObj [("license", VStr "Proprietary")])
    Samples.repository_metadata = "Open-source"
  /\ determineOrigin (VObj [("license", VStr "Proprietary")]) VNull
     = "Proprietary".
Proof.
  split; [|reflexivity].
  apply open_source_supplier_has_open_source_origin; reflexivity.
Defined.

End DerivationFacts.

(** ** The ranking of severities *)

Module SeverityFacts.
Import JS Notions PropertyMapperService.

Section Head.
Context {A : Type}.
Variable rank : A -> Z.

Lemma in_insert_sorted (x y : A) (l : list A) :
  In y (insert_sorted (fun a b => rank a <=? rank b) x l)
  <-> y = x \/ In y l.
Proof.
  induction l as [|h t IH]; simpl; [intuition|].
  destruct (rank x <=? rank h); simpl; [intuition|].
  rewrite IH; intuition.
Qed.

Lemma in_stable_sort (y : A) (l : list A) :
  In y (stable_sort (fun a b => rank a <=? rank b) l) <-> In y l.
Proof.
  induction l as [|x l IH]; simpl; [reflexivity|].
  rewrite in_insert_sorted, IH; intuition.
Qed.

(** The first element of the sorted list is of the least rank. *)
Lemma stable_sort_head (l : list A) :
  l <> [] ->
  exists h t,
    stable_sort (fun a b => rank a <=? rank b) l = h :: t
    /\ In h l /\ forall y, In y l -> rank h <= rank y.
Proof.
  induction l as [|x l IH]; [congruence|]; intros _.
  change (stable_sort (fun a b => rank a <=? rank b) (x :: l))
    with (insert_sorted (fun a b => rank a <=? rank b) x
            (stable_sort (fun a b => rank a <=? rank b) l)).
  destruct l as [|x' l'].
  { exists x, []; split; [reflexivity|split; [now left|]].
    intros y [<-|[]]; lia. }
  destruct IH as (h & t & -> & Hin & Hmin); [discriminate|].
  cbn [insert_sorted].
  destruct (rank x <=? rank h) eqn:E.
  - apply Z.leb_le in E; exists x, (h :: t).
    split; [reflexivity|split; [now left|]].
    intros y [<-|Hy]; [lia|]; specialize (Hmin y Hy); lia.
  - apply Z.leb_gt in E; eexists h, _.
    split; [reflexivity|split; [now right|]].
    intros y [<-|Hy]; [lia|]; auto.
Qed.
End Head.

Lemma indexOf_lower_bound (s : string) (l : list string) :
  -1 <= indexOf s l.
Proof.
  induction l as [|x l IH]; simpl; [lia|].
  destruct (String.eqb x s); [lia|].
  destruct (indexOf s l <? 0) eqn:E; [lia|].
  apply Z.ltb_ge in E; lia.
Qed.

Lemma unlisted_rank (s : string) :
  unlisted s = true <-> indexOf s order = -1.
Proof.
  unfold unlisted; pose proof (indexOf_lower_bound s order).
  rewrite Z.ltb_lt; lia.
Qed.

Lemma toUpperCase_nonempty (s : string) : s <> "" -> toUpperCase s <> "".
Proof.
  destruct s as [|c s]; [congruence|]; intros _.
  unfold toUpperCase; cbn [chars list_ascii_of_string flat_map].
  destruct (N_of_ascii c =? 223)%N; discriminate.
Qed.

(** The upper-cased severities of the ratings, when every rating has
    one. *)
Lemma severities_of_ratings (rl sev : list value) :
  (forall x, In x rl -> truthy (member x "severity") = true) ->
  array_map
    (fun r =>
       severity <- JS.get r "severity" ;;
       s <- as_string (js_or severity (VStr "")) ;;
       Ok (VStr (toUpperCase s)))
    rl = Ok sev ->
  sev = map (fun x => VStr (toUpperCase (to_string (member x "severity"))))
            rl
  /\ Forall (fun y => exists u, y = VStr u /\ u <> "") sev.
Proof.
  revert sev; induction rl as [|x rl IH]; intros sev Hs; cbn [array_map].
  - intros [= <-]; split; [reflexivity|constructor].
  - assert (Hx : truthy (member x "severity") = true)
      by (apply Hs; now left).
    unfold JS.get at 1.
    destruct (nullish x) eqn:En;
      [destruct x; try discriminate En; discriminate Hx|].
    cbn [bind]; unfold js_or at 1; rewrite Hx.
    destruct (member x "severity") as [| | | |s| |] eqn:Em;
      cbn [as_string bind]; try discriminate.
    destruct (array_map _ rl) as [sev'|] eqn:E; cbn [bind]; [|discriminate].
    intros [= <-].
    destruct (IH sev' (fun y Hy => Hs y (or_intror Hy)) eq_refl)
      as [-> HF].
    split; [cbn [map]; rewrite Em; reflexivity|].
    constructor; [|exact HF].
    exists (toUpperCase s); split; [reflexivity|].
    apply toUpperCase_nonempty; intros ->; discriminate Hx.
Qed.

Lemma affects_component (ref a : value) (al : list value) :
  In a al -> truthy ref = true -> strict_eq (member a "ref") ref = true ->
  array_some
    (fun a =>
       Ok (js_and (member a "ref")
             (js_and ref (VBool (strict_eq (member a "ref") ref)))))
    al = Ok true.
Proof.
  intros Hin Hr Ha; induction al as [|x al IH]; [destruct Hin|].
  cbn [array_some bind].
  destruct (truthy (js_and _ _)) eqn:E; [reflexivity|].
  destruct Hin as [->|Hin]; [|auto].
  pose proof (CacheFacts.strict_eq_true _ _ Ha) as Heq.
  unfold js_and in E; rewrite Heq in E, Ha.
  rewrite Hr, Ha in E; discriminate E.
Qed.

Lemma upper_cased_strings (rl sev : list value) :
  array_map
    (fun r =>
       severity <- JS.get r "severity" ;;
       s <- as_string (js_or severity (VStr "")) ;;
       Ok (VStr (toUpperCase s)))
    rl = Ok sev ->
  Forall (fun y => exists u, y = VStr u) sev
  /\ (rl <> [] -> sev <> []).
Proof.
  revert sev; induction rl as [|x rl IH]; intros sev; cbn [array_map].
  - intros [= <-]; split; [constructor|congruence].
  - destruct (JS.get x "severity") as [severity|]; cbn [bind];
      [|discriminate].
    destruct (as_string _) as [s|]; cbn [bind]; [|discriminate].
    destruct (array_map _ rl) as [sev'|] eqn:E; cbn [bind]; [|discriminate].
    intros [= <-]; destruct (IH sev' eq_refl) as [HF _].
    split; [constructor; eauto|discriminate].
Qed.

(** What a turn of the loop does to [max]: nothing, or it compares [max]
    with a non-empty severity [u] of the least rank among the upper-cased
    severities [sev] of the ratings. *)
Lemma criticality_step_cases ref max v max' :
  criticality_step ref max v = Ok max' ->
  max' = max
  \/ exists rl sev u,
       member v "ratings" = VArr rl
       /\ array_map
            (fun r =>
               severity <- JS.get r "severity" ;;
               s <- as_string (js_or severity (VStr "")) ;;
               Ok (VStr (toUpperCase s)))
            rl = Ok sev
       /\ In (VStr u) sev /\ u <> ""
       /\ (forall y, In y sev ->
             indexOf u order <= indexOf (to_string y) order)
       /\ max' = match max with
                 | None => Some u
                 | Some m => if indexOf u order <? indexOf m order
                             then Some u else max
                 end.
Proof.
  unfold criticality_step; unfold JS.get at 1.
  destruct (nullish v); cbn [bind]; [discriminate|].
  destruct (member v "affects") as [| | | | |al|] eqn:Ea;
    cbn [isArray negb]; try (intros [= <-]; now left).
  destruct (member v "ratings") as [| | | | |rl|] eqn:Er;
    cbn [isArray negb]; rewrite ?orb_true_r; cbn [truthy negb orb];
    try (intros [= <-]; now left).
  destruct (strict_eq (member (VArr rl) "length") (VNum 0)) eqn:El;
    [intros [= <-]; now left|].
  cbn [as_array bind].
  destruct (array_some _ al) as [[|]|] eqn:Es; cbn [bind negb];
    [|intros [= <-]; now left|discriminate].
  destruct (array_map _ rl) as [sev|] eqn:Em; cbn [bind]; [|discriminate].
  destruct (upper_cased_strings _ _ Em) as [HF Hne].
  assert (Hrl : rl <> []) by (intros ->; discriminate El).
  destruct (stable_sort_head (fun x => indexOf (to_string x) order) sev
              (Hne Hrl)) as (h & t & -> & Hin & Hmin).
  cbn [nth].
  rewrite Forall_forall in HF; destruct (HF h Hin) as (u & ->).
  unfold js_or; cbn [truthy to_string] in *.
  destruct (String.eqb_spec u "") as [->|Hu]; cbn [negb truthy];
    [intros [= <-]; now left|].
  destruct (String.eqb_spec u "") as [|_]; [congruence|];
    cbn [negb to_string].
  intros H; right; exists rl, sev, u.
  repeat (split; [first [reflexivity|assumption]|]).
  destruct max as [m|]; [|now injection H as <-].
  destruct (_ <? _); now injection H as <-.
Qed.

Lemma criticality_step_proper ref max v max' :
  criticality_step ref max v = Ok max' -> proper max -> proper max'.
Proof.
  intros H Hp; apply criticality_step_cases in H.
  destruct H as [->|(rl & sev & u & _ & _ & _ & Hu & _ & ->)];
    [exact Hp|].
  destruct max as [m|]; simpl; [|exact Hu].
  destruct (_ <? _); simpl; auto.
Qed.

Lemma criticality_step_outranking ref max v max' :
  criticality_step ref max v = Ok max' -> outranking max -> max' = max.
Proof.
  intros H (m & -> & _ & Hm); apply criticality_step_cases in H.
  destruct H as [->|(rl & sev & u & _ & _ & _ & _ & _ & ->)];
    [reflexivity|].
  apply unlisted_rank in Hm; rewrite Hm.
  pose proof (indexOf_lower_bound u order) as Hl.
  destruct (Z.ltb_spec (indexOf u order) (-1)); [lia|reflexivity].
Qed.

Lemma criticality_loop_outranking ref max vs max' :
  criticality_loop ref max vs = Ok max' -> outranking max -> max' = max.
Proof.
  revert max; induction vs as [|v vs IH]; intros max; cbn [criticality_loop].
  - now intros [= <-].
  - destruct (criticality_step ref max v) as [m|] eqn:E; cbn [bind];
      [|discriminate].
    intros H Ho.
    rewrite (criticality_step_outranking _ _ _ _ E Ho) in H; auto.
Qed.

Lemma criticality_step_unlisted ref max v max' :
  truthy ref = true -> rated_unlisted ref v -> proper max ->
  criticality_step ref max v = Ok max' -> outranking max'.
Proof.
  intros Hr (al & a & rl & rt & Ea & Ha & Hra & Er & Hs & Hrt & Hu) Hp.
  pose proof (affects_component ref a al Ha Hr Hra) as Hsome.
  assert (Hrl : rl <> []) by (intros ->; destruct Hrt).
  unfold criticality_step; unfold JS.get at 1.
  destruct (nullish v) eqn:En;
    [destruct v; try discriminate En; discriminate Ea|].
  cbn [bind]; rewrite Ea, Er; cbn [isArray negb truthy orb].
  assert (El : strict_eq (member (VArr rl) "length") (VNum 0) = false).
  { destruct rl; [congruence|reflexivity]. }
  rewrite El; cbn [as_array bind]; rewrite Hsome; cbn [bind negb].
  destruct (array_map _ rl) as [sev|] eqn:Em; cbn [bind]; [|discriminate].
  destruct (severities_of_ratings _ _ Hs Em) as [Hsev HF].
  assert (Hne : sev <> []).
  { rewrite Hsev; destruct rl; [congruence|discriminate]. }
  destruct (stable_sort_head (fun x => indexOf (to_string x) order) sev Hne)
    as (h & t & -> & Hin & Hmin).
  cbn [nth].
  rewrite Forall_forall in HF; destruct (HF h Hin) as (u & -> & Hne').
  assert (Hu' : unlisted u = true).
  { apply unlisted_rank; apply unlisted_rank in Hu.
    pose proof (indexOf_lower_bound u order).
    assert (Hrt' : In (VStr (toUpperCase (to_string (member rt "severity"))))
                     sev).
    { rewrite Hsev.
      exact (in_map
               (fun x => VStr (toUpperCase (to_string (member x "severity"))))
               rl rt Hrt). }
    specialize (Hmin _ Hrt'); cbn [to_string] in Hmin; lia. }
  unfold js_or; cbn [truthy to_string].
  destruct (String.eqb_spec u "") as [|_]; [congruence|]; cbn [negb truthy].
  destruct (String.eqb_spec u "") as [|_]; [congruence|];
    cbn [negb to_string].
  destruct max as [m|].
  - destruct (_ <? _) eqn:E; intros [= <-]; [exists u; auto|].
    exists m; split; [reflexivity|split; [exact Hp|]].
    apply unlisted_rank in Hu'; rewrite Hu' in E.
    apply Z.ltb_ge in E; apply unlisted_rank.
    pose proof (indexOf_lower_bound m order); lia.
  - intros [= <-]; exists u; auto.
Qed.

Lemma outranking_proper max : outranking max -> proper max.
Proof. intros (m & -> & H & _); exact H. Qed.

Lemma criticality_loop_unlisted ref max vs v max' :
  truthy ref = true -> In v vs -> rated_unlisted ref v -> proper max ->
  criticality_loop ref max vs = Ok max' -> outranking max'.
Proof.
  intros Hr Hin Hv; revert max; induction vs as [|x vs IH]; intros max Hp;
    [destruct Hin|].
  cbn [criticality_loop].
  destruct (criticality_step ref max x) as [m|] eqn:E; cbn [bind];
    [|discriminate].
  destruct Hin as [->|Hin].
  - intros H.
    pose proof (criticality_step_unlisted _ _ _ _ Hr Hv Hp E) as Ho.
    now rewrite (criticality_loop_outranking _ _ _ _ H Ho).
  - apply IH; [exact Hin|].
    exact (criticality_step_proper _ _ _ _ E Hp).
Qed.

(** X20: A severity outside the four listed ones outranks them all: as soon as
    one vulnerability that affects the component carries a rating of an
    unlisted severity (such as [info], [none] or [unknown]) and no rating
    without a severity, the criticality reported for the component is an
    unlisted severity in title case, whatever listed severities the document
    rates the component with. *)
Theorem unlisted_severity_outranks
  (vulns : list value) (component v r : value) :
  truthy (component_ref component) = true ->
  In v vulns ->
  rated_unlisted (component_ref component) v ->
  determineCriticalityFromSbom (VArr vulns) component = Ok r ->
  exists m, r = VStr (title_case m) /\ m <> "" /\ unlisted m = true.
Proof.
  intros Hr Hin Hv; unfold determineCriticalityFromSbom.
  destruct vulns as [|x vs]; [destruct Hin|].
  unfold JS.get; destruct (nullish component); [discriminate|].
  cbn [bind]; fold (component_ref component).
  destruct (criticality_loop _ None (x :: vs)) as [max|] eqn:E;
    cbn [bind]; [|discriminate].
  destruct (criticality_loop_unlisted _ None _ _ _ Hr Hin Hv I E)
    as (m & -> & Hm & Hu).
  destruct (String.eqb_spec m "") as [|_]; [congruence|].
  intros [= <-]; eauto.
Qed.

Lemma unlisted_severity_outranks_witness :
  determineCriticalityFromSbom
    (VArr [Samples.lodash_vulnerability "CRITICAL";
           Samples.lodash_rated_twice "high" "info"])
    Samples.lodash = Ok (VStr "Info")
  /\ exists m, VStr "Info" = VStr (title_case m) /\ m <> ""
               /\ unlisted m = true.
Proof.
  split; [reflexivity|].
  apply (unlisted_severity_outranks
           [Samples.lodash_vulnerability "CRITICAL";
            Samples.lodash_rated_twice "high" "info"]
           Samples.lodash (Samples.lodash_rated_twice "high" "info"));
    [reflexivity|simpl; tauto| |reflexivity].
  exists [VObj [("ref", VStr "pkg:npm/lodash@4.17.20")]],
    (VObj [("ref", VStr "pkg:npm/lodash@4.17.20")]),
    [VObj [("severity", VStr "high")]; VObj [("severity", VStr "info")]],
    (VObj [("severity", VStr "info")]).
  split; [reflexivity|split; [now left|split; [reflexivity|]]].
  split; [reflexivity|split; [|split; [simpl; tauto|reflexivity]]].
  intros x [<-|[<-|[]]]; reflexivity.
Defined.

End SeverityFacts.

(** ** The error service *)

Module ErrorFacts.
Import JS Notions PropertyMapperService ErrorService.

Section Retrying.
Variable operation : nat -> result value.
Variables maxRetries delay : Z.

Lemma backoff_shift (a : Z) (k : nat) :
  map (fun i => delay * (a + Z.of_nat i)) (seq 0 (S k))
  = delay * a :: map (fun i => delay * (a + 1 + Z.of_nat i)) (seq 0 k).
Proof.
  cbn [seq map]; rewrite Z.add_0_r; f_equal.
  rewrite <- seq_shift, map_map; apply map_ext; intros i; f_equal; lia.
Qed.

(** The loop from [attempt] on, when the next [k] calls fail and the one
    after them succeeds. *)
Lemma retry_from_success (k : nat) (v : value) :
  forall (turns : nat) (attempt : Z) (lastError : option exn)
         (log : retry_log),
    (k < turns)%nat ->
    attempt + Z.of_nat turns = maxRetries + 1 ->
    (forall i, (i < k)%nat ->
       exists e, operation (calls log + i) = Throw e /\ loggable e) ->
    operation (calls log + k) = Ok v ->
    retry_from operation maxRetries delay turns attempt lastError log
    = (Ok v,
       {| calls := calls log + S k;
          sleeps := List.app (sleeps log)
                      (map (fun i => delay * (attempt + Z.of_nat i))
                           (seq 0 k)) |}).
Proof.
  induction k as [|k IH]; intros turns attempt lastError log Hk Ha Hf Hv.
  - destruct turns as [|turns]; [lia|]; cbn [retry_from].
    rewrite Nat.add_0_r in Hv; rewrite Hv; unfold called.
    cbn [seq map]; now rewrite app_nil_r, Nat.add_1_r.
  - destruct turns as [|turns]; [lia|]; cbn [retry_from].
    destruct (Hf O ltac:(lia)) as (e & He & Hl).
    rewrite Nat.add_0_r in He; rewrite He.
    unfold logError, JS.get; rewrite Hl; cbn [bind].
    destruct (Z.ltb_spec attempt maxRetries) as [_|]; [|lia].
    rewrite (IH turns (attempt + 1) (Some e) (slept (delay * attempt)
                                                (called log))).
    + cbn [calls sleeps slept called]; rewrite backoff_shift.
      rewrite <- app_assoc; cbn [List.app]; do 2 f_equal; lia.
    + lia.
    + lia.
    + intros i Hi; cbn [calls slept called].
      destruct (Hf (S i) ltac:(lia)) as (e' & He' & Hl').
      exists e'; split; [|exact Hl'].
      now rewrite <- He', Nat.add_succ_r.
    + cbn [calls slept called]; now rewrite <- Hv, Nat.add_succ_r.
Qed.

(** The loop from [attempt] on, when all the calls left fail. *)
Lemma retry_from_exhausted (errors : nat -> exn) :
  forall (turns : nat) (attempt : Z) (lastError : option exn)
         (log : retry_log),
    attempt + Z.of_nat turns = maxRetries + 1 ->
    (forall i, (i < turns)%nat ->
       operation (calls log + i) = Throw (errors (calls log + i)%nat)
       /\ loggable (errors (calls log + i)%nat)) ->
    retry_from operation maxRetries delay turns attempt lastError log
    = (Throw (match turns with
              | O => thrown lastError
              | S n => errors (calls log + n)%nat
              end),
       {| calls := calls log + turns;
          sleeps := List.app (sleeps log)
                      (map (fun i => delay * (attempt + Z.of_nat i))
                           (seq 0 (Nat.pred turns))) |}).
Proof.
  induction turns as [|turns IH]; intros attempt lastError log Ha Hf;
    cbn [retry_from].
  - cbn [Nat.pred seq map]; rewrite app_nil_r, Nat.add_0_r.
    now destruct log.
  - destruct (Hf O ltac:(lia)) as (He & Hl).
    rewrite Nat.add_0_r in He, Hl; rewrite He.
    unfold logError, JS.get; rewrite Hl; cbn [bind Nat.pred].
    destruct turns as [|turns].
    + destruct (Z.ltb_spec attempt maxRetries) as [|_]; [lia|].
      cbn [retry_from thrown called calls sleeps seq map].
      now rewrite app_nil_r, Nat.add_0_r, Nat.add_1_r.
    + destruct (Z.ltb_spec attempt maxRetries) as [_|]; [|lia].
      rewrite IH.
      * cbn [calls sleeps slept called Nat.pred]; rewrite backoff_shift.
        rewrite <- app_assoc; cbn [List.app].
        f_equal; [do 2 f_equal; lia|f_equal; lia].
      * lia.
      * intros i Hi; cbn [calls slept called].
        replace (S (calls log) + i)%nat with (calls log + S i)%nat by lia.
        apply Hf; lia.
Qed.
End Retrying.

Lemma backoff_from_one (delay : Z) (k : nat) :
  map (fun i => delay * (1 + Z.of_nat i)) (seq 0 k) = backoff delay k.
Proof. unfold backoff; apply map_ext; intros i; f_equal; lia. Qed.

(** X21: [withRetry] returns the first result that the operation delivers
    within [maxRetries] calls; before that it has called the operation once
    for every failure and has waited after the failure number [i] for [i]
    times the delay: the delays grow linearly. *)
Theorem withRetry_returns_first_success
  (operation : nat -> result value) (maxRetries delay : Z) (k : nat)
  (v : value) :
  Z.of_nat k < maxRetries ->
  (forall i, (i < k)%nat -> exists e, operation i = Throw e /\ loggable e) ->
  operation k = Ok v ->
  withRetry operation (Some maxRetries) (Some delay)
  = (Ok v, {| calls := S k; sleeps := backoff delay k |}).
Proof.
  intros Hk Hf Hv; unfold withRetry.
  rewrite (retry_from_success operation maxRetries delay k v);
    cbn [calls sleeps List.app]; try assumption; try lia.
  now rewrite backoff_from_one.
Qed.

Lemma withRetry_returns_first_success_witness :
  withRetry (Samples.flaky 2) (Some 3) (Some 1000)
  = (Ok (VStr "done"), {| calls := 3; sleeps := [1000; 2000] |}).
Proof.
  apply (withRetry_returns_first_success (Samples.flaky 2) 3 1000 2).
  - lia.
  - intros [|[|i]] Hi; [| |lia];
      (exists Samples.network_error; split; reflexivity).
  - reflexivity.
Defined.

(** X22: When the operation fails [maxRetries] times, [withRetry] throws the
    error of the last call, after exactly [maxRetries] calls; it has waited
    between the calls, but not after the last one. *)
Theorem withRetry_throws_last_error
  (operation : nat -> result value) (maxRetries delay : Z)
  (errors : nat -> exn) :
  1 <= maxRetries ->
  (forall i, Z.of_nat i < maxRetries ->
     operation i = Throw (errors i) /\ loggable (errors i)) ->
  withRetry operation (Some maxRetries) (Some delay)
  = (Throw (errors (Z.to_nat maxRetries - 1)%nat),
     {| calls := Z.to_nat maxRetries;
        sleeps := backoff delay (Z.to_nat maxRetries - 1) |}).
Proof.
  intros Hm Hf; unfold withRetry.
  rewrite (retry_from_exhausted operation maxRetries delay errors);
    cbn [calls sleeps List.app].
  - destruct (Z.to_nat maxRetries) as [|n] eqn:En; [lia|].
    cbn [Nat.pred]; rewrite backoff_from_one.
    now rewrite Nat.sub_succ, Nat.sub_0_r.
  - lia.
  - intros i Hi; cbn [Nat.add]; apply Hf; lia.
Qed.

Lemma withRetry_throws_last_error_witness :
  withRetry (Samples.flaky 5) None None
  = (Throw Samples.network_error,
     {| calls := 3; sleeps := [1000; 2000] |}).
Proof.
  apply (withRetry_throws_last_error (Samples.flaky 5) 3 1000
           (fun _ => Samples.network_error)).
  - lia.
  - intros i Hi; split; [|reflexivity].
    unfold Samples.flaky.
    destruct (Nat.ltb_spec i 5) as [_|]; [reflexivity|lia].
Defined.

(** X23: With [maxRetries] at most 0, the operation is never called, and what
    [withRetry] throws is [undefined]. *)
Theorem withRetry_without_attempt
  (operation : nat -> result value) (maxRetries delay : Z) :
  maxRetries <= 0 ->
  withRetry operation (Some maxRetries) (Some delay)
  = (Throw (Rejection VUndef), {| calls := 0; sleeps := [] |}).
Proof.
  intros Hm; unfold withRetry.
  replace (Z.to_nat maxRetries) with O by lia; reflexivity.
Qed.

Lemma withRetry_without_attempt_witness :
  withRetry (Samples.flaky 0) (Some 0) None
  = (Throw (Rejection VUndef), {| calls := 0; sleeps := [] |}).
Proof. apply withRetry_without_attempt; lia. Defined.

(** X24: An operation that rejects with [undefined] or [null] is not retried:
    logging the rejection fails, and [withRetry] throws that [TypeError] after
    the first call, without waiting. *)
Theorem withRetry_gives_up_on_nullish_rejection
  (operation : nat -> result value) (maxRetries delay : Z) (e : exn) :
  1 <= maxRetries ->
  operation O = Throw e ->
  nullish (caught e) = true ->
  withRetry operation (Some maxRetries) (Some delay)
  = (Throw TypeError, {| calls := 1; sleeps := [] |}).
Proof.
  intros Hm He Hn; unfold withRetry.
  destruct (Z.to_nat maxRetries) as [|n] eqn:En; [lia|].
  cbn [retry_from calls]; rewrite He.
  unfold logError, JS.get; rewrite Hn; reflexivity.
Qed.

Lemma withRetry_gives_up_on_nullish_rejection_witness :
  withRetry (fun _ => Throw (Rejection VNull)) (Some 3) (Some 1000)
  = (Throw TypeError, {| calls := 1; sleeps := [] |}).
Proof.
  apply (withRetry_gives_up_on_nullish_rejection _ 3 1000 (Rejection VNull));
    [lia|reflexivity|reflexivity].
Defined.

Lemma advice_title title message action :
  member (advice title message action) "title" = VStr title.
Proof. reflexivity. Qed.

Lemma categorizeError_network (error : value) (category : string) :
  failed_fetch error = Ok false ->
  categorizeError error = Ok category ->
  category <> "network".
Proof.
  unfold categorizeError; intros ->; cbn [bind].
  destruct (strict_eq _ _); [intros [= <-]; discriminate|].
  destruct (if truthy _ then _ else _) as [[|]|]; cbn [bind];
    [intros [= <-]; discriminate| |discriminate].
  destruct (_ || _); intros [= <-]; discriminate.
Qed.

(** X25: The advice of [handleAPIError] is never titled [Network Error]: a
    failed fetch is reported as [Connection Failed], naming the endpoint,
    before the general classification is consulted. *)
Theorem handleAPIError_never_network_error
  (error endpoint advice : value) :
  handleAPIError error endpoint = Ok advice ->
  member advice "title" <> VStr "Network Error".
Proof.
  unfold handleAPIError.
  destruct (logError error); cbn [bind]; [|discriminate].
  destruct (failed_fetch error) as [[|]|] eqn:Ef; cbn [bind];
    [intros [= <-]; discriminate| |discriminate].
  unfold getUserFriendlyMessage.
  destruct (categorizeError error) as [category|] eqn:Ec; cbn [bind];
    [|discriminate].
  pose proof (categorizeError_network _ _ Ef Ec) as Hn.
  destruct (String.eqb_spec category "network"); [congruence|].
  repeat match goal with
         | |- context [if ?b then _ else _] => destruct b
         end; intros [= <-]; discriminate.
Qed.

Lemma handleAPIError_never_network_error_witness :
  exists advice,
    handleAPIError (caught Samples.network_error)
      (VStr "https://api.osv.dev") = Ok advice
    /\ member advice "title" = VStr "Connection Failed"
    /\ member advice "title" <> VStr "Network Error".
Proof.
  eexists; split; [reflexivity|split; [reflexivity|]].
  apply (handleAPIError_never_network_error (caught Samples.network_error)
           (VStr "https://api.osv.dev")).
  reflexivity.
Defined.

End ErrorFacts.

(** ** The upload step and the property editor of App.js *)

Module UploadFacts.
Import JS Notions App MergeFacts.

Lemma named_object key p :
  strict_eq (member p "name") (VStr key) = true -> truthy p = true.
Proof. destruct p; simpl; try discriminate; reflexivity. Qed.

(** [find] misses exactly when no entry carries the name. *)
Lemma find_named key (l : list value) found :
  array_find (named key) l = Ok found ->
  truthy found = negb (missing l key).
Proof.
  unfold missing; induction l as [|x r IH]; cbn [array_find].
  - now intros [= <-].
  - destruct (named key x) as [b|] eqn:En; cbn [bind]; [|discriminate].
    apply named_name in En; subst b; cbn [truthy].
    rewrite entries_named_cons.
    destruct (strict_eq (member x "name") (VStr key)) eqn:Ex.
    + intros [= <-]; now rewrite (named_object _ _ Ex).
    + exact IH.
Qed.

Lemma fill_key_spec props key props' :
  fill_key props key = Ok props' ->
  props' = List.app props
             (if missing props key then [placeholder key] else []).
Proof.
  unfold fill_key.
  destruct (array_find (named key) props) as [found|] eqn:E; cbn [bind];
    [|discriminate].
  rewrite (find_named _ _ _ E), negb_involutive.
  destruct (missing props key); intros [= <-]; [reflexivity|].
  now rewrite app_nil_r.
Qed.

Lemma missing_app_other props key k :
  k <> key ->
  missing (List.app props (if missing props key then [placeholder key]
                           else [])) k
  = missing props k.
Proof.
  intros Hk; unfold missing at 1 3; rewrite entries_named_app.
  destruct (missing props key); [|now rewrite app_nil_r].
  rewrite entries_named_cons; cbn [placeholder member lookup].
  cbn [String.eqb Ascii.eqb Bool.eqb strict_eq].
  destruct (String.eqb_spec key k); [congruence|].
  now rewrite app_nil_r.
Qed.

Lemma fill_keys_spec (keys : list string) :
  NoDup keys ->
  forall props props',
    fill_keys props keys = Ok props' ->
    props' = List.app props (map placeholder (filter (missing props) keys)).
Proof.
  induction keys as [|key r IH]; intros Hnd props props'; cbn [fill_keys].
  - intros [= <-]; now rewrite app_nil_r.
  - destruct (fill_key props key) as [p1|] eqn:E; cbn [bind];
      [|discriminate].
    apply fill_key_spec in E; subst p1.
    inversion Hnd as [|? ? Hnot Hnd']; subst.
    intros H; apply (IH Hnd') in H; subst props'.
    rewrite <- app_assoc; f_equal.
    assert (Hf : filter
                   (missing
                      (List.app props
                         (if missing props key then [placeholder key]
                          else []))) r
                 = filter (missing props) r).
    { apply filter_ext_in; intros k Hk; apply missing_app_other.
      intros ->; contradiction. }
    rewrite Hf; cbn [filter].
    destruct (missing props key); reflexivity.
Qed.

Lemma CERT_IN_PROPERTIES_NoDup : NoDup CERT_IN_PROPERTIES.
Proof.
  unfold CERT_IN_PROPERTIES.
  repeat (constructor; [simpl; intuition discriminate|]); constructor.
Qed.

Lemma properties_of_set (props : list value) (o : list (string * value)) :
  properties_of (VObj (set_prop "properties" (VArr props) o)) = props.
Proof. unfold properties_of; simpl; now rewrite lookup_set_prop_same. Qed.

Lemma fill_keys_complete props props' :
  fill_keys props CERT_IN_PROPERTIES = Ok props' ->
  forall key, In key CERT_IN_PROPERTIES -> missing props' key = false.
Proof.
  intros E key Hk.
  apply (fill_keys_spec _ CERT_IN_PROPERTIES_NoDup) in E; subst props'.
  unfold missing at 1; rewrite entries_named_app.
  destruct (entries_named key props) as [|x l] eqn:Ep; [|reflexivity].
  cbn [List.app].
  assert (Hin : In key (filter (missing props) CERT_IN_PROPERTIES)).
  { apply filter_In; split; [exact Hk|].
    unfold missing; now rewrite Ep. }
  apply in_split in Hin as (l1 & l2 & ->).
  rewrite map_app, entries_named_app; cbn [map].
  rewrite entries_named_cons; cbn [placeholder member lookup].
  cbn [String.eqb Ascii.eqb Bool.eqb strict_eq].
  rewrite String.eqb_refl.
  destruct (entries_named key (map placeholder l1)); reflexivity.
Qed.

(** What [fill_component] returns for an object. *)
Lemma fill_component_object (o : list (string * value)) (c' : value) :
  fill_component (VObj o) = Ok c' ->
  exists props props',
    copy_properties (member (VObj o) "properties") = Ok props
    /\ fill_keys props CERT_IN_PROPERTIES = Ok props'
    /\ c' = VObj (set_prop "properties" (VArr props') o).
Proof.
  unfold fill_component, JS.get; cbn [nullish bind].
  destruct (copy_properties _) as [props|]; cbn [bind]; [|discriminate].
  destruct (fill_keys props CERT_IN_PROPERTIES) as [props'|] eqn:E;
    cbn [bind]; [|discriminate].
  intros [= <-]; cbn [own_props]; eauto.
Qed.

(** X26: The upload step keeps the properties of a component, in their order,
    and appends a placeholder of value [NA] for exactly the CERT-In properties
    that the component does not list yet, in the order of the CERT-In list;
    the other fields of the component are left as they are. *)
Theorem fill_component_appends_missing
  (o : list (string * value)) (props : list value) (c' : value) :
  copy_properties (member (VObj o) "properties") = Ok props ->
  fill_component (VObj o) = Ok c' ->
  properties_of c'
  = List.app props
      (map placeholder (filter (missing props) CERT_IN_PROPERTIES))
  /\ (forall key, In key CERT_IN_PROPERTIES ->
        missing (properties_of c') key = false)
  /\ (forall f, f <> "properties" -> member c' f = member (VObj o) f).
Proof.
  intros Hc Hf.
  destruct (fill_component_object o c' Hf) as (p & props' & Hp & E & ->).
  rewrite Hc in Hp; injection Hp as <-.
  rewrite properties_of_set; split; [|split].
  - exact (fill_keys_spec _ CERT_IN_PROPERTIES_NoDup _ _ E).
  - exact (fill_keys_complete _ _ E).
  - intros f Hne; simpl; now rewrite lookup_set_prop_other.
Qed.

Lemma fill_component_appends_missing_witness :
  exists c',
    fill_component Samples.lodash_uploaded = Ok c'
    /\ List.length (properties_of c') = 12%nat
    /\ firstn 3 (properties_of c') = properties_of Samples.lodash_uploaded
    /\ nth 3 (properties_of c') VUndef = placeholder "End-of-Life Date"
    /\ missing (properties_of c') "Component Origin" = false.
Proof.
  destruct (fill_component Samples.lodash_uploaded) as [c'|] eqn:E;
    [|vm_compute in E; discriminate E].
  exists c'; split; [reflexivity|].
  unfold Samples.lodash_uploaded in E.
  match type of E with
  | fill_component (VObj ?o) = _ =>
      destruct (fill_component_appends_missing o
                  (properties_of Samples.lodash_uploaded) c' eq_refl E)
        as (Hp & Hm & _)
  end.
  rewrite Hp.
  split; [reflexivity|split; [reflexivity|split; [reflexivity|]]].
  rewrite <- Hp; apply Hm; simpl; tauto.
Defined.

Lemma not_missing_in_names (props : list value) (key : string) :
  missing props key = false <-> In (VStr key) (names props).
Proof.
  unfold missing, names; induction props as [|x r IH]; simpl.
  - split; [discriminate|tauto].
  - change (filter _ r) with (entries_named key r).
    destruct (strict_eq (member x "name") (VStr key)) eqn:Ex.
    + split; [intros _; left|reflexivity].
      now apply CacheFacts.strict_eq_true.
    + rewrite IH; split; [tauto|intros [Hx|H]; [|exact H]].
      rewrite Hx in Ex; simpl in Ex.
      now rewrite String.eqb_refl in Ex.
Qed.

Lemma findIndex_names key (l : list value) (i : nat) (entry : value) :
  array_findIndex (named key) l = Ok (Some i) ->
  member entry "name" = VStr key ->
  names (replace_at i entry l) = names l.
Proof.
  intros H He; revert i H; induction l as [|x r IH]; intros i;
    cbn [array_findIndex]; [discriminate|].
  destruct (named key x) as [b|] eqn:En; cbn [bind]; [|discriminate].
  apply named_name in En; subst b; cbn [truthy].
  destruct (strict_eq (member x "name") (VStr key)) eqn:Ex.
  - intros [= <-]; cbn [replace_at names map].
    now rewrite He, (CacheFacts.strict_eq_true _ _ Ex).
  - destruct (array_findIndex (named key) r) as [[j|]|];
      cbn [bind option_map]; try discriminate.
    intros [= <-]; cbn [replace_at names map]; f_equal.
    now apply IH.
Qed.

Lemma merge_key_names fetched props key props' :
  missing props key = false ->
  merge_key fetched props key = Ok props' ->
  names props' = names props.
Proof.
  intros Hm; unfold merge_key.
  destruct (truthy _ && _); [|now intros [= <-]].
  destruct (array_findIndex (named key) props) as [[i|]|] eqn:E;
    cbn [bind]; [| |discriminate].
  - intros [= <-]; now apply (findIndex_names key).
  - apply findIndex_none in E; unfold missing in Hm.
    rewrite E in Hm; discriminate.
Qed.

Lemma forEach_key_names fetched (keys : list string) :
  forall props props',
    (forall key, In key keys -> missing props key = false) ->
    forEach_key fetched props keys = Ok props' ->
    names props' = names props.
Proof.
  induction keys as [|key r IH]; intros props props' Hm; cbn [forEach_key].
  - now intros [= <-].
  - destruct (merge_key fetched props key) as [p1|] eqn:E; cbn [bind];
      [|discriminate].
    pose proof (merge_key_names _ _ _ _ (Hm key (or_introl eq_refl)) E)
      as Hn.
    intros H; rewrite <- Hn; apply (IH p1 props'); [|exact H].
    intros k Hk; apply not_missing_in_names; rewrite Hn.
    apply not_missing_in_names; apply Hm; now right.
Qed.

(** X27: After the upload step, the merge of the derived properties only
    replaces values: the properties list of the merged component has the same
    names at the same positions, so nothing is appended and nothing is
    reordered. *)
Theorem merge_after_upload_keeps_names
  (o : list (string * value)) (result c' merged : value) :
  fill_component (VObj o) = Ok c' ->
  merge_component c' result = Ok merged ->
  names (properties_of merged) = names (properties_of c').
Proof.
  intros Hf.
  destruct (fill_component_object o c' Hf) as (p & props' & _ & E & ->).
  pose proof (fill_keys_complete _ _ E) as Hm.
  unfold merge_component, JS.get; cbn [nullish bind].
  change (match
            member (VObj (set_prop "properties" (VArr props') o))
              "properties"
          with
          | VArr l => l
          | _ => []
          end)
    with (properties_of (VObj (set_prop "properties" (VArr props') o))).
  rewrite properties_of_set.
  destruct (forEach_key _ props' _) as [newProps|] eqn:Ek; cbn [bind];
    [|discriminate].
  intros [= <-]; cbn [own_props]; rewrite properties_of_set.
  exact (forEach_key_names _ _ _ _ Hm Ek).
Qed.

Lemma merge_after_upload_keeps_names_witness :
  exists c' merged,
    fill_component Samples.lodash_uploaded = Ok c'
    /\ merge_component c' Samples.derived = Ok merged
    /\ names (properties_of merged) = names (properties_of c')
    /\ nth 1 (properties_of merged) VUndef
       = VObj [("name", VStr "Patch Status");
               ("value", VStr "Update available (>= 4.17.21)")].
Proof.
  destruct (fill_component Samples.lodash_uploaded) as [c'|] eqn:E;
    [|vm_compute in E; discriminate E].
  destruct (merge_component c' Samples.derived) as [merged|] eqn:Em;
    [|vm_compute in E; injection E as <-; vm_compute in Em;
      discriminate Em].
  exists c', merged; split; [reflexivity|split; [exact Em|split]].
  - unfold Samples.lodash_uploaded in E.
    exact (merge_after_upload_keeps_names _ _ _ _ E Em).
  - vm_compute in E; injection E as <-.
    vm_compute in Em; injection Em as <-; reflexivity.
Defined.

Lemma drop_spaces_nil (l : list ascii) :
  drop_spaces l = [] <-> forallb is_space l = true.
Proof.
  induction l as [|c l IH]; simpl; [tauto|].
  destruct (is_space c); simpl; [exact IH|].
  split; discriminate.
Qed.

Lemma drop_spaces_blank (l : list ascii) :
  forallb is_space (drop_spaces l) = true -> drop_spaces l = [].
Proof.
  induction l as [|c l IH]; simpl; [reflexivity|].
  destruct (is_space c) eqn:E; [exact IH|].
  simpl; rewrite E; discriminate.
Qed.

Lemma trim_blank (v : string) :
  String.eqb (of_chars (trim_chars (chars v))) "" = blank v.
Proof.
  unfold blank, trim_chars.
  destruct (forallb is_space (chars v)) eqn:E.
  - apply drop_spaces_nil in E; rewrite E; reflexivity.
  - destruct (String.eqb_spec
                (of_chars (rev (drop_spaces (rev (drop_spaces (chars v))))))
                "") as [H|]; [|reflexivity].
    assert (Hn : rev (drop_spaces (rev (drop_spaces (chars v)))) = []).
    { destruct (rev _); [reflexivity|discriminate H]. }
    apply (f_equal (@rev ascii)) in Hn; rewrite rev_involutive in Hn.
    simpl in Hn; apply drop_spaces_nil in Hn.
    rewrite forallb_forall in Hn.
    assert (Hd : forallb is_space (drop_spaces (chars v)) = true).
    { apply forallb_forall; intros c Hc; apply Hn.
      now apply in_rev in Hc. }
    apply drop_spaces_blank, drop_spaces_nil in Hd; congruence.
Qed.

Lemma findIndex_remove key (l : list value) (i : nat) :
  array_findIndex (named key) l = Ok (Some i) ->
  (forall k, k <> key ->
     entries_named k (remove_at i l) = entries_named k l)
  /\ entries_named key (remove_at i l) = tl (entries_named key l).
Proof.
  revert i; induction l as [|x r IH]; cbn [array_findIndex]; intros i H;
    [discriminate|].
  destruct (named key x) as [b|] eqn:En; cbn [bind] in H; [|discriminate].
  apply named_name in En; subst b; cbn [truthy] in H.
  destruct (strict_eq (member x "name") (VStr key)) eqn:Ex.
  - injection H as <-; cbn [remove_at]; split.
    + intros k Hk; rewrite entries_named_cons.
      now rewrite (strict_eq_names _ k key Ex Hk).
    + now rewrite entries_named_cons, Ex.
  - destruct (array_findIndex (named key) r) as [[j|]|] eqn:Er;
      cbn [bind option_map] in H; try discriminate.
    injection H as <-; destruct (IH j eq_refl) as [IH1 IH2];
      cbn [remove_at]; split.
    + intros k Hk; rewrite !entries_named_cons.
      now rewrite (IH1 k Hk).
    + rewrite !entries_named_cons, Ex; exact IH2.
Qed.

Lemma written_entry (n v : string) :
  written (VObj [(n, VStr v)]) n
  = VObj [("name", VStr n); ("value", VStr v)].
Proof. unfold written; simpl; now rewrite String.eqb_refl. Qed.

(** X28: The property editor works on the first entry of the given name: a
    value that is not blank replaces it, or is appended when there is none; a
    blank value removes it, and only it, so that a second entry of the same
    name then becomes the first. The entries of the other names are left as
    they are, in their order. *)
Theorem updateProperty_first_entry
  (props : list value) (n v : string) (props' : list value) :
  updateProperty (VArr props) (VStr n) (VStr v) = Ok props' ->
  (forall k, k <> n -> entries_named k props' = entries_named k props)
  /\ entries_named n props'
     = List.app
         (if blank v then []
          else [VObj [("name", VStr n); ("value", VStr v)]])
         (tl (entries_named n props)).
Proof.
  unfold updateProperty; cbn [copy_properties truthy spread bind].
  change (has_name (VStr n)) with (named n).
  destruct (array_findIndex (named n) props) as [[i|]|] eqn:E;
    cbn [bind trim as_string]; [| |discriminate].
  - rewrite trim_blank; rewrite <- written_entry.
    destruct (blank v); intros [= <-].
    + exact (findIndex_remove n props i E).
    + exact (findIndex_replace (VObj [(n, VStr v)]) n props i E).
  - rewrite trim_blank; apply findIndex_none in E.
    destruct (blank v); cbn [negb]; intros [= <-].
    + rewrite E; split; reflexivity.
    + split.
      * intros k Hk; rewrite entries_named_app, entries_named_cons.
        cbn [member lookup String.eqb Ascii.eqb Bool.eqb strict_eq].
        destruct (String.eqb_spec n k); [congruence|].
        apply app_nil_r.
      * rewrite entries_named_app, E, entries_named_cons.
        cbn [member lookup String.eqb Ascii.eqb Bool.eqb strict_eq].
        now rewrite String.eqb_refl.
Qed.

Lemma updateProperty_first_entry_witness :
  exists props',
    updateProperty (VArr Samples.edited_properties) (VStr "Release Date")
      (VStr "  ") = Ok props'
    /\ entries_named "Release Date" props'
       = [VObj [("name", VStr "Release Date");
                ("value", VStr "2021-02-20")]]
    /\ entries_named "internal:owner" props'
       = entries_named "internal:owner" Samples.edited_properties.
Proof.
  destruct (updateProperty (VArr Samples.edited_properties)
              (VStr "Release Date") (VStr "  ")) as [props'|] eqn:E;
    [|vm_compute in E; discriminate E].
  exists props'; split; [reflexivity|].
  destruct (updateProperty_first_entry _ _ _ _ E) as [Ho Hn].
  split; [rewrite Hn; reflexivity|].
  apply Ho; discriminate.
Defined.

End UploadFacts.

(** ** The CSV export of App.js *)

Module CsvFacts.
Import JS Notions App DerivationFacts.

Lemma special_plain (l : list ascii) :
  existsb (fun c => Ascii.eqb c dquote || Ascii.eqb c comma
                    || Ascii.eqb c newline) l = false ->
  forallb plain l = true.
Proof.
  induction l as [|c l IH]; simpl; [reflexivity|].
  intros H; apply orb_false_elim in H as [Hc Hl].
  unfold plain at 1; rewrite Hc; simpl; auto.
Qed.

Lemma end_of_field (st : csv_state) (cur : list ascii)
  (record : list string) (rest : list ascii) :
  st <> InQuoted -> terminated rest ->
  read_csv_from st cur record rest
  = after_field (of_chars (rev cur)) record rest.
Proof.
  intros Hst Ht; destruct rest as [|c r]; [destruct st; reflexivity|].
  simpl in Ht; unfold after_field.
  destruct st; try congruence; cbn [read_csv_from];
    destruct (Ascii.eqb c comma); try reflexivity;
    simpl in Ht; rewrite Ht; reflexivity.
Qed.

Lemma plain_run (t : list ascii) :
  forallb plain t = true ->
  forall (cur : list ascii) (record : list string) (rest : list ascii),
    read_csv_from InPlain cur record (List.app t rest)
    = read_csv_from InPlain (List.app (rev t) cur) record rest.
Proof.
  induction t as [|c t IH]; intros H cur record rest; [reflexivity|].
  simpl in H; apply andb_prop in H as [Hc Ht].
  unfold plain in Hc; apply negb_true_iff in Hc.
  apply orb_false_elim in Hc as [Hc Hn].
  apply orb_false_elim in Hc as [Hq Hc].
  cbn [List.app read_csv_from]; rewrite Hc, Hn, Hq.
  rewrite (IH Ht); cbn [rev]; now rewrite <- app_assoc.
Qed.

Lemma plain_field (t : list ascii) (record : list string)
  (rest : list ascii) :
  forallb plain t = true -> terminated rest ->
  read_csv_from AtStart [] record (List.app t rest)
  = after_field (of_chars t) record rest.
Proof.
  intros H Ht; destruct t as [|c t].
  - now apply end_of_field.
  - simpl in H; apply andb_prop in H as [Hc Hp].
    unfold plain in Hc; apply negb_true_iff in Hc.
    apply orb_false_elim in Hc as [Hc Hn].
    apply orb_false_elim in Hc as [Hq Hc].
    cbn [List.app read_csv_from]; rewrite Hc, Hn, Hq.
    rewrite (plain_run t Hp), end_of_field by (congruence || assumption).
    now rewrite rev_app_distr, rev_involutive.
Qed.

Lemma quoted_run (t : list ascii) :
  forall (cur : list ascii) (record : list string) (rest : list ascii),
    read_csv_from InQuoted cur record
      (List.app (double_quotes t) (dquote :: rest))
    = read_csv_from AfterQuote (List.app (rev t) cur) record rest.
Proof.
  induction t as [|c t IH]; intros cur record rest.
  - cbn [double_quotes flat_map List.app read_csv_from].
    now rewrite Ascii.eqb_refl.
  - change (double_quotes (c :: t))
      with (List.app (if Ascii.eqb c dquote then [dquote; dquote] else [c])
              (double_quotes t)).
    destruct (Ascii.eqb_spec c dquote) as [->|Hc].
    + cbn [List.app read_csv_from]; rewrite Ascii.eqb_refl.
      change (Ascii.eqb dquote comma) with false.
      change (Ascii.eqb dquote newline) with false.
      cbn iota; rewrite IH.
      cbn [rev]; now rewrite <- app_assoc.
    + cbn [List.app read_csv_from].
      destruct (Ascii.eqb_spec c dquote); [congruence|].
      rewrite IH; cbn [rev]; now rewrite <- app_assoc.
Qed.

Lemma chars_of_chars (l : list ascii) : chars (of_chars l) = l.
Proof. apply list_ascii_of_string_of_list_ascii. Qed.

(** The reader gets the text of a field back from what [escapeCsv] makes
    of it. *)
Lemma escaped_field (val : value) (record : list string)
  (rest : list ascii) :
  terminated rest ->
  read_csv_from AtStart [] record (List.app (chars (escapeCsv val)) rest)
  = after_field (field_text val) record rest.
Proof.
  intros Ht; unfold escapeCsv, field_text.
  destruct (nullish val); [now apply (plain_field [])|].
  unfold special.
  destruct (existsb _ (chars (to_string val))) eqn:E.
  - rewrite chars_of_chars; cbn [List.app read_csv_from].
    rewrite Ascii.eqb_refl.
    change (Ascii.eqb dquote comma) with false.
    change (Ascii.eqb dquote newline) with false.
    cbn iota; rewrite <- app_assoc; cbn [List.app].
    rewrite quoted_run, end_of_field by (congruence || assumption).
    now rewrite app_nil_r, rev_involutive, of_chars_chars.
  - rewrite plain_field by (auto using special_plain).
    now rewrite of_chars_chars.
Qed.

Lemma csv_row_cons (f f' : value) (fs : list value) :
  chars (csv_row (f :: f' :: fs))
  = List.app (chars (escapeCsv f)) (comma :: chars (csv_row (f' :: fs))).
Proof.
  unfold csv_row; cbn [map join]; rewrite chars_app; reflexivity.
Qed.

(** The reader gets the texts of a row back from its line. *)
Lemma escaped_row (fs : list value) :
  fs <> [] ->
  forall (record : list string) (rest : list ascii),
    match rest with [] => True | c :: _ => c = newline end ->
    read_csv_from AtStart [] record (List.app (chars (csv_row fs)) rest)
    = match rest with
      | [] => [List.app (rev record) (map field_text fs)]
      | _ :: r =>
          List.app (rev record) (map field_text fs)
            :: read_csv_from AtStart [] [] r
      end.
Proof.
  induction fs as [|f fs IH]; [congruence|]; intros _ record rest Hr.
  destruct fs as [|f' fs].
  - change (csv_row [f]) with (escapeCsv f).
    rewrite escaped_field.
    + destruct rest as [|c r]; [reflexivity|]; subst c.
      unfold after_field.
      change (Ascii.eqb newline comma) with false; reflexivity.
    + destruct rest as [|c r]; [exact I|]; subst c; reflexivity.
  - rewrite csv_row_cons, <- app_assoc; cbn [List.app].
    rewrite escaped_field by reflexivity.
    unfold after_field; rewrite Ascii.eqb_refl.
    rewrite IH by (congruence || assumption).
    cbn [rev map]; rewrite <- !app_assoc; reflexivity.
Qed.

Lemma read_lines (rows : list (list value)) :
  rows <> [] -> Forall (fun fs => fs <> []) rows ->
  read_csv (join (String newline "") (map csv_row rows))
  = map (map field_text) rows.
Proof.
  unfold read_csv; induction rows as [|fs rows IH]; [congruence|].
  intros _ HF; inversion HF as [|? ? Hfs HF']; subst.
  destruct rows as [|fs' rows].
  - cbn [map join].
    rewrite <- (app_nil_r (chars (csv_row fs))).
    now rewrite escaped_row.
  - change (join (String newline "") (map csv_row (fs :: fs' :: rows)))
      with (csv_row fs ++ String newline ""
            ++ join (String newline "") (map csv_row (fs' :: rows))).
    rewrite chars_app; cbn [append].
    change (chars (String newline ?s)) with (newline :: chars s).
    rewrite escaped_row by (assumption || reflexivity).
    cbn [rev List.app map]; f_equal.
    apply IH; [congruence|assumption].
Qed.

Lemma plain_header (h : string) :
  special h = false -> escapeCsv (VStr h) = h.
Proof. unfold escapeCsv; cbn [nullish to_string]; now intros ->. Qed.

(** X29: The CSV text that the export builds can be read back: whatever the
    values contain (commas, double quotes, line feeds), the reader finds the
    header and then, for every row, exactly the texts of its fields. The
    headers themselves are written without escaping, and have to be free of
    these characters. *)
Theorem csvContent_reads_back
  (headers : list string) (rows : list (list value)) :
  headers <> [] ->
  forallb (fun h => negb (special h)) headers = true ->
  Forall (fun fields => fields <> []) rows ->
  read_csv (csvContent headers (map csv_row rows))
  = headers :: map (map field_text) rows.
Proof.
  intros Hh Hs HF; unfold csvContent.
  assert (Hl : join "," headers = csv_row (map VStr headers)).
  { unfold csv_row; rewrite map_map; f_equal.
    rewrite forallb_forall in Hs.
    rewrite <- (map_id headers) at 1; apply map_ext_in; intros h Hin.
    symmetry; apply plain_header.
    now apply negb_true_iff, Hs. }
  rewrite Hl.
  change (csv_row (map VStr headers) :: map csv_row rows)
    with (map csv_row (map VStr headers :: rows)).
  rewrite read_lines.
  - cbn [map]; f_equal; rewrite map_map; cbn [field_text nullish to_string].
    apply map_id.
  - discriminate.
  - constructor; [|exact HF].
    destruct headers; [congruence|discriminate].
Qed.

Lemma csvContent_reads_back_witness :
  read_csv
    (csvContent ["Component Name"; "Comments or Notes"; "Vulnerabilities"]
       (map csv_row
          [[VStr "lodash";
            VStr (String dquote "core" ++ String dquote ", utilities");
            VStr "CVE-2021-23337, CVE-2020-8203"];
           [VStr "express"; VNull;
            VStr ("line one" ++ String newline "line two")]]))
  = [["Component Name"; "Comments or Notes"; "Vulnerabilities"];
     ["lodash"; String dquote "core" ++ String dquote ", utilities";
      "CVE-2021-23337, CVE-2020-8203"];
     ["express"; ""; "line one" ++ String newline "line two"]].
Proof.
  apply (csvContent_reads_back
           ["Component Name"; "Comments or Notes"; "Vulnerabilities"]);
    [discriminate|reflexivity|].
  repeat constructor; discriminate.
Defined.

End CsvFacts.

(** ** The vulnerabilities column of the exports *)

Module VulnerabilityMapFacts.
Import JS Notions CacheService App CacheFacts CacheMoreFacts.

Lemma listed_push (ref vulnId : value) (m : Map) (k : string) :
  listed (push_id ref vulnId m) (VStr k)
  = if strict_eq ref (VStr k)
    then List.app (listed m (VStr k)) [vulnId]
    else listed m (VStr k).
Proof.
  unfold listed, push_id.
  destruct (strict_eq ref (VStr k)) eqn:E.
  - apply strict_eq_true in E; subst ref.
    rewrite map_get_set by apply same_key_str.
    destruct (map_has (VStr k) m) eqn:Eh; [reflexivity|].
    now rewrite (map_get_absent _ _ Eh).
  - now rewrite map_get_set_other by exact E.
Qed.

Lemma forEach_affect_listed (vulnId : value) (affects : list value)
  (k : string) :
  k <> "" ->
  forall m m',
    forEach_affect vulnId affects m = Ok m' ->
    listed m' (VStr k)
    = List.app (listed m (VStr k))
        (map (fun _ => vulnId)
             (filter (fun affect => strict_eq (member affect "ref") (VStr k))
                     affects)).
Proof.
  intros Hk; induction affects as [|a r IH]; intros m m';
    cbn [forEach_affect].
  - intros [= <-]; now rewrite app_nil_r.
  - unfold JS.get; destruct (nullish a); cbn [bind]; [discriminate|].
    intros H; apply IH in H; rewrite H; cbn [filter].
    destruct (truthy (member a "ref")) eqn:Et; cbn [negb].
    + rewrite listed_push.
      destruct (strict_eq (member a "ref") (VStr k)); [|reflexivity].
      cbn [map]; now rewrite <- app_assoc.
    + destruct (strict_eq (member a "ref") (VStr k)) eqn:E; [|reflexivity].
      apply strict_eq_true in E; rewrite E in Et; simpl in Et.
      destruct (String.eqb_spec k ""); [congruence|discriminate].
Qed.

Lemma forEach_vuln_listed (vulnerabilities : list value) (k : string) :
  k <> "" ->
  forall m m',
    forEach_vuln vulnerabilities m = Ok m' ->
    listed m' (VStr k)
    = List.app (listed m (VStr k)) (ids_for k vulnerabilities).
Proof.
  intros Hk; induction vulnerabilities as [|v r IH]; intros m m';
    cbn [forEach_vuln].
  - intros [= <-]; now rewrite app_nil_r.
  - unfold JS.get; destruct (nullish v); cbn [bind]; [discriminate|].
    destruct (truthy (member v "affects")) eqn:Et; cbn [negb bind].
    + destruct (member v "affects") as [| | | | |l|] eqn:Ea;
        cbn [as_array bind]; try discriminate.
      destruct (forEach_affect _ l m) as [m1|] eqn:E1; cbn [bind];
        [|discriminate].
      intros H; apply IH in H; rewrite H.
      rewrite (forEach_affect_listed _ _ _ Hk _ _ E1).
      unfold ids_for; cbn [flat_map]; rewrite Ea.
      now rewrite <- app_assoc.
    + intros H; apply IH in H; rewrite H.
      unfold ids_for; cbn [flat_map].
      destruct (member v "affects"); try reflexivity; discriminate Et.
Qed.

Lemma map_set_array_valued (k v : value) (m : Map) :
  array_valued m -> isArray v = true -> array_valued (map_set k v m).
Proof.
  intros Hm Hv; induction Hm as [|[k' v'] r Hx Hr IH]; simpl.
  - repeat constructor; exact Hv.
  - destruct (same_key k' k); constructor; auto.
Qed.

Lemma forEach_affect_array_valued (vulnId : value) (affects : list value) :
  forall m m',
    array_valued m -> forEach_affect vulnId affects m = Ok m' ->
    array_valued m'.
Proof.
  induction affects as [|a r IH]; intros m m' Hm; cbn [forEach_affect].
  - now intros [= <-].
  - destruct (JS.get a "ref") as [ref|]; cbn [bind]; [|discriminate].
    apply IH; destruct (negb (truthy ref)); [exact Hm|].
    now apply map_set_array_valued.
Qed.

Lemma forEach_vuln_array_valued (vulnerabilities : list value) :
  forall m m',
    array_valued m -> forEach_vuln vulnerabilities m = Ok m' ->
    array_valued m'.
Proof.
  induction vulnerabilities as [|v r IH]; intros m m' Hm;
    cbn [forEach_vuln].
  - now intros [= <-].
  - destruct (JS.get v "id") as [id|]; cbn [bind]; [|discriminate].
    destruct (negb (truthy (member v "affects"))); cbn [bind];
      [now apply IH|].
    destruct (as_array _) as [l|]; cbn [bind]; [|discriminate].
    destruct (forEach_affect _ l m) as [m1|] eqn:E1; cbn [bind];
      [|discriminate].
    apply IH; exact (forEach_affect_array_valued _ _ _ _ Hm E1).
Qed.

Lemma listed_or_empty (m : Map) (k : value) :
  array_valued m -> js_or (map_get k m) (VArr []) = VArr (listed m k).
Proof.
  unfold listed; induction 1 as [|[k' v] r Hx Hr IH]; simpl;
    [reflexivity|].
  destruct (same_key k' k); [|exact IH].
  destruct v; try discriminate Hx; reflexivity.
Qed.

(** X30: The last column of an export row lists, for a component with a
    [bom-ref], the identifiers of the vulnerabilities of the document whose
    [affects] name that reference, in the order of the document and once for
    every [affects] entry that names it; it reads [None] when there is none. *)
Theorem vulnerabilitiesStr_lists_affecting
  (vulnerabilities : list value) (m : Map) (comp : value) (ref : string) :
  mapVulnerabilities vulnerabilities = Ok m ->
  member comp "bom-ref" = VStr ref ->
  ref <> "" ->
  vulnerabilitiesStr m comp
  = Ok match ids_for ref vulnerabilities with
       | [] => "None"
       | ids => array_join ", " ids
       end.
Proof.
  intros Hm Hc Hr; unfold vulnerabilitiesStr, JS.get.
  destruct (nullish comp) eqn:En;
    [destruct comp; try discriminate En; discriminate Hc|].
  cbn [bind]; rewrite Hc.
  unfold mapVulnerabilities in Hm.
  rewrite (listed_or_empty m (VStr ref)
             (forEach_vuln_array_valued _ _ _ (Forall_nil _) Hm)).
  rewrite (forEach_vuln_listed _ _ Hr _ _ Hm); cbn [listed map_get List.app].
  destruct (ids_for ref vulnerabilities) as [|id ids]; [reflexivity|].
  cbn [member String.eqb Ascii.eqb Bool.eqb to_number num_gt List.length].
  destruct (Z.gtb_spec (Z.of_nat (S (List.length ids))) 0) as [_|]; [|lia].
  reflexivity.
Qed.

Lemma vulnerabilitiesStr_lists_affecting_witness :
  exists m,
    mapVulnerabilities [Samples.lodash_vulnerability "HIGH";
                        Samples.shared_vulnerability] = Ok m
    /\ vulnerabilitiesStr m Samples.lodash
       = Ok "CVE-2021-23337, CVE-2020-8203, CVE-2020-8203"
    /\ vulnerabilitiesStr m Samples.express = Ok "CVE-2020-8203".
Proof.
  destruct (mapVulnerabilities [Samples.lodash_vulnerability "HIGH";
                                Samples.shared_vulnerability])
    as [m|] eqn:E; [|vm_compute in E; discriminate E].
  exists m; split; [reflexivity|split].
  - rewrite (vulnerabilitiesStr_lists_affecting _ _ _
               "pkg:npm/lodash@4.17.20" E);
      [reflexivity|reflexivity|discriminate].
  - rewrite (vulnerabilitiesStr_lists_affecting _ _ _
               "pkg:npm/express@4.18.2" E);
      [reflexivity|reflexivity|discriminate].
Defined.

End VulnerabilityMapFacts.
